(** * The VNA notation parser of the editor, embedded in Rocq

    The development follows [editor/src/parser.ts] (class [VnaParser]:
    [parse], [validate] and the methods under them), the per-token swara
    tokenizer of [editor/src/lib/vna-parser-wasm.ts] and, for comparison,
    the frontmatter reader of [editor/src/lib/vna-parser.ts].

    A JavaScript string is a sequence of UTF-16 code units, so it is a
    [list N] here; [length], [slice], [startsWith] and the like all count
    code units, as they do in the source.  Mutable state is passed
    explicitly, a [throw] is an outcome of its own, and the [while] loops
    recurse on a bound that is shown to suffice. *)

From Stdlib Require Import NArith ZArith String Ascii Lia Sorted.
From stdpp Require Import base list gmap.

Local Open Scope N_scope.
Local Open Scope list_scope.

(** ** JavaScript string primitives *)

Module JS.

Abbreviation jsstring := (list N).

(** An ASCII literal as a sequence of code units. *)
Definition str (s : string) : jsstring :=
  map N_of_ascii (list_ascii_of_string s).

(** Decimal rendering of a natural number inside a template literal. *)
Definition digitChar (d : nat) : N := 48 + N.of_nat d.

Fixpoint showNatAux (fuel n : nat) (acc : jsstring) : jsstring :=
  match fuel with
  | O => acc
  | S fuel' =>
      let acc' := digitChar (n mod 10) :: acc in
      if Nat.ltb n 10 then acc' else showNatAux fuel' (n / 10)%nat acc'
  end.

Definition showNat (n : nat) : jsstring := showNatAux (S n) n [].

(** [WhiteSpace] and [LineTerminator] code points: what [trim] strips and
    what the regular-expression class [\s] matches. *)
Definition isSpace (c : N) : bool :=
  existsb (N.eqb c)
    [9; 10; 11; 12; 13; 32; 160; 5760; 8192; 8193; 8194; 8195; 8196; 8197;
     8198; 8199; 8200; 8201; 8202; 8232; 8233; 8239; 8287; 12288; 65279].

Fixpoint dropWhile (p : N -> bool) (s : jsstring) : jsstring :=
  match s with
  | [] => []
  | c :: s' => if p c then dropWhile p s' else s
  end.

Fixpoint takeWhile (p : N -> bool) (s : jsstring) : jsstring :=
  match s with
  | [] => []
  | c :: s' => if p c then c :: takeWhile p s' else []
  end.

Definition trimStart (s : jsstring) : jsstring := dropWhile isSpace s.
Definition trimEnd (s : jsstring) : jsstring := rev (dropWhile isSpace (rev s)).

(** [s.trim()] *)
Definition trim (s : jsstring) : jsstring := trimEnd (trimStart s).

Fixpoint eqb (a b : jsstring) : bool :=
  match a, b with
  | [], [] => true
  | x :: a', y :: b' => N.eqb x y && eqb a' b'
  | _, _ => false
  end.

(** [s.startsWith(p)] *)
Fixpoint startsWith (s p : jsstring) : bool :=
  match p, s with
  | [], _ => true
  | x :: p', y :: s' => N.eqb x y && startsWith s' p'
  | _ :: _, [] => false
  end.

(** [s.endsWith(p)] *)
Definition endsWith (s p : jsstring) : bool := startsWith (rev s) (rev p).

(** [s.includes(c)] for a one-character needle. *)
Definition includes (s : jsstring) (c : N) : bool := existsb (N.eqb c) s.

(** [s.substring(n)] for a constant [n >= 0]. *)
Definition substring (n : nat) (s : jsstring) : jsstring := drop n s.

(** [s.slice(a, -b)] for constants [a, b >= 0]: from index [a] up to
    [length - b], empty when the two cross. *)
Definition slice (a b : nat) (s : jsstring) : jsstring :=
  take (length s - b - a) (drop a s).

Definition consHead (c : N) (ps : list jsstring) : list jsstring :=
  match ps with
  | [] => [[c]]
  | p :: ps' => (c :: p) :: ps'
  end.

(** [s.split(sep)] for a one-character separator; the empty string gives
    one empty piece. *)
Fixpoint split (sep : N) (s : jsstring) : list jsstring :=
  match s with
  | [] => [[]]
  | c :: s' => if N.eqb c sep then [] :: split sep s' else consHead c (split sep s')
  end.

(** [s.split(/\s+/)]: the pieces between maximal runs of white space.  The
    flag records that the previous character already belonged to the
    current separator. *)
Fixpoint splitSpacesAux (inSep : bool) (s : jsstring) : list jsstring :=
  match s with
  | [] => [[]]
  | c :: s' =>
      if isSpace c
      then (if inSep then splitSpacesAux true s' else [] :: splitSpacesAux true s')
      else consHead c (splitSpacesAux false s')
  end.

Definition splitSpaces (s : jsstring) : list jsstring := splitSpacesAux false s.

Definition nonEmpty (s : jsstring) : bool :=
  match s with [] => false | _ => true end.

End JS.

Import JS.

(** ** The notation-line splitter ([VnaParser.parseNotationLine]) *)

Record NotationLine := {
  tokens : list jsstring;
  beatPositions : list nat
}.

(** Mutable locals of [parseNotationLine] threaded through [beats.forEach]. *)
Record SplitState := {
  ss_tokens : list jsstring;
  ss_beatPositions : list nat;
  ss_currentPos : nat
}.

Definition bar : N := 124.

(** One call of the [forEach] callback on beat [beat] at index [i]. *)
Definition beatStep (nbeats : nat) (st : SplitState) (i : nat) (beat : jsstring)
  : SplitState :=
  let beatTokens := List.filter nonEmpty (splitSpaces (trim beat)) in
  let pos := (ss_currentPos st + length beatTokens)%nat in
  {| ss_tokens := ss_tokens st ++ beatTokens;
     ss_beatPositions :=
       if Nat.ltb i (nbeats - 1) && Nat.ltb 0 pos
       then ss_beatPositions st ++ [pos]
       else ss_beatPositions st;
     ss_currentPos := pos |}.

Fixpoint forEachBeat (nbeats : nat) (st : SplitState) (i : nat) (beats : list jsstring)
  : SplitState :=
  match beats with
  | [] => st
  | beat :: rest => forEachBeat nbeats (beatStep nbeats st i beat) (S i) rest
  end.

Definition cleanLine (line : jsstring) : jsstring :=
  if endsWith line [bar; bar] then trim (slice 0 2 line) else trim line.

Definition parseNotationLine (line : jsstring) : NotationLine :=
  let beats := split bar (cleanLine line) in
  let st := forEachBeat (length beats)
              {| ss_tokens := []; ss_beatPositions := []; ss_currentPos := 0 |}
              0 beats in
  {| tokens := ss_tokens st; beatPositions := ss_beatPositions st |}.

(** ** Numbers and the metadata object *)

(** What [parseInt] returns.  [Num z] stands for the double nearest to [z];
    every comparison made below is insensitive to that rounding. *)
Inductive jsnum := NaN | Num (z : Z).

(** JavaScript truthiness of a number: [NaN] and zero are falsy. *)
Definition truthyNum (n : jsnum) : bool :=
  match n with
  | NaN => false
  | Num z => negb (Z.eqb z 0)
  end.

Definition isDigit (c : N) : bool := N.leb 48 c && N.leb c 57.

Definition digitsValue (ds : jsstring) : Z :=
  fold_left (fun acc d => (10 * acc + (Z.of_N d - 48))%Z) ds 0%Z.

(** [parseInt(s, 10)]: leading white space, an optional sign, then the
    longest prefix of decimal digits; [NaN] when that prefix is empty. *)
Definition parseInt10 (s : jsstring) : jsnum :=
  let s1 := trimStart s in
  let '(neg, s2) :=
    match s1 with
    | c :: r => if N.eqb c 45 then (true, r)
                else if N.eqb c 43 then (false, r) else (false, s1)
    | [] => (false, s1)
    end in
  match takeWhile isDigit s2 with
  | [] => NaN
  | ds => Num (if neg then - digitsValue ds else digitsValue ds)
  end.

Inductive MetaValue :=
| VString (s : jsstring)
| VNumber (n : jsnum).

(** [!v] for a property that may be absent. *)
Definition falsy (v : option MetaValue) : bool :=
  match v with
  | None => true
  | Some (VString s) => negb (nonEmpty s)
  | Some (VNumber n) => negb (truthyNum n)
  end.

Definition isWordChar (c : N) : bool :=
  isDigit c || (N.leb 65 c && N.leb c 90) || (N.leb 97 c && N.leb c 122) || N.eqb c 95.

Definition quote : N := 34.
Definition notQuote (c : N) : bool := negb (N.eqb c quote).

(** [line.match(re)] for the frontmatter pattern of [parseMetadata]: at the
    start one or more word characters (the key), a colon, any white space,
    an optional double quote, any characters other than a double quote (the
    value), an optional double quote, the end.  All quantifiers are greedy and
    no shorter choice can succeed where the longest fails: the key is the
    longest run of word characters and must be followed by a colon; after
    the white space one opening quote is dropped when present; the value is
    the longest run without a quote, after which only one closing quote may
    remain.  The result is the pair of captures. *)
Definition matchYamlLine (line : jsstring) : option (jsstring * jsstring) :=
  match takeWhile isWordChar line, dropWhile isWordChar line with
  | (_ :: _) as key, c :: rest =>
      if N.eqb c 58 then
        let r1 := dropWhile isSpace rest in
        let r2 := match r1 with
                  | q :: r => if N.eqb q quote then r else r1
                  | [] => r1
                  end in
        match dropWhile notQuote r2 with
        | [] => Some (key, takeWhile notQuote r2)
        | [q] => if N.eqb q quote then Some (key, takeWhile notQuote r2) else None
        | _ => None
        end
      else None
  | _, _ => None
  end.

Definition k_title : jsstring := str "title".
Definition k_raga : jsstring := str "raga".
Definition k_tala : jsstring := str "tala".
Definition k_tempo : jsstring := str "tempo".
Definition k_gati : jsstring := str "gati".

(** [metadata[key] = v] on an object literal [{}]: every key becomes an own
    property except [__proto__], whose setter ignores a primitive. *)
Definition setProperty (m : gmap jsstring MetaValue) (key : jsstring) (v : MetaValue)
  : gmap jsstring MetaValue :=
  if eqb key (str "__proto__") then m else <[key := v]> m.

(** The body of the loop over [yamlLines] in [parseMetadata]. *)
Definition applyYamlLine (m : gmap jsstring MetaValue) (line : jsstring)
  : gmap jsstring MetaValue :=
  match matchYamlLine line with
  | Some (key, value) =>
      if eqb key k_tempo || eqb key k_gati
      then setProperty m key (VNumber (parseInt10 value))
      else setProperty m key (VString value)
  | None => m
  end.

(** ** Documents and diagnostics *)

Record Phrase := {
  swaras : list jsstring;
  sahitya : list jsstring;
  phrase_analysis : option jsstring;
  phrase_line_number : nat;
  beat_positions : list nat;
  phrase_gati : option jsnum
}.

Record Section_ := {
  name : jsstring;
  phrases : list Phrase;
  section_line_number : nat;
  section_gati : option jsnum
}.

Record VnaDocument := {
  metadata : gmap jsstring MetaValue;
  sections : list Section_
}.

Inductive Severity := error | warning | info.

(** The texts of thrown [Error]s and of diagnostics, one constructor per
    template literal of the source; [renderMessage] gives the text. *)
Inductive Message :=
| MissingFrontmatter
| MissingRequiredFields
| UnexpectedContent (line : nat)
| UnexpectedContentInSection (line : nat)
| BeatMarkersMisaligned (line : nat)
| UnusualTempo (tempo : Z)
| UnusualGati (gati : Z)
| TokenCountMismatch (nswaras nsahitya : nat)
| TokenLengthMismatch (position : nat) (swara : jsstring) (swaraLen : nat)
    (sahityaTok : jsstring) (sahityaLen : nat).

Definition showZ (z : Z) : jsstring :=
  if Z.ltb z 0 then 45 :: showNat (Z.to_nat (- z)) else showNat (Z.to_nat z).

(** [`${n}`] for a number [Num z] of the program.  Up to a magnitude of
    [2^53] the double is the integer itself and prints as its decimal
    digits.  Beyond that the program holds and prints the nearest double,
    which need not be [z]; that text is not modelled and the result is
    [None]. *)
Definition showNumber (z : Z) : option jsstring :=
  if Z.leb (Z.abs z) (2 ^ 53) then Some (showZ z) else None.

(** The text of a message; line numbers, counts and lengths are small
    integers and print in plain decimal. *)
Definition renderMessage (m : Message) : option jsstring :=
  match m with
  | MissingFrontmatter => Some (str "Missing YAML frontmatter")
  | MissingRequiredFields => Some (str "Missing required metadata fields")
  | UnexpectedContent n => Some (str "Unexpected content at line " ++ showNat n)
  | UnexpectedContentInSection n =>
      Some (str "Unexpected content in section at line " ++ showNat n)
  | BeatMarkersMisaligned n => Some (str "Beat markers misaligned at line " ++ showNat n)
  | UnusualTempo t =>
      option_map
        (fun digits => str "Unusual tempo: " ++ digits ++ str " BPM (typical range: 20-300)")
        (showNumber t)
  | UnusualGati g =>
      option_map
        (fun digits =>
           str "Unusual gati value: " ++ digits ++ str " (typical values: 3, 4, 5, 7, 9)")
        (showNumber g)
  | TokenCountMismatch a b =>
      Some (str "Token count mismatch: " ++ showNat a ++ str " swaras vs " ++ showNat b
              ++ str " sahitya")
  | TokenLengthMismatch i sw swl sa sal =>
      Some (str "Token length mismatch at position " ++ showNat i ++ str ": " ++ [quote]
              ++ sw ++ [quote] ++ str " (" ++ showNat swl ++ str ") vs " ++ [quote]
              ++ sa ++ [quote] ++ str " (" ++ showNat sal ++ str ")")
  end.

Record ValidationIssue := {
  severity : Severity;
  message : Message;
  line : nat
}.

(** ** The parser object and its cursor *)

(** The two instance fields of [VnaParser]. *)
Record ParserState := {
  lines : list jsstring;
  currentLine : nat
}.

(** How a method call ends: it returns, it throws an [Error] (the state at
    that moment is kept, [validate] reads the cursor in its [catch]), or the
    iteration bound of a loop ran out. *)
Inductive Outcome (A : Type) :=
| Returned (a : A) (st : ParserState)
| Thrown (e : Message) (st : ParserState)
| Unfinished.

Arguments Returned {A} a st.
Arguments Thrown {A} e st.
Arguments Unfinished {A}.

Definition Parser (A : Type) := ParserState -> Outcome A.

Definition ret {A} (a : A) : Parser A := fun st => Returned a st.

Definition bind {A B} (c : Parser A) (k : A -> Parser B) : Parser B :=
  fun st =>
    match c st with
    | Returned a st' => k a st'
    | Thrown e st' => Thrown e st'
    | Unfinished => Unfinished
    end.

Definition throw {A} (e : Message) : Parser A := fun st => Thrown e st.

Notation "'let!' x ':=' c 'in' k" := (bind c (fun x => k))
  (at level 10, x name, c at level 100, k at level 200).

Definition getCurrentLine : Parser nat := fun st => Returned (currentLine st) st.

(** The loop condition [this.currentLine < this.lines.length]. *)
Definition inRange : Parser bool :=
  fun st => Returned (Nat.ltb (currentLine st) (length (lines st))) st.

(** [this.lines[this.currentLine]], read only under [inRange]. *)
Definition rawLine : Parser jsstring :=
  fun st => Returned (default [] (lines st !! currentLine st)) st.

Definition currentLineTrimmed : Parser jsstring :=
  fun st =>
    Returned (if Nat.ltb (currentLine st) (length (lines st))
              then trim (default [] (lines st !! currentLine st))
              else []) st.

Definition currentLineStartsWith (prefix : jsstring) : Parser bool :=
  let! l := currentLineTrimmed in ret (startsWith l prefix).

Definition advanceLine : Parser unit :=
  fun st => Returned tt {| lines := lines st; currentLine := S (currentLine st) |}.

(** Every loop of the parser moves the cursor forward in each iteration that
    does not leave it, so it runs at most [lines.length - currentLine + 1]
    times; the loops recurse on that bound. *)
Definition bounded {A} (loop : nat -> Parser A) : Parser A :=
  fun st => loop (S (length (lines st) - currentLine st)) st.

Definition delimiter : jsstring := str "---".
Definition gatiMarker : jsstring := str "@gati:".
Definition analysisMarker : jsstring := str "phrases = ".
Definition hash : N := 35.
Definition lbracket : N := 91.
Definition rbracket : N := 93.

(** *** [parseMetadata] *)

Fixpoint readYamlLines (fuel : nat) (yamlLines : list jsstring) : Parser (list jsstring) :=
  match fuel with
  | O => fun _ => Unfinished
  | S fuel' =>
      let! more := inRange in
      if more then
        let! l := rawLine in
        if eqb (trim l) delimiter
        then (let! _ := advanceLine in ret yamlLines)
        else (let! _ := advanceLine in readYamlLines fuel' (yamlLines ++ [l]))
      else ret yamlLines
  end.

Definition requiredMissing (m : gmap jsstring MetaValue) : bool :=
  falsy (m !! k_title) || falsy (m !! k_raga) || falsy (m !! k_tala).

Definition parseMetadata : Parser (gmap jsstring MetaValue) :=
  let! opened := currentLineStartsWith delimiter in
  if negb opened then throw MissingFrontmatter
  else
    let! _ := advanceLine in
    let! yamlLines := bounded (fun fuel => readYamlLines fuel []) in
    let m := foldl applyYamlLine ∅ yamlLines in
    if requiredMissing m then throw MissingRequiredFields else ret m.

(** *** [parseNotationLine] on the cursor, [parsePhrase] *)

Definition isHeader (l : jsstring) : bool :=
  startsWith l [lbracket] && endsWith l [rbracket].

Definition parsePhrase : Parser Phrase :=
  let! phraseStartLine := getCurrentLine in
  let! l0 := currentLineTrimmed in
  let! lineGati :=
    (if startsWith l0 gatiMarker
     then (let! _ := advanceLine in
           ret (Some (parseInt10 (trim (substring 6 l0)))))
     else ret None) in
  let! swaraLine := currentLineTrimmed in
  let sw := parseNotationLine swaraLine in
  let! _ := advanceLine in
  let! sahityaLine := currentLineTrimmed in
  let sa := parseNotationLine sahityaLine in
  let! _ := advanceLine in
  (* the two [JSON.stringify] texts differ exactly when the lists do *)
  if negb (bool_decide (beatPositions sw = beatPositions sa))
  then throw (BeatMarkersMisaligned (phraseStartLine + 1))
  else
    let! l3 := currentLineTrimmed in
    let! phraseAnalysis :=
      (if startsWith l3 analysisMarker
       then (let! _ := advanceLine in ret (Some (substring 10 l3)))
       else ret None) in
    ret {| swaras := tokens sw;
           sahitya := tokens sa;
           phrase_analysis := phraseAnalysis;
           phrase_line_number := phraseStartLine + 1;
           beat_positions := beatPositions sw;
           phrase_gati := lineGati |}.

(** *** [parseSection] *)

Fixpoint parseSectionLoop (fuel : nat) (phrases : list Phrase) (sectionGati : option jsnum)
  : Parser (list Phrase * option jsnum) :=
  match fuel with
  | O => fun _ => Unfinished
  | S fuel' =>
      let! more := inRange in
      if more then
        let! l := currentLineTrimmed in
        if eqb l [] then
          let! _ := advanceLine in parseSectionLoop fuel' phrases sectionGati
        else if startsWith l [hash] then
          let! _ := advanceLine in parseSectionLoop fuel' phrases sectionGati
        else if startsWith l gatiMarker then
          let! _ := advanceLine in
          parseSectionLoop fuel' phrases (Some (parseInt10 (trim (substring 6 l))))
        else if isHeader l then ret (phrases, sectionGati)
        else if includes l bar then
          let! phrase := parsePhrase in
          parseSectionLoop fuel' (phrases ++ [phrase]) sectionGati
        else
          let! n := getCurrentLine in throw (UnexpectedContentInSection (n + 1))
      else ret (phrases, sectionGati)
  end.

Definition parseSection : Parser Section_ :=
  let! l := currentLineTrimmed in
  let! sectionLine := getCurrentLine in
  let name := slice 1 1 l in
  let! _ := advanceLine in
  let! body := bounded (fun fuel => parseSectionLoop fuel [] None) in
  ret {| name := name;
         phrases := fst body;
         section_line_number := sectionLine + 1;
         section_gati := snd body |}.

(** *** [parseSections] and [parse] *)

Fixpoint parseSectionsLoop (fuel : nat) (sections : list Section_) : Parser (list Section_) :=
  match fuel with
  | O => fun _ => Unfinished
  | S fuel' =>
      let! more := inRange in
      if more then
        let! l := currentLineTrimmed in
        if isHeader l then
          let! section := parseSection in
          parseSectionsLoop fuel' (sections ++ [section])
        else if nonEmpty (trim l) && negb (startsWith l [hash]) then
          let! n := getCurrentLine in throw (UnexpectedContent (n + 1))
        else
          let! _ := advanceLine in parseSectionsLoop fuel' sections
      else ret sections
  end.

Definition parseSections : Parser (list Section_) :=
  bounded (fun fuel => parseSectionsLoop fuel []).

Definition newline : N := 10.

(** Assignments to the two instance fields. *)
Definition setLines (ls : list jsstring) : Parser unit :=
  fun st => Returned tt {| lines := ls; currentLine := currentLine st |}.

Definition setCurrentLine (n : nat) : Parser unit :=
  fun st => Returned tt {| lines := lines st; currentLine := n |}.

(** [parse(content)], run on the parser object in whatever state an earlier
    call left it. *)
Definition parse (content : jsstring) : Parser VnaDocument :=
  let! _ := setLines (split newline content) in
  let! _ := setCurrentLine 0 in
  let! metadata := parseMetadata in
  let! sections := parseSections in
  ret {| metadata := metadata; sections := sections |}.

(** The state of a freshly constructed [VnaParser]. *)
Definition newParser : ParserState := {| lines := []; currentLine := 0 |}.

(** ** [validate] *)

(** [metadata.tempo] or [metadata.gati] when it is truthy.  The interface
    types the two fields as numbers and [parseMetadata] stores nothing but
    the result of [parseInt] under these keys. *)
Definition numberField (m : gmap jsstring MetaValue) (key : jsstring) : option Z :=
  match m !! key with
  | Some (VNumber (Num z)) => if Z.eqb z 0 then None else Some z
  | _ => None
  end.

Definition push (issues : list ValidationIssue) (sev : Severity) (msg : Message) (ln : nat)
  : list ValidationIssue :=
  issues ++ [{| severity := sev; message := msg; line := ln |}].

Definition checkTempo (m : gmap jsstring MetaValue) (issues : list ValidationIssue)
  : list ValidationIssue :=
  match numberField m k_tempo with
  | Some t => if Z.ltb t 20 || Z.ltb 300 t
              then push issues warning (UnusualTempo t) 1 else issues
  | None => issues
  end.

Definition usualGati (g : Z) : bool :=
  existsb (Z.eqb g) [3; 4; 5; 7; 9]%Z.

Definition checkGati (m : gmap jsstring MetaValue) (issues : list ValidationIssue)
  : list ValidationIssue :=
  match numberField m k_gati with
  | Some g => if negb (usualGati g) then push issues warning (UnusualGati g) 1 else issues
  | None => issues
  end.

(** The body of the inner [for] loop at index [i]. *)
Definition checkTokenLength (p : Phrase) (issues : list ValidationIssue) (i : nat)
  : list ValidationIssue :=
  let sw := default [] (swaras p !! i) in
  let sa := default [] (sahitya p !! i) in
  let swaraLen := length sw in
  let sahityaLen := length sa in
  if negb (Nat.eqb swaraLen sahityaLen)
  then push issues error (TokenLengthMismatch (i + 1) sw swaraLen sa sahityaLen)
            (phrase_line_number p + 1)
  else issues.

(** The body of the loop over the phrases of a section. *)
Definition validatePhrase (issues : list ValidationIssue) (p : Phrase)
  : list ValidationIssue :=
  if negb (Nat.eqb (length (swaras p)) (length (sahitya p)))
  then push issues error (TokenCountMismatch (length (swaras p)) (length (sahitya p)))
            (phrase_line_number p)
  else foldl (checkTokenLength p) issues (seq 0 (length (swaras p))).

Definition validateSection (issues : list ValidationIssue) (s : Section_)
  : list ValidationIssue :=
  foldl validatePhrase issues (phrases s).

(** The [try] block of [validate] after [parse] has returned. *)
Definition validateDocument (d : VnaDocument) : list ValidationIssue :=
  foldl validateSection (checkGati (metadata d) (checkTempo (metadata d) [])) (sections d).

Definition validate (content : jsstring) : Parser (list ValidationIssue) :=
  fun st0 =>
    match parse content st0 with
    | Returned document st => Returned (validateDocument document) st
    | Thrown e st => Returned (push [] error e (currentLine st + 1)) st
    | Unfinished => Unfinished
    end.

(** ** Effective gati of a phrase *)

(** [documentGati] as the renderer receives it: the metadata value, and 4
    when the metadata has none. *)
Definition documentGati (d : VnaDocument) : jsnum :=
  match metadata d !! k_gati with
  | Some (VNumber n) => n
  | _ => Num 4
  end.

(** [a || b] on numbers, [a] possibly absent. *)
Definition orElse (o : option jsnum) (fallback : jsnum) : jsnum :=
  match o with
  | Some g => if truthyNum g then g else fallback
  | None => fallback
  end.

(** Modelled from the spec: the gati resolver for the documents of
    [VnaParser], which the sources do not have.  The cascade is line over
    section over document.  It is the expression the staff renderer applies
    to the documents of the other parsers,
    [phrase.gati || (sectionGati ? sectionGati : documentGati)], read on the
    [gati] fields that [parseSection] and [parsePhrase] fill in. *)
Definition effectiveGati (d : VnaDocument) (s : Section_) (p : Phrase) : jsnum :=
  orElse (phrase_gati p) (orElse (section_gati s) (documentGati d)).

(** ** The swara tokenizer ([VNAParser.parseSwaraLine], one raw token) *)

Module Swara.

Inductive OctaveMarker := Lower2 | Lower1 | Upper1 | Upper2.

(** The object pushed for one unit; an absent flag reads as [false]. *)
Record ParsedSwara := {
  swara : N;
  variant : option N;
  octave : option OctaveMarker;
  isRest : bool;
  isSustain : bool
}.

Definition dash : N := 45.
Definition comma : N := 44.
Definition dot : N := 46.
Definition apostrophe : N := 39.
Definition letterS : N := 83.

Definition restUnit : ParsedSwara :=
  {| swara := dash; variant := None; octave := None; isRest := true; isSustain := false |}.

Definition sustainUnit : ParsedSwara :=
  {| swara := letterS; variant := None; octave := None; isRest := false; isSustain := true |}.

Definition noteUnit (c : N) (v : option N) (o : option OctaveMarker) : ParsedSwara :=
  {| swara := c; variant := v; octave := o; isRest := false; isSustain := false |}.

(** [['S','R','G','M','P','D','N'].includes(char)] *)
Definition isSwaraLetter (c : N) : bool :=
  existsb (N.eqb c) [83; 82; 71; 77; 80; 68; 78].

(** [['1','2','3'].includes(c)] *)
Definition isVariantDigit (c : N) : bool :=
  existsb (N.eqb c) [49; 50; 51].

(** The number of iterations of
    [while (i + 1 < token.length && token[i + 1] === marker) { octaveCount++; i++; }]
    when [s] is the part of the token from index [i + 1] on. *)
Fixpoint runLength (marker : N) (s : jsstring) : nat :=
  match s with
  | c :: s' => if N.eqb c marker then S (runLength marker s') else O
  | [] => O
  end.

(** The octave a note ends up with after [dots] lower markers and then
    [quotes] upper markers were counted into the one [octaveCount]. *)
Definition octaveOf (dots quotes : nat) : option OctaveMarker :=
  match dots with
  | 1%nat => Some Lower1
  | 2%nat => Some Lower2
  | _ => match (dots + quotes)%nat with
         | 1%nat => Some Upper1
         | 2%nat => Some Upper2
         | _ => None
         end
  end.

(** The [while (i < token.length)] loop; [None] when the bound runs out. *)
Fixpoint scan (fuel : nat) (token : jsstring) (i : nat) (swaras : list ParsedSwara)
  : option (list ParsedSwara) :=
  match fuel with
  | O => None
  | S fuel' =>
      match token !! i with
      | None => Some swaras
      | Some char =>
          if N.eqb char comma then scan fuel' token (S i) (swaras ++ [sustainUnit])
          else if N.eqb char dash then scan fuel' token (S i) (swaras ++ [restUnit])
          else if isSwaraLetter char then
            let '(v, i1) :=
              match token !! (i + 1)%nat with
              | Some d => if isVariantDigit d then (Some d, (i + 1)%nat) else (None, i)
              | None => (None, i)
              end in
            let dots := runLength dot (drop (i1 + 1) token) in
            let i2 := (i1 + dots)%nat in
            let quotes :=
              match dots with
              | 1%nat | 2%nat => O
              | _ => runLength apostrophe (drop (i2 + 1) token)
              end in
            let i3 := (i2 + quotes)%nat in
            scan fuel' token (S i3) (swaras ++ [noteUnit char v (octaveOf dots quotes)])
          else scan fuel' token (S i) swaras
      end
  end.

Definition parseSwaraLine (token : jsstring) : option (list ParsedSwara) :=
  if eqb token [dash] then Some [restUnit]
  else if eqb token [comma] then Some [sustainUnit]
  else scan (S (length token)) token 0 [].

(** *** The tokenizer as the specification words it *)

(** The tagged note of the data model; the octave is a signed count. *)
Inductive ParsedNote :=
| Natural (letter : N) (variant : option N) (octave : Z)
| Rest
| Sustain.

Definition octaveValue (o : option OctaveMarker) : Z :=
  match o with
  | Some Lower2 => -2
  | Some Lower1 => -1
  | None => 0
  | Some Upper1 => 1
  | Some Upper2 => 2
  end.

Definition toNote (u : ParsedSwara) : ParsedNote :=
  if isRest u then Rest
  else if isSustain u then Sustain
  else Natural (swara u) (variant u) (octaveValue (octave u)).

(** After a letter: one digit of 1, 2, 3 when it is there. *)
Definition takeVariant (s : jsstring) : option N * jsstring :=
  match s with
  | d :: s' => if isVariantDigit d then (Some d, s') else (None, s)
  | [] => (None, s)
  end.

(** After the variant: a run of one or two lower markers, else a run of
    one or two upper markers, else nothing.  A run is the whole sequence of
    one marker that follows; a longer run is no octave and is left to the
    scan, which skips what it does not recognise. *)
Definition takeOctave (s : jsstring) : Z * jsstring :=
  match runLength dot s with
  | 1%nat => ((-1)%Z, drop 1 s)
  | 2%nat => ((-2)%Z, drop 2 s)
  | _ => match runLength apostrophe s with
         | 1%nat => (1%Z, drop 1 s)
         | 2%nat => (2%Z, drop 2 s)
         | _ => (0%Z, s)
         end
  end.

(** The left-to-right scan of the specification: a rest for a dash, a
    sustain for a comma, a note for a letter with its variant and octave
    markers, any other character skipped. *)
Fixpoint specScan (fuel : nat) (s : jsstring) : list ParsedNote :=
  match fuel with
  | O => []
  | S fuel' =>
      match s with
      | [] => []
      | c :: r =>
          if N.eqb c dash then Rest :: specScan fuel' r
          else if N.eqb c comma then Sustain :: specScan fuel' r
          else if isSwaraLetter c then
            let '(v, r1) := takeVariant r in
            let '(o, r2) := takeOctave r1 in
            Natural c v o :: specScan fuel' r2
          else specScan fuel' r
      end
  end.

Definition specTokenize (token : jsstring) : list ParsedNote :=
  specScan (length token) token.

(** *** What the loop does, as a relation on the rest of the token

    A note takes its letter, the variant digit, the whole run of [d] lower
    markers and, unless [d] is 1 or 2, the whole run of [q] upper markers
    that follows. *)
Inductive Tokenizes : jsstring -> list ParsedSwara -> Prop :=
| T_end : Tokenizes [] []
| T_rest s out :
    Tokenizes s out -> Tokenizes (dash :: s) (restUnit :: out)
| T_sustain s out :
    Tokenizes s out -> Tokenizes (comma :: s) (sustainUnit :: out)
| T_note c s v s1 d q s3 out :
    isSwaraLetter c = true ->
    takeVariant s = (v, s1) ->
    s1 = repeat dot d ++ repeat apostrophe q ++ s3 ->
    head (repeat apostrophe q ++ s3) <> Some dot ->
    (d = 1%nat \/ d = 2%nat -> q = O) ->
    (~ (d = 1%nat \/ d = 2%nat) -> head s3 <> Some apostrophe) ->
    Tokenizes s3 out ->
    Tokenizes (c :: s) (noteUnit c v (octaveOf d q) :: out)
| T_skip c s out :
    c <> dash -> c <> comma -> isSwaraLetter c = false ->
    Tokenizes s out -> Tokenizes (c :: s) out.

Definition countIf (p : N -> bool) (s : jsstring) : nat :=
  length (List.filter p s).

Definition isDash (c : N) : bool := N.eqb c dash.
Definition isComma (c : N) : bool := N.eqb c comma.

(** A unit that is neither a rest nor a sustain. *)
Definition isNote (u : ParsedSwara) : bool := negb (isRest u) && negb (isSustain u).

(** A class of characters that the variant digits and the octave markers
    do not belong to. *)
Definition unitStarter (p : N -> bool) : Prop :=
  p dot = false /\ p apostrophe = false /\ forall d, isVariantDigit d = true -> p d = false.

End Swara.

(** ** The lyric tokenizer of the specification *)

Module Sahitya.

Record SyllableUnit := {
  text : jsstring;
  isContinuation : bool
}.

Definition backtick : N := 96.
Definition dash : N := 45.

Definition plain (c : N) : bool := negb (N.eqb c backtick) && negb (N.eqb c dash).

Definition textUnit (pending : jsstring) : list SyllableUnit :=
  match pending with
  | [] => []
  | _ => [{| text := pending; isContinuation := false |}]
  end.

(** Modelled from the spec: the lyric tokenizer, of which the sources have
    no implementation.  A boundary marker ends the unit before it, every
    dash is a continuation unit of its own, and a run of other characters is
    one unit, which covers the fallback for a token without markers (the
    letter run first, then one unit per trailing dash). *)
Fixpoint unitsFrom (pending : jsstring) (s : jsstring) : list SyllableUnit :=
  match s with
  | [] => textUnit pending
  | c :: s' =>
      if N.eqb c backtick then textUnit pending ++ unitsFrom [] s'
      else if N.eqb c dash then
        textUnit pending ++ {| text := [dash]; isContinuation := true |} :: unitsFrom [] s'
      else unitsFrom (pending ++ [c]) s'
  end.

Definition tokenize (token : jsstring) : list SyllableUnit := unitsFrom [] token.

Definition unitCount (token : jsstring) : nat := length (tokenize token).

End Sahitya.

(** ** The frontmatter reader of the older parser
    ([VNAParser.parseMetadata] of [lib/vna-parser.ts]) *)

Module Legacy.

Inductive LegacyError :=
| MissingMetadataSection    (* Invalid VNA file: missing metadata section *)
| MissingRequiredMetadata.  (* Invalid VNA file: missing required metadata fields *)

(** [lines.findIndex((line, idx) => p(idx, line))]: the first index that
    satisfies [p], or [-1]. *)
Fixpoint findIndexFrom (p : Z -> jsstring -> bool) (idx : Z) (ls : list jsstring) : Z :=
  match ls with
  | [] => (-1)%Z
  | l :: rest => if p idx l then idx else findIndexFrom p (idx + 1)%Z rest
  end.

Definition findIndex (p : Z -> jsstring -> bool) (ls : list jsstring) : Z :=
  findIndexFrom p 0%Z ls.

(** The characters the dot of a regular expression does not match. *)
Definition isLineTerminator (c : N) : bool :=
  existsb (N.eqb c) [10; 13; 8232; 8233].

(** The lazy group of one or more characters followed by an optional quote
    and the end, matched against [r]: the shortest choice leaves a final
    quote outside the value when something stands before it. *)
Definition captureValue (r : jsstring) : option jsstring :=
  if existsb isLineTerminator r then None
  else match r with
       | [] => None
       | [_] => Some r
       | _ => if N.eqb (List.last r 0) quote then Some (removelast r) else Some r
       end.

(** The optional opening quote, tried with the quote taken first. *)
Definition attempt (rest : jsstring) : option jsstring :=
  match rest with
  | q :: r =>
      if N.eqb q quote
      then match captureValue r with
           | Some v => Some v
           | None => captureValue rest
           end
      else captureValue rest
  | [] => None
  end.

(** The greedy white space after the colon: all of it first, then one
    character less at a time. *)
Fixpoint backtrackSpaces (r : jsstring) (n : nat) : option jsstring :=
  match attempt (drop n r) with
  | Some v => Some v
  | None => match n with
            | O => None
            | S n' => backtrackSpaces r n'
            end
  end.

(** [line.match(re)] for the pattern of this parser, which differs from the
    one of [VnaParser] in its value group: one or more characters, matched
    lazily, none of them a line terminator. *)
Definition matchLine (line : jsstring) : option (jsstring * jsstring) :=
  match takeWhile isWordChar line, dropWhile isWordChar line with
  | (_ :: _) as key, c :: rest =>
      if N.eqb c 58
      then option_map (pair key) (backtrackSpaces rest (length (takeWhile isSpace rest)))
      else None
  | _, _ => None
  end.

Definition hexValue (c : N) : option Z :=
  if isDigit c then Some (Z.of_N c - 48)%Z
  else if N.leb 97 c && N.leb c 102 then Some (Z.of_N c - 87)%Z
  else if N.leb 65 c && N.leb c 70 then Some (Z.of_N c - 55)%Z
  else None.

Definition isHexDigit (c : N) : bool :=
  match hexValue c with Some _ => true | None => false end.

Definition hexDigitsValue (ds : jsstring) : Z :=
  fold_left (fun acc d => (16 * acc + default 0 (hexValue d))%Z) ds 0%Z.

(** [parseInt(s)] without a radix: as [parseInt(s, 10)] except that a
    prefix [0x] or [0X] switches to hexadecimal digits. *)
Definition parseIntAuto (s : jsstring) : jsnum :=
  let s1 := trimStart s in
  let '(neg, s2) :=
    match s1 with
    | c :: r => if N.eqb c 45 then (true, r)
                else if N.eqb c 43 then (false, r) else (false, s1)
    | [] => (false, s1)
    end in
  let sign := fun z : Z => if neg then (- z)%Z else z in
  match s2 with
  | z :: x :: r =>
      if N.eqb z 48 && (N.eqb x 120 || N.eqb x 88)
      then match takeWhile isHexDigit r with
           | [] => NaN
           | ds => Num (sign (hexDigitsValue ds))
           end
      else match takeWhile isDigit s2 with
           | [] => NaN
           | ds => Num (sign (digitsValue ds))
           end
  | _ => match takeWhile isDigit s2 with
         | [] => NaN
         | ds => Num (sign (digitsValue ds))
         end
  end.

Definition applyLine (m : gmap jsstring MetaValue) (line : jsstring)
  : gmap jsstring MetaValue :=
  match matchLine line with
  | Some (key, value) =>
      setProperty m key
        (if eqb key k_tempo then VNumber (parseIntAuto value) else VString value)
  | None => m
  end.

Definition isDelimiter (l : jsstring) : bool := eqb (trim l) delimiter.

Definition parseMetadata (lines : list jsstring)
  : LegacyError + gmap jsstring MetaValue :=
  let startIdx := findIndex (fun _ l => isDelimiter l) lines in
  let endIdx := findIndex (fun idx l => Z.ltb startIdx idx && isDelimiter l) lines in
  if Z.eqb startIdx (-1) || Z.eqb endIdx (-1) then inl MissingMetadataSection
  else
    (* [lines.slice(startIdx + 1, endIdx)], both indices being in range *)
    let metadataLines :=
      take (Z.to_nat (endIdx - (startIdx + 1))) (drop (Z.to_nat (startIdx + 1)) lines) in
    let m := foldl applyLine ∅ metadataLines in
    if requiredMissing m then inl MissingRequiredMetadata else inr m.

End Legacy.

(** ** Sample inputs *)

Module Samples.

Definition unlines (ls : list jsstring) : jsstring :=
  match ls with
  | [] => []
  | l :: rest => l ++ concat (map (fun x => newline :: x) rest)
  end.

Definition quoted (s : string) : jsstring := [quote] ++ str s ++ [quote].

Definition frontmatter : list jsstring :=
  [ str "---";
    str "title: " ++ quoted "Test";
    str "raga: " ++ quoted "mohanam";
    str "tala: " ++ quoted "adi";
    str "---" ].

(** The scenario of the specification; the long o is the single code unit
    U+014D. *)
Definition scenario : jsstring :=
  unlines (frontmatter ++
    [ str "[pallavi]";
      str "G,G, R,,, | SSRR GGRR ||";
      str "ninn uk" ++ [333] ++ str "- | ri-- ---- ||" ]).

(** A first phrase whose beat markers disagree, then a sibling phrase and a
    sibling section whose tokens differ in length. *)
Definition misaligned : jsstring :=
  unlines (frontmatter ++
    [ str "[pallavi]";
      str "S R | G M ||";
      str "a | b c d ||";
      str "SR GM ||";
      str "a bcd ||";
      str "[charanam]";
      str "P ||";
      str "pa ||" ]).

(** A misaligned phrase in second place in the second section, after a
    gati line; the phrase before it and the section before it are fine, the
    one after it has tokens of different lengths. *)
Definition misalignedLate : jsstring :=
  unlines (frontmatter ++
    [ str "# varnam";
      str "[pallavi]";
      str "S R | G M ||";
      str "a b | c d ||";
      str "";
      str "[charanam]";
      str "P D ||";
      str "p d ||";
      str "@gati: 3";
      str "S R | G M ||";
      str "a | b c d ||";
      str "SR GM ||";
      str "a bcd ||" ]).

(** A phrase whose swara line holds no bar while its lyric line has one. *)
Definition unbarred : jsstring :=
  unlines (frontmatter ++
    [ str "[pallavi]";
      str "S R G M";
      str "a b | c d ||";
      str "SR GM ||";
      str "a bcd ||" ]).

(** The same body with the first phrase aligned. *)
Definition realigned : jsstring :=
  unlines (frontmatter ++
    [ str "[pallavi]";
      str "S R | G M ||";
      str "a b | c d ||";
      str "SR GM ||";
      str "a bcd ||";
      str "[charanam]";
      str "P ||";
      str "pa ||" ]).

(** A lyric token with an explicit syllable boundary under a two-note
    token. *)
Definition marked : jsstring :=
  unlines (frontmatter ++
    [ str "[pallavi]";
      str "SR ||";
      str "a`b ||" ]).

(** A frontmatter that is never closed. *)
Definition unclosed : jsstring :=
  unlines
    [ str "---";
      str "title: " ++ quoted "Test";
      str "raga: " ++ quoted "mohanam";
      str "tala: " ++ quoted "adi" ].

(** A frontmatter without [raga]. *)
Definition noRaga : jsstring :=
  unlines
    [ str "---";
      str "title: " ++ quoted "Test";
      str "tala: " ++ quoted "adi";
      str "---";
      str "[pallavi]" ].

(** Non-numeric [tempo] and [gati]. *)
Definition nonNumeric : jsstring :=
  unlines
    [ str "---";
      str "title: " ++ quoted "Test";
      str "raga: " ++ quoted "mohanam";
      str "tala: " ++ quoted "adi";
      str "tempo: fast";
      str "gati: " ++ quoted "tisra";
      str "---";
      str "[pallavi]" ].

(** A tempo with a unit after the digits and a gati with a suffix. *)
Definition digitPrefix : jsstring :=
  unlines
    [ str "---";
      str "title: " ++ quoted "Test";
      str "raga: " ++ quoted "mohanam";
      str "tala: " ++ quoted "adi";
      str "tempo: 500 bpm";
      str "gati: 6th";
      str "---";
      str "[pallavi]" ].

Definition gatiFrontmatter : list jsstring :=
  [ str "---";
    str "title: " ++ quoted "Test";
    str "raga: " ++ quoted "mohanam";
    str "tala: " ++ quoted "adi";
    str "gati: 4";
    str "---" ].

(** Document gati 4 and section gati 3, two phrases, no line override. *)
Definition sectionGati : jsstring :=
  unlines (gatiFrontmatter ++
    [ str "[pallavi]";
      str "@gati: 3";
      str "SRG MPD ||";
      str "abc def ||";
      str "GRS DPM ||";
      str "ghi jkl ||" ]).

(** The same with a line-level override of 5 written before the second
    phrase. *)
Definition lineGati : jsstring :=
  unlines (gatiFrontmatter ++
    [ str "[pallavi]";
      str "@gati: 3";
      str "SRG MPD ||";
      str "abc def ||";
      str "@gati: 5";
      str "SRGMP DPMGR ||";
      str "abcde fghij ||" ]).

End Samples.

(** ** Vocabulary of the proofs *)

(** A token as [parseNotationLine] may return it. *)
Definition wellFormedToken (t : jsstring) : Prop :=
  t <> [] /\ Forall (fun c => isSpace c = false /\ c <> bar) t.

(** What the [forEach] loop of [parseNotationLine] maintains. *)
Record SplitInv (st : SplitState) : Prop := {
  inv_pos : ss_currentPos st = length (ss_tokens st);
  inv_tokens : Forall wellFormedToken (ss_tokens st);
  inv_sorted : StronglySorted le (ss_beatPositions st);
  inv_bounds : Forall (fun p => (1 <= p <= ss_currentPos st)%nat) (ss_beatPositions st)
}.

(** The call [c] on state [st] ends, and when it returns it has left the
    lines alone and moved the cursor forward by at least [k]. *)
Definition finishesAt {A} (k : nat) (c : Parser A) (st : ParserState) : Prop :=
  match c st with
  | Returned _ st' => lines st' = lines st /\ (currentLine st + k <= currentLine st')%nat
  | Thrown _ _ => True
  | Unfinished => False
  end.

Definition progresses {A} (k : nat) (c : Parser A) : Prop :=
  forall st, finishesAt k c st.

(** The trimmed text of line [i], empty past the end, as
    [currentLineTrimmed] reads it. *)
Definition trimmedAt (ls : list jsstring) (i : nat) : jsstring :=
  if Nat.ltb i (length ls) then trim (default [] (ls !! i)) else [].

Definition errorIssue (e : Message) (ln : nat) : ValidationIssue :=
  {| severity := error; message := e; line := ln |}.

(** The state after one [advanceLine]. *)
Definition advanced (st : ParserState) : ParserState :=
  {| lines := lines st; currentLine := S (currentLine st) |}.

(** The bound handed to a loop is enough for the lines that are left. *)
Definition enough (fuel : nat) (st : ParserState) : Prop :=
  (length (lines st) - currentLine st < fuel)%nat.

(** The diagnostic of the inner loop of [validate] for index [i] of a
    phrase whose tokens there are [sw] and [sa]. *)
Definition lengthIssue (p : Phrase) (i : nat) (sw sa : jsstring) : ValidationIssue :=
  errorIssue (TokenLengthMismatch (i + 1) sw (length sw) sa (length sa))
    (phrase_line_number p + 1).

(** Every length diagnostic in a list reports two different lengths. *)
Definition lengthsDiffer (issues : list ValidationIssue) : Prop :=
  Forall (fun x => forall i sw swl sa sal,
            message x = TokenLengthMismatch i sw swl sa sal -> swl <> sal) issues.

(** The lines [readYamlLines] collects from [ls] on, with the number of
    lines it moves over: everything up to a line that trims to the
    delimiter, which is passed too, or up to the end when there is none. *)
Fixpoint yamlBlock (ls : list jsstring) : list jsstring * nat :=
  match ls with
  | [] => ([], O)
  | l :: ls' =>
      if eqb (trim l) delimiter then ([], 1%nat)
      else (l :: fst (yamlBlock ls'), S (snd (yamlBlock ls')))
  end.

(** A document as it could come out of [parse], for the checks of
    [validate]: a rest under a two-letter syllable, then a note. *)
Definition restPhrase : Phrase :=
  {| swaras := [str "-"; str "S"];
     sahitya := [str "ab"; str "x"];
     phrase_analysis := None;
     phrase_line_number := 7;
     beat_positions := [];
     phrase_gati := None |}.

Definition restSection : Section_ :=
  {| name := str "pallavi";
     phrases := [restPhrase];
     section_line_number := 6;
     section_gati := None |}.

Definition restDocument : VnaDocument :=
  {| metadata := ∅; sections := [restSection] |}.

(** *** How the cursor arrives at a phrase

    The tests the two loops make on the trimmed current line. *)

(** Lines the loop of [parseSection] steps over: blank, comment, gati. *)
Definition skippedInSection (l : jsstring) : bool :=
  eqb l [] || startsWith l [hash] || startsWith l gatiMarker.

(** Lines the loop of [parseSection] hands to [parsePhrase]. *)
Definition startsPhrase (l : jsstring) : bool :=
  negb (skippedInSection l) && negb (isHeader l) && includes l bar.

(** Lines the loop of [parseSections] steps over: blank or comment. *)
Definition skippedOutside (l : jsstring) : bool :=
  negb (isHeader l) && negb (nonEmpty (trim l) && negb (startsWith l [hash])).

(** [SectionRun ls j i]: started at line index [i], the loop of
    [parseSection] comes to stand on index [j], every phrase on the way
    having parsed. *)
Inductive SectionRun (ls : list jsstring) (j : nat) : nat -> Prop :=
| run_here : SectionRun ls j j
| run_skip i :
    (i < length ls)%nat ->
    skippedInSection (trimmedAt ls i) = true ->
    SectionRun ls j (S i) ->
    SectionRun ls j i
| run_phrase i p st' :
    (i < length ls)%nat ->
    startsPhrase (trimmedAt ls i) = true ->
    parsePhrase {| lines := ls; currentLine := i |} = Returned p st' ->
    SectionRun ls j (currentLine st') ->
    SectionRun ls j i.

(** [BodyRun ls j i]: started at line index [i], the loop of
    [parseSections] enters a section whose loop comes to stand on index
    [j], every section on the way having parsed. *)
Inductive BodyRun (ls : list jsstring) (j : nat) : nat -> Prop :=
| body_skip i :
    (i < length ls)%nat ->
    skippedOutside (trimmedAt ls i) = true ->
    BodyRun ls j (S i) ->
    BodyRun ls j i
| body_section i s st' :
    (i < length ls)%nat ->
    isHeader (trimmedAt ls i) = true ->
    parseSection {| lines := ls; currentLine := i |} = Returned s st' ->
    BodyRun ls j (currentLine st') ->
    BodyRun ls j i
| body_enter i :
    (i < length ls)%nat ->
    isHeader (trimmedAt ls i) = true ->
    SectionRun ls j (S i) ->
    BodyRun ls j i.

(** ** The frontmatter reader of the WASM front end
    ([VNAParser.parseMetadata] of [lib/vna-parser-wasm.ts]) *)

Module Wasm.

(** [Partial<VNAMetadata>] as this reader fills it. *)
Record Metadata := {
  title : option jsstring;
  raga : option jsstring;
  tala : option jsstring;
  tempo : option jsnum;
  composer : option jsstring;
  language : option jsstring;
  gati : option jsnum
}.

Definition noMetadata : Metadata :=
  {| title := None; raga := None; tala := None; tempo := None;
     composer := None; language := None; gati := None |}.

Definition colon : N := 58.
Definition notColon (c : N) : bool := negb (N.eqb c colon).

(** The two quote characters of the pattern that strips them. *)
Definition isQuoteChar (c : N) : bool := N.eqb c 34 || N.eqb c 39.

Definition dropLastQuote (s : jsstring) : jsstring :=
  match rev s with
  | c :: r => if isQuoteChar c then rev r else s
  | [] => s
  end.

(** [s.replace(re, '')] for the global pattern that matches one quote
    character at the start or one at the end. *)
Definition stripQuotes (s : jsstring) : jsstring :=
  match s with
  | c :: r => if isQuoteChar c then dropLastQuote r else dropLastQuote s
  | [] => []
  end.

(** The [switch (key)] statement. *)
Definition setField (m : Metadata) (key value : jsstring) : Metadata :=
  if eqb key (str "title") then
    {| title := Some value; raga := raga m; tala := tala m; tempo := tempo m;
       composer := composer m; language := language m; gati := gati m |}
  else if eqb key (str "raga") then
    {| title := title m; raga := Some value; tala := tala m; tempo := tempo m;
       composer := composer m; language := language m; gati := gati m |}
  else if eqb key (str "tala") then
    {| title := title m; raga := raga m; tala := Some value; tempo := tempo m;
       composer := composer m; language := language m; gati := gati m |}
  else if eqb key (str "tempo") then
    {| title := title m; raga := raga m; tala := tala m;
       tempo := Some (Legacy.parseIntAuto value);
       composer := composer m; language := language m; gati := gati m |}
  else if eqb key (str "composer") then
    {| title := title m; raga := raga m; tala := tala m; tempo := tempo m;
       composer := Some value; language := language m; gati := gati m |}
  else if eqb key (str "language") then
    {| title := title m; raga := raga m; tala := tala m; tempo := tempo m;
       composer := composer m; language := Some value; gati := gati m |}
  else if eqb key (str "gati") then
    {| title := title m; raga := raga m; tala := tala m; tempo := tempo m;
       composer := composer m; language := language m;
       gati := Some (Legacy.parseIntAuto value) |}
  else m.

(** The key and the value the reader takes from a trimmed line:
    [colonIndex > 0] asks for a colon that is not the first character. *)
Definition keyValue (line : jsstring) : option (jsstring * jsstring) :=
  match takeWhile notColon line, dropWhile notColon line with
  | (_ :: _) as before, _ :: after => Some (trim before, stripQuotes (trim after))
  | _, _ => None
  end.

(** The branch of the loop body for a line inside the frontmatter. *)
Definition readLine (m : Metadata) (line : jsstring) : Metadata :=
  match keyValue line with
  | Some (key, value) => setField m key value
  | None => m
  end.

(** The [for] loop from index [i] on; the result is the metadata with
    [endIndex], which stays 0 unless the loop leaves through its [break]. *)
Fixpoint scanLines (i : nat) (inFrontMatter : bool) (m : Metadata) (ls : list jsstring)
  : Metadata * nat :=
  match ls with
  | [] => (m, O)
  | l :: rest =>
      let line := trim l in
      if eqb line delimiter then
        if negb inFrontMatter then scanLines (S i) true m rest else (m, S i)
      else if inFrontMatter then scanLines (S i) true (readLine m line) rest
      else scanLines (S i) false m rest
  end.

Definition parseMetadata (lines : list jsstring) : Metadata * nat :=
  scanLines 0 false noMetadata lines.

End Wasm.

(** ** The body scanner and the staff positions of the older parser
    ([VNAParser.parseSections], [VNAParser.getSwaraPosition] of
    [lib/vna-parser.ts]) *)

Module LegacyScan.

(** [Partial<VNAPhrase>]: the three strings a phrase is assembled from. *)
Record Phrase := {
  swaras : option jsstring;
  sahitya : option jsstring;
  phrases : option jsstring
}.

Definition noPhrase : Phrase := {| swaras := None; sahitya := None; phrases := None |}.

Record Section_ := {
  name : jsstring;
  sectionPhrases : list Phrase;
  comments : option (list jsstring);
  annotations : option (gmap jsstring (option jsstring))
}.

(** Truthiness of a string that may be absent. *)
Definition truthy (o : option jsstring) : bool :=
  match o with
  | Some (_ :: _) => true
  | _ => false
  end.

(** The locals of [parseSections] that the [forEach] callback updates. *)
Record ScanState := {
  sections : list Section_;
  currentSection : option Section_;
  currentPhrase : Phrase;
  inMetadata : bool
}.

(** [trimmed.match(SECTION_REGEX)]: an opening bracket, one or more
    characters none of which is a line terminator, a closing bracket at the
    end.  The capture is what stands between the two brackets. *)
Definition matchSection (t : jsstring) : option jsstring :=
  match t with
  | c :: r =>
      if N.eqb c lbracket then
        match rev r with
        | e :: m =>
            if N.eqb e rbracket && nonEmpty m && negb (existsb Legacy.isLineTerminator m)
            then Some (rev m) else None
        | [] => None
        end
      else None
  | [] => None
  end.

Definition at_ : N := 64.

Definition pushPhrase (s : Section_) (p : Phrase) : Section_ :=
  {| name := name s; sectionPhrases := sectionPhrases s ++ [p];
     comments := comments s; annotations := annotations s |}.

Definition addComment (s : Section_) (c : jsstring) : Section_ :=
  {| name := name s; sectionPhrases := sectionPhrases s;
     comments := Some (default [] (comments s) ++ [c]); annotations := annotations s |}.

(** [annotations[key] = value]; as on every object literal, the key
    [__proto__] creates no property. *)
Definition addAnnotation (s : Section_) (key : jsstring) (value : option jsstring)
  : Section_ :=
  let a := default ∅ (annotations s) in
  {| name := name s; sectionPhrases := sectionPhrases s; comments := comments s;
     annotations := Some (if eqb key (str "__proto__") then a else <[key := value]> a) |}.

(** [trimmed.substring(1).split(':').map(s => s.trim())], of which the
    first two elements are used. *)
Definition annotationParts (t : jsstring) : jsstring * option jsstring :=
  match map trim (split Wasm.colon (substring 1 t)) with
  | k :: v :: _ => (k, Some v)
  | [k] => (k, None)
  | [] => ([], None)
  end.

Definition analysisPrefix : jsstring := str "phrases =".

(** One call of the callback of [lines.forEach]; [ndelims] is the number of
    lines of the whole text that trim to the delimiter. *)
Definition scanLine (ndelims : nat) (st : ScanState) (l : jsstring) : ScanState :=
  let trimmed := trim l in
  if eqb trimmed delimiter then
    {| sections := sections st; currentSection := currentSection st;
       currentPhrase := currentPhrase st;
       inMetadata := if inMetadata st && Nat.eqb ndelims 2
                     then negb (inMetadata st) else inMetadata st |}
  else if inMetadata st then st
  else if startsWith trimmed [hash] then
    match currentSection st with
    | Some s =>
        {| sections := sections st;
           currentSection := Some (addComment s (trim (substring 1 trimmed)));
           currentPhrase := currentPhrase st; inMetadata := inMetadata st |}
    | None => st
    end
  else if startsWith trimmed [at_] then
    match currentSection st with
    | Some s =>
        let '(key, value) := annotationParts trimmed in
        {| sections := sections st;
           currentSection := Some (addAnnotation s key value);
           currentPhrase := currentPhrase st; inMetadata := inMetadata st |}
    | None => st
    end
  else
    match matchSection trimmed with
    | Some n =>
        {| sections := match currentSection st with
                       | Some s => sections st ++ [s]
                       | None => sections st
                       end;
           currentSection :=
             Some {| name := n; sectionPhrases := []; comments := None;
                     annotations := None |};
           currentPhrase := noPhrase; inMetadata := inMetadata st |}
    | None =>
        match currentSection st with
        | None => st
        | Some s =>
            let p := currentPhrase st in
            if startsWith trimmed analysisPrefix then
              let p' := {| swaras := swaras p; sahitya := sahitya p;
                           phrases := Some (trim (substring 9 trimmed)) |} in
              if truthy (swaras p') && truthy (sahitya p')
              then {| sections := sections st;
                      currentSection := Some (pushPhrase s p');
                      currentPhrase := noPhrase; inMetadata := inMetadata st |}
              else {| sections := sections st; currentSection := Some s;
                      currentPhrase := p'; inMetadata := inMetadata st |}
            else if nonEmpty trimmed && negb (truthy (swaras p)) then
              {| sections := sections st; currentSection := Some s;
                 currentPhrase := {| swaras := Some trimmed; sahitya := sahitya p;
                                     phrases := phrases p |};
                 inMetadata := inMetadata st |}
            else if nonEmpty trimmed && truthy (swaras p) && negb (truthy (sahitya p))
            then
              let p' := {| swaras := swaras p; sahitya := Some trimmed;
                           phrases := phrases p |} in
              if negb (truthy (phrases p'))
              then {| sections := sections st;
                      currentSection := Some (pushPhrase s p');
                      currentPhrase := noPhrase; inMetadata := inMetadata st |}
              else {| sections := sections st; currentSection := Some s;
                      currentPhrase := p'; inMetadata := inMetadata st |}
            else st
        end
    end.

Definition countDelimiters (lines : list jsstring) : nat :=
  length (List.filter Legacy.isDelimiter lines).

Definition parseSections (lines : list jsstring) : list Section_ :=
  let st := foldl (scanLine (countDelimiters lines))
              {| sections := []; currentSection := None; currentPhrase := noPhrase;
                 inMetadata := true |} lines in
  match currentSection st with
  | Some s => sections st ++ [s]
  | None => sections st
  end.

(** The seven letters of the type [Swara]: S, R, G, M, P, D, N. *)
Inductive Swara := Sa | Ri | Ga | Ma | Pa | Dha | Ni.

(** The five values of the type [OctaveMarker], from two octaves down to
    two octaves up; [Middle] is the empty marker. *)
Inductive OctaveMarker := Low2 | Low1 | Middle | High1 | High2.



End LegacyScan.

(** ** From the parser's token arrays to the renderer's tokens
    ([normalizePhrase] of the adapter, the token split of the staff
    renderer) *)

Module Adapter.

Definition space : N := 32.

(** [tokens.join(' ')] *)
Fixpoint join (tokens : list jsstring) : jsstring :=
  match tokens with
  | [] => []
  | [t] => t
  | t :: rest => t ++ space :: join rest
  end.

(** A field of a phrase: an array of tokens from the WASM parser or one
    string from the older parser. *)
Definition Line := (list jsstring + jsstring)%type.

(** [Array.isArray(x) ? x.join(' ') : x] *)
Definition normalizeLine (x : Line) : jsstring :=
  match x with
  | inl tokens => join tokens
  | inr s => s
  end.

(** [Array.isArray(x) ? x : x.split(/\s+/)], as every drawing routine of
    the staff starts. *)
Definition rendererTokens (x : Line) : list jsstring :=
  match x with
  | inl tokens => tokens
  | inr s => splitSpaces s
  end.

(** A token without white space in it. *)
Definition isWord (t : jsstring) : Prop :=
  t <> [] /\ Forall (fun c => isSpace c = false) t.

End Adapter.

(** ** Vocabulary of the further properties *)

(** The words of a string: its pieces between white space. *)
Definition words (s : jsstring) : list jsstring :=
  List.filter nonEmpty (splitSpaces s).

(** A bar read as a space. *)
Definition barToSpace (c : N) : N := if N.eqb c bar then 32 else c.

(** The line numbers a document records, in the order of the text. *)
Definition sectionLineNumbers (s : Section_) : list nat :=
  section_line_number s :: map phrase_line_number (phrases s).

Definition documentLineNumbers (d : VnaDocument) : list nat :=
  flat_map sectionLineNumbers (sections d).

(** Where the cursor stands when [parse] throws [e]. *)
Definition errorPlaced (e : Message) (st : ParserState) : Prop :=
  match e with
  | MissingFrontmatter => currentLine st = O
  | MissingRequiredFields => (1 <= currentLine st <= length (lines st))%nat
  | UnexpectedContent n | UnexpectedContentInSection n =>
      n = (currentLine st + 1)%nat /\ (n <= length (lines st))%nat
  | BeatMarkersMisaligned n =>
      currentLine st = (n + 1)%nat /\ (n <= length (lines st))%nat
  | _ => False
  end.

(** The unit of the swara tokenizer for a character that is a rest, a
    sustain or a bare letter. *)
Definition plainUnit (c : N) : Swara.ParsedSwara :=
  if N.eqb c Swara.comma then Swara.sustainUnit
  else if N.eqb c Swara.dash then Swara.restUnit
  else Swara.noteUnit c None None.

Definition isPlain (c : N) : bool :=
  N.eqb c Swara.comma || N.eqb c Swara.dash || Swara.isSwaraLetter c.

(** A phrase read by [parsePhrase] from line index [i] of [ls], where the
    loop of [parseSection] hands over to it. *)
Definition phraseOrigin (ls : list jsstring) (p : Phrase) : Prop :=
  exists i st',
    (i < length ls)%nat
    /\ startsPhrase (trimmedAt ls i) = true
    /\ parsePhrase {| lines := ls; currentLine := i |} = Returned p st'
    /\ phrase_line_number p = (i + 1)%nat.

(** What the loop of [parseSection] keeps true of the phrases collected so
    far, [lo] being the index the loop started from and [cur] the cursor. *)
Record PhrasesInv (ls : list jsstring) (lo cur : nat) (acc : list Phrase) : Prop := {
  pi_origin : Forall (phraseOrigin ls) acc;
  pi_sorted : StronglySorted lt (map phrase_line_number acc);
  pi_range : Forall (fun n => (lo < n <= cur)%nat) (map phrase_line_number acc)
}.

(** The same for the sections collected by the loop of [parseSections]. *)
Record SectionsInv (ls : list jsstring) (lo cur : nat) (acc : list Section_) : Prop := {
  si_phrases : Forall (fun s => Forall (phraseOrigin ls) (phrases s)) acc;
  si_sorted : StronglySorted lt (flat_map sectionLineNumbers acc);
  si_range : Forall (fun n => (lo < n <= cur)%nat) (flat_map sectionLineNumbers acc);
  si_length : Forall (fun n => (n <= length ls)%nat) (flat_map sectionLineNumbers acc)
}.

(** A text that ends on a swara line with a bar in it and no lyric line. *)
Definition dangling : jsstring :=
  Samples.unlines (Samples.frontmatter ++ [ str "[pallavi]"; str "S | R ||" ]).

(** A frontmatter that names the title twice and gives a tempo with a unit,
    before an empty section. *)
Definition repeated : jsstring :=
  Samples.unlines
    [ str "---";
      str "title: " ++ Samples.quoted "Test";
      str "raga: " ++ Samples.quoted "mohanam";
      str "tala: " ++ Samples.quoted "adi";
      str "title: " ++ Samples.quoted "Other";
      str "tempo: 90 bpm";
      str "---";
      str "[pallavi]" ].

(** The shape of every property of a metadata object built by the loop over
    the frontmatter lines. *)
Definition storedField (key : jsstring) (v : MetaValue) : Prop :=
  key <> [] /\ forallb isWordChar key = true /\ key <> str "__proto__"
  /\ match v with
     | VString s => key <> k_tempo /\ key <> k_gati /\ forallb notQuote s = true
     | VNumber _ => key = k_tempo \/ key = k_gati
     end.

(** [pieces.join(sep)] for a one-character separator, the inverse of
    [split]. *)
Fixpoint joinWith (sep : N) (pieces : list jsstring) : jsstring :=
  match pieces with
  | [] => []
  | [p] => p
  | p :: rest => p ++ sep :: joinWith sep rest
  end.

(** The number of tokens in the first [k] beats. *)
Definition tokensBefore (beats : list jsstring) (k : nat) : nat :=
  length (flat_map words (take k beats)).

(** A phrase the older parser may push: both lines are there. *)
Definition completePhrase (p : LegacyScan.Phrase) : Prop :=
  LegacyScan.truthy (LegacyScan.swaras p) = true
  /\ LegacyScan.truthy (LegacyScan.sahitya p) = true.

(** A section the older parser may open. *)
Definition soundSection (s : LegacyScan.Section_) : Prop :=
  LegacyScan.name s <> []
  /\ Forall (fun c => Legacy.isLineTerminator c = false) (LegacyScan.name s)
  /\ Forall completePhrase (LegacyScan.sectionPhrases s).

(** What the callback of [parseSections] keeps true of its locals. *)
Definition soundScan (st : LegacyScan.ScanState) : Prop :=
  Forall soundSection (LegacyScan.sections st)
  /\ match LegacyScan.currentSection st with
     | Some s => soundSection s
     | None => True
     end.

(** A text with a rule of three dashes between its two sections. *)
Definition ruled : list jsstring :=
  Samples.frontmatter ++
  [ str "[pallavi]"; str "S R G M"; str "sa ri ga ma";
    str "---";
    str "[charanam]"; str "P D N S"; str "pa da ni sa" ].

(** What a unit of the swara tokenizer looks like: a rest, a sustain, or a
    note on one of the seven letters whose variant, when there is one, is
    one of the digits 1, 2, 3. *)
Definition unitShape (u : Swara.ParsedSwara) : Prop :=
  u = Swara.restUnit
  \/ u = Swara.sustainUnit
  \/ exists c v o,
       u = Swara.noteUnit c v o
       /\ Swara.isSwaraLetter c = true
       /\ match v with
          | Some d => Swara.isVariantDigit d = true
          | None => True
          end.

(** A section read from a header line of [ls]: the line its number names
    is the name between brackets. *)
Definition sectionOrigin (ls : list jsstring) (s : Section_) : Prop :=
  exists i,
    (i < length ls)%nat
    /\ section_line_number s = (i + 1)%nat
    /\ isHeader (trimmedAt ls i) = true
    /\ name s = slice 1 1 (trimmedAt ls i).

(** A section gati read from a marker line of [ls] at an index from [lo]
    on. *)
Definition gatiOrigin (ls : list jsstring) (lo : nat) (g : option jsnum) : Prop :=
  match g with
  | None => True
  | Some v =>
      exists j,
        (lo <= j < length ls)%nat
        /\ startsWith (trimmedAt ls j) gatiMarker = true
        /\ v = parseInt10 (trim (substring 6 (trimmedAt ls j)))
  end.

(** ** The swara tokenizer of the older parser
    ([VNAParser.parseSwaraLine] of [lib/vna-parser.ts]) *)

Module LegacySwara.

(** The object pushed for one unit; [duration] is 1 in every one of them. *)
Record ParsedSwara := {
  swara : N;
  variant : option Z;
  octave : LegacyScan.OctaveMarker;
  duration : nat;
  isRest : bool;
  isSustain : bool
}.

Definition restUnit : ParsedSwara :=
  {| swara := Swara.letterS; variant := None; octave := LegacyScan.Middle;
     duration := 1; isRest := true; isSustain := false |}.

Definition sustainUnit : ParsedSwara :=
  {| swara := Swara.letterS; variant := None; octave := LegacyScan.Middle;
     duration := 1; isRest := false; isSustain := true |}.

Definition noteUnit (c : N) (v : option Z) (o : LegacyScan.OctaveMarker) : ParsedSwara :=
  {| swara := c; variant := v; octave := o; duration := 1;
     isRest := false; isSustain := false |}.

(** The optional group of one digit. *)
Definition takeDigit (s : jsstring) : option N * jsstring :=
  match s with
  | d :: r => if isDigit d then (Some d, r) else (None, s)
  | [] => (None, s)
  end.

(** The optional group of the octave: one or two lower markers, the longer
    choice first, else one or two upper markers. *)
Definition takeOctave (s : jsstring) : LegacyScan.OctaveMarker * jsstring :=
  match s with
  | c :: r =>
      if N.eqb c Swara.dot then
        match r with
        | c2 :: r2 => if N.eqb c2 Swara.dot then (LegacyScan.Low2, r2)
                      else (LegacyScan.Low1, r)
        | [] => (LegacyScan.Low1, r)
        end
      else if N.eqb c Swara.apostrophe then
        match r with
        | c2 :: r2 => if N.eqb c2 Swara.apostrophe then (LegacyScan.High2, r2)
                      else (LegacyScan.High1, r)
        | [] => (LegacyScan.High1, r)
        end
      else (LegacyScan.Middle, s)
  | [] => (LegacyScan.Middle, s)
  end.

(** [variant ? parseInt(variant) : undefined] for the one digit captured. *)
Definition variantOf (d : option N) : option Z :=
  option_map (fun c => (Z.of_N c - 48)%Z) d.

(** One match of [SWARA_REGEX] at the letter [c], and what is left of the
    string after it. *)
Definition matchAt (c : N) (r : jsstring) : ParsedSwara * jsstring :=
  let '(d, r1) := takeDigit r in
  let '(o, r2) := takeOctave r1 in
  (noteUnit c (variantOf d) o, r2).

(** [Array.from(s.matchAll(SWARA_REGEX))], each match already turned into
    the object built from it: the matches are found from left to right, each
    search starting where the last match ended. *)
Fixpoint matchAll (fuel : nat) (s : jsstring) : option (list ParsedSwara) :=
  match fuel with
  | O => None
  | S fuel' =>
      match s with
      | [] => Some []
      | c :: r =>
          if Swara.isSwaraLetter c then
            let '(u, rest) := matchAt c r in
            option_map (cons u) (matchAll fuel' rest)
          else matchAll fuel' r
      end
  end.

Definition isMark (c : N) : bool := N.eqb c Swara.dot || N.eqb c Swara.apostrophe.

(** The [while (i < chars.length)] loop over the characters of a token
    that holds a dash or a comma; [s] is the part from index [i] on. *)
Fixpoint scanChars (fuel : nat) (s : jsstring) : option (list ParsedSwara) :=
  match fuel with
  | O => None
  | S fuel' =>
      match s with
      | [] => Some []
      | c :: r =>
          if N.eqb c Swara.dash then option_map (cons restUnit) (scanChars fuel' r)
          else if N.eqb c Swara.comma then option_map (cons sustainUnit) (scanChars fuel' r)
          else if Swara.isSwaraLetter c then
            let '(d, r1) := takeDigit r in
            let notation :=
              c :: match d with Some x => [x] | None => [] end ++ takeWhile isMark r1 in
            match matchAll (S (length notation)) notation with
            | Some (m :: _) => option_map (cons m) (scanChars fuel' (dropWhile isMark r1))
            | Some [] => scanChars fuel' (dropWhile isMark r1)
            | None => None
            end
          else scanChars fuel' r
      end
  end.

(** The body of [tokens.forEach]: the units one token adds. *)
Definition tokenUnits (token : jsstring) : option (list ParsedSwara) :=
  if eqb token [Swara.dash] then Some [restUnit]
  else if eqb token [Swara.comma] then Some [sustainUnit]
  else if eqb token [bar] || eqb token [bar; bar] then Some []
  else if includes token Swara.dash || includes token Swara.comma
       then scanChars (S (length token)) token
       else matchAll (S (length token)) token.

Definition addUnits (acc : option (list ParsedSwara)) (token : jsstring)
  : option (list ParsedSwara) :=
  match acc, tokenUnits token with
  | Some a, Some u => Some (a ++ u)
  | _, _ => None
  end.

Definition parseSwaraLine (swaraLine : jsstring) : option (list ParsedSwara) :=
  foldl addUnits (Some []) (splitSpaces swaraLine).

End LegacySwara.

(** A unit of the older tokenizer as a note of the data model: the
    variant as the digit that was read, the octave as a signed count. *)
Definition legacyOctaveValue (o : LegacyScan.OctaveMarker) : Z :=
  match o with
  | LegacyScan.Low2 => -2
  | LegacyScan.Low1 => -1
  | LegacyScan.Middle => 0
  | LegacyScan.High1 => 1
  | LegacyScan.High2 => 2
  end.

Definition legacyToNote (u : LegacySwara.ParsedSwara) : Swara.ParsedNote :=
  if LegacySwara.isRest u then Swara.Rest
  else if LegacySwara.isSustain u then Swara.Sustain
  else Swara.Natural (LegacySwara.swara u)
         (option_map (fun v => Z.to_N (v + 48)) (LegacySwara.variant u))
         (legacyOctaveValue (LegacySwara.octave u)).

(** What a unit stands for, whichever tokenizer made it. *)
Inductive UnitKind :=
| KRest
| KSustain
| KNote (letter : N).

(** The unit a character starts, if it starts one. *)
Definition starterOf (c : N) : option UnitKind :=
  if N.eqb c Swara.dash then Some KRest
  else if N.eqb c Swara.comma then Some KSustain
  else if Swara.isSwaraLetter c then Some (KNote c)
  else None.

(** The units a string calls for, character by character. *)
Fixpoint starters (s : jsstring) : list UnitKind :=
  match s with
  | [] => []
  | c :: r =>
      match starterOf c with
      | Some k => k :: starters r
      | None => starters r
      end
  end.

Definition kindOf (u : Swara.ParsedSwara) : UnitKind :=
  if Swara.isRest u then KRest
  else if Swara.isSustain u then KSustain
  else KNote (Swara.swara u).

Definition legacyKindOf (u : LegacySwara.ParsedSwara) : UnitKind :=
  if LegacySwara.isRest u then KRest
  else if LegacySwara.isSustain u then KSustain
  else KNote (LegacySwara.swara u).

(** * Properties *)

(** ** String primitives *)

Section StringFacts.

Lemma dropWhile_incl (p : N -> bool) (s : jsstring) (c : N) :
  In c (dropWhile p s) -> In c s.
Proof.
  induction s as [|x s IH]; simpl; [tauto|].
  destruct (p x); simpl; tauto.
Qed.

Lemma takeWhile_incl (p : N -> bool) (s : jsstring) (c : N) :
  In c (takeWhile p s) -> In c s.
Proof.
  induction s as [|x s IH]; simpl; [tauto|].
  destruct (p x); simpl; tauto.
Qed.

Lemma trim_incl (s : jsstring) (c : N) : In c (trim s) -> In c s.
Proof.
  unfold trim, trimEnd, trimStart. intros H.
  apply in_rev, dropWhile_incl, in_rev in H.
  now apply dropWhile_incl in H.
Qed.

Lemma slice_incl (a b : nat) (s : jsstring) (c : N) : In c (slice a b s) -> In c s.
Proof.
  unfold slice. intros H.
  apply list_elem_of_In in H. apply list_elem_of_In.
  apply (subseteq_take _ _ _) in H. now apply (subseteq_drop _ _ _) in H.
Qed.

Lemma cleanLine_incl (l : jsstring) (c : N) : In c (cleanLine l) -> In c l.
Proof.
  unfold cleanLine. destruct (endsWith l [bar; bar]); intros H.
  - eapply slice_incl, trim_incl, H.
  - now apply trim_incl.
Qed.

Lemma consHead_Forall (P : jsstring -> Prop) (c : N) (ps : list jsstring) :
  (forall p, P p -> P (c :: p)) -> P [c] -> Forall P ps -> Forall P (consHead c ps).
Proof.
  intros Hc H1 Hps. destruct ps as [|p ps]; simpl.
  - constructor; [exact H1 | constructor].
  - inversion Hps; subst. constructor; auto.
Qed.

(** No piece of [split sep s] contains the separator. *)
Lemma split_no_sep (sep : N) (s : jsstring) :
  Forall (fun p => ~ In sep p) (split sep s).
Proof.
  induction s as [|c s IH]; simpl.
  - constructor; [intros [] | constructor].
  - destruct (N.eqb_spec c sep) as [->|Hne].
    + constructor; [intros [] | exact IH].
    + apply consHead_Forall; [| |exact IH].
      * intros p Hp [Hin|Hin]; [congruence | tauto].
      * intros [Hin|[]]; congruence.
Qed.

(** Every character of a piece comes from the string that was split. *)
Lemma split_incl (sep : N) (s : jsstring) :
  Forall (fun p => forall c, In c p -> In c s) (split sep s).
Proof.
  induction s as [|c s IH]; simpl.
  - constructor; [intros c [] | constructor].
  - destruct (N.eqb c sep).
    + constructor; [intros x [] |].
      eapply Forall_impl; [exact IH|]. simpl. intros p Hp x Hx. right. auto.
    + apply consHead_Forall.
      * intros p Hp x [Hx|Hx]; [now left|]. 
        destruct (Hp x Hx) as [E|E]; [now left | now right].
      * intros x [Hx|[]]. now left.
      * eapply Forall_impl; [exact IH|]. simpl. intros p Hp x Hx. right. auto.
Qed.

Lemma splitSpacesAux_no_space (b : bool) (s : jsstring) :
  Forall (fun p => forall c, In c p -> isSpace c = false /\ In c s) (splitSpacesAux b s).
Proof.
  revert b. induction s as [|c s IH]; intros b; simpl.
  - constructor; [intros c [] | constructor].
  - destruct (isSpace c) eqn:Hc.
    + assert (Hw : forall b', Forall (fun p => forall x, In x p ->
                 isSpace x = false /\ (c = x \/ In x s)) (splitSpacesAux b' s)).
      { intros b'. eapply Forall_impl; [apply IH|]. simpl.
        intros p Hp x Hx. destruct (Hp x Hx). auto. }
      destruct b; [apply Hw|]. constructor; [intros x [] | apply Hw].
    + apply consHead_Forall.
      * intros p Hp x [<-|Hx]; [auto|]. apply Hp, Hx.
      * intros x [<-|[]]. auto.
      * eapply Forall_impl; [apply IH|]. simpl.
        intros p Hp x Hx. destruct (Hp x Hx). auto.
Qed.

End StringFacts.

(** ** The notation-line splitter *)

Section NotationLineFacts.

Lemma beatTokens_wellFormed (beat : jsstring) :
  ~ In bar beat ->
  Forall wellFormedToken (List.filter nonEmpty (splitSpaces (trim beat))).
Proof.
  intros Hbar. apply List.Forall_forall. intros t Ht.
  apply filter_In in Ht as [Ht Hne].
  pose proof (splitSpacesAux_no_space false (trim beat)) as Hall.
  rewrite List.Forall_forall in Hall. specialize (Hall t Ht).
  split.
  - destruct t; [discriminate | congruence].
  - apply List.Forall_forall. intros c Hc. destruct (Hall c Hc) as [Hs Hin].
    split; [exact Hs|]. intros ->. apply Hbar. now apply trim_incl.
Qed.

Lemma StronglySorted_snoc (l : list nat) (x : nat) :
  StronglySorted le l -> Forall (fun p => (p <= x)%nat) l -> StronglySorted le (l ++ [x]).
Proof.
  induction 1 as [|a l Hs IH Ha]; intros Hx; simpl.
  - constructor; constructor.
  - inversion Hx; subst. constructor; [auto|].
    apply Forall_app. split; [exact Ha | constructor; [assumption | constructor]].
Qed.

Lemma beatStep_inv (n i : nat) (st : SplitState) (beat : jsstring) :
  ~ In bar beat -> SplitInv st -> SplitInv (beatStep n st i beat).
Proof.
  intros Hbar [Hpos Htok Hsort Hbnd]. unfold beatStep.
  set (bt := List.filter nonEmpty (splitSpaces (trim beat))).
  assert (Hle : Forall (fun p => (1 <= p <= ss_currentPos st + length bt)%nat)
                  (ss_beatPositions st)).
  { eapply Forall_impl; [exact Hbnd|]. simpl. intros; lia. }
  constructor; simpl.
  - rewrite length_app. lia.
  - apply Forall_app. split; [exact Htok | now apply beatTokens_wellFormed].
  - destruct (Nat.ltb i (n - 1) && Nat.ltb 0 (ss_currentPos st + length bt)); [|exact Hsort].
    apply StronglySorted_snoc; [exact Hsort|].
    eapply Forall_impl; [exact Hle|]. simpl. intros; lia.
  - destruct (Nat.ltb i (n - 1) && Nat.ltb 0 (ss_currentPos st + length bt)) eqn:E;
      [|exact Hle].
    apply andb_true_iff in E as [_ E]. apply Nat.ltb_lt in E.
    apply Forall_app. split; [exact Hle|]. constructor; [lia | constructor].
Qed.

Lemma forEachBeat_inv (n : nat) (beats : list jsstring) :
  forall st i,
    Forall (fun b => ~ In bar b) beats -> SplitInv st ->
    SplitInv (forEachBeat n st i beats).
Proof.
  induction beats as [|b beats IH]; intros st i Hb Hst; simpl; [exact Hst|].
  inversion Hb; subst. apply IH; [assumption|]. now apply beatStep_inv.
Qed.

(** C10: every token returned by [parseNotationLine] is non-empty and free
    of white space and of the bar character, and the beat positions are
    non-decreasing, each at least 1 and at most the number of tokens. *)
Theorem parseNotationLine_wellFormed (l : jsstring) :
  Forall wellFormedToken (tokens (parseNotationLine l))
  /\ StronglySorted le (beatPositions (parseNotationLine l))
  /\ Forall (fun p => (1 <= p <= length (tokens (parseNotationLine l)))%nat)
       (beatPositions (parseNotationLine l)).
Proof.
  unfold parseNotationLine. simpl.
  set (beats := split bar (cleanLine l)).
  assert (Hinv : SplitInv (forEachBeat (length beats)
             {| ss_tokens := []; ss_beatPositions := []; ss_currentPos := 0 |} 0 beats)).
  { apply forEachBeat_inv; [apply split_no_sep|].
    constructor; simpl; constructor. }
  destruct Hinv as [Hpos Htok Hsort Hbnd].
  rewrite <- Hpos. auto.
Qed.

End NotationLineFacts.

(** ** The parser always ends *)

Section Progress.

Context {A B : Type}.

Lemma progresses_ret (a : A) : progresses 0 (ret a).
Proof. intros st. unfold finishesAt, ret. split; [reflexivity | lia]. Qed.

Lemma progresses_throw (k : nat) (e : Message) : progresses k (@throw A e).
Proof. intros st. exact I. Qed.

Lemma finishesAt_bind (j k : nat) (c : Parser A) (f : A -> Parser B) (st : ParserState) :
  finishesAt j c st ->
  (forall a st', c st = Returned a st' -> finishesAt k (f a) st') ->
  finishesAt (j + k) (bind c f) st.
Proof.
  unfold finishesAt, bind. intros Hc Hf.
  destruct (c st) as [a st'| |]; [|exact I|exact Hc].
  specialize (Hf a st' eq_refl). destruct Hc as [Hl Hc].
  destruct (f a st') as [b st''| |]; [|exact I|exact Hf].
  destruct Hf as [Hl' Hf]. split; [congruence | lia].
Qed.

Lemma progresses_bind (j k : nat) (c : Parser A) (f : A -> Parser B) :
  progresses j c -> (forall a, progresses k (f a)) -> progresses (j + k) (bind c f).
Proof. intros Hc Hf st. apply finishesAt_bind; [apply Hc | intros; apply Hf]. Qed.

Lemma finishesAt_weaken (j k : nat) (c : Parser A) (st : ParserState) :
  (k <= j)%nat -> finishesAt j c st -> finishesAt k c st.
Proof.
  unfold finishesAt. intros Hle. destruct (c st); auto.
  intros [Hl Hc]. split; [exact Hl | lia].
Qed.

Lemma progresses_weaken (j k : nat) (c : Parser A) :
  (k <= j)%nat -> progresses j c -> progresses k c.
Proof. intros Hle Hc st. eapply finishesAt_weaken; [exact Hle | apply Hc]. Qed.

End Progress.

Lemma progresses_advanceLine : progresses 1 advanceLine.
Proof. intros st. unfold finishesAt, advanceLine. simpl. split; [reflexivity | lia]. Qed.

Lemma progresses_getCurrentLine : progresses 0 getCurrentLine.
Proof. intros st. unfold finishesAt, getCurrentLine. split; [reflexivity | lia]. Qed.

Lemma progresses_currentLineTrimmed : progresses 0 currentLineTrimmed.
Proof. intros st. unfold finishesAt, currentLineTrimmed. split; [reflexivity | lia]. Qed.

Lemma progresses_inRange : progresses 0 inRange.
Proof. intros st. unfold finishesAt, inRange. split; [reflexivity | lia]. Qed.

Lemma progresses_rawLine : progresses 0 rawLine.
Proof. intros st. unfold finishesAt, rawLine. split; [reflexivity | lia]. Qed.

Create HintDb progress.

#[local] Hint Resolve progresses_ret progresses_throw progresses_advanceLine
  progresses_getCurrentLine progresses_currentLineTrimmed progresses_inRange
  progresses_rawLine : progress.

(** Building a progress proof along the binds of a method body. *)
Ltac step_bind j k :=
  apply (progresses_bind j k); [auto with progress | intros ?].

Lemma progresses_parsePhrase : progresses 2 parsePhrase.
Proof.
  unfold parsePhrase.
  step_bind 0%nat 2%nat. step_bind 0%nat 2%nat.
  apply (progresses_bind 0 2).
  { destruct (startsWith _ _); [|auto with progress].
    apply (progresses_weaken 1); [lia|].
    apply (progresses_bind 1 0); auto with progress. }
  intros lineGati.
  step_bind 0%nat 2%nat. step_bind 1%nat 1%nat. step_bind 0%nat 1%nat.
  step_bind 1%nat 0%nat.
  destruct (negb _); [auto with progress|].
  step_bind 0%nat 0%nat.
  apply (progresses_bind 0 0); [|auto with progress].
  destruct (startsWith _ _); [|auto with progress].
  apply (progresses_weaken 1); [lia|].
  apply (progresses_bind 1 0); auto with progress.
Qed.

Ltac enter_loop :=
  apply (finishesAt_bind 0 0); [apply progresses_inRange|];
  let more := fresh "more" in
  let st' := fresh "st" in
  let E := fresh "E" in
  intros more st' E; unfold inRange in E; injection E as <- <-.

Ltac read c :=
  apply (finishesAt_bind 0 0 c); [auto with progress|];
  let x := fresh "x" in
  let st' := fresh "st" in
  let E := fresh "E" in
  intros x st' E; injection E as <- <-.

Ltac advance_then IH :=
  apply (finishesAt_weaken 1); [lia|];
  apply (finishesAt_bind 1 0 advanceLine); [apply progresses_advanceLine|];
  let u := fresh "u" in
  let st' := fresh "st" in
  let E := fresh "E" in
  intros u st' E; unfold advanceLine in E; injection E as _ <-;
  apply IH; unfold enough in *; simpl; lia.

Lemma readYamlLines_finishes (fuel : nat) :
  forall acc st, enough fuel st -> finishesAt 0 (readYamlLines fuel acc) st.
Proof.
  induction fuel as [|fuel IH]; intros acc st He; [unfold enough in He; lia|].
  cbn [readYamlLines]. enter_loop.
  destruct (Nat.ltb_spec (currentLine st) (length (lines st))) as [Hlt|Hge];
    [|apply progresses_ret].
  read rawLine.
  destruct (eqb _ _).
  - apply (finishesAt_weaken 1); [lia|].
    apply (progresses_bind 1 0); auto with progress.
  - advance_then IH.
Qed.

Lemma parseSectionLoop_finishes (fuel : nat) :
  forall phrases g st, enough fuel st -> finishesAt 0 (parseSectionLoop fuel phrases g) st.
Proof.
  induction fuel as [|fuel IH]; intros phrases g st He; [unfold enough in He; lia|].
  cbn [parseSectionLoop]. enter_loop.
  destruct (Nat.ltb_spec (currentLine st) (length (lines st))) as [Hlt|Hge];
    [|apply progresses_ret].
  read currentLineTrimmed.
  destruct (eqb _ _); [advance_then IH|].
  destruct (startsWith _ [hash]); [advance_then IH|].
  destruct (startsWith _ gatiMarker); [advance_then IH|].
  destruct (isHeader _); [apply progresses_ret|].
  destruct (includes _ _).
  - apply (finishesAt_weaken 2); [lia|].
    apply (finishesAt_bind 2 0 parsePhrase); [apply progresses_parsePhrase|].
    intros p st' E. pose proof (progresses_parsePhrase st) as Hp.
    unfold finishesAt in Hp. rewrite E in Hp. destruct Hp as [Hl Hc].
    apply IH. unfold enough in *. rewrite Hl. lia.
  - apply (progresses_bind 0 0); auto with progress.
Qed.

Lemma progresses_bounded {A} (loop : nat -> Parser A) (k : nat) :
  (forall fuel st, enough fuel st -> finishesAt k (loop fuel) st) ->
  progresses k (bounded loop).
Proof. intros H st. unfold bounded, finishesAt. apply H. unfold enough. lia. Qed.

Lemma progresses_parseSection : progresses 1 parseSection.
Proof.
  unfold parseSection.
  step_bind 0%nat 1%nat. step_bind 0%nat 1%nat. step_bind 1%nat 0%nat.
  apply (progresses_bind 0 0); [|auto with progress].
  apply progresses_bounded. intros. now apply parseSectionLoop_finishes.
Qed.

Lemma parseSectionsLoop_finishes (fuel : nat) :
  forall acc st, enough fuel st -> finishesAt 0 (parseSectionsLoop fuel acc) st.
Proof.
  induction fuel as [|fuel IH]; intros acc st He; [unfold enough in He; lia|].
  cbn [parseSectionsLoop]. enter_loop.
  destruct (Nat.ltb_spec (currentLine st) (length (lines st))) as [Hlt|Hge];
    [|apply progresses_ret].
  read currentLineTrimmed.
  destruct (isHeader _).
  - apply (finishesAt_weaken 1); [lia|].
    apply (finishesAt_bind 1 0 parseSection); [apply progresses_parseSection|].
    intros s st' E. pose proof (progresses_parseSection st) as Hp.
    unfold finishesAt in Hp. rewrite E in Hp. destruct Hp as [Hl Hc].
    apply IH. unfold enough in *. rewrite Hl. lia.
  - destruct (_ && _); [apply (progresses_bind 0 0); auto with progress|].
    advance_then IH.
Qed.

Lemma progresses_parseSections : progresses 0 parseSections.
Proof.
  apply progresses_bounded. intros. now apply parseSectionsLoop_finishes.
Qed.

Lemma progresses_parseMetadata : progresses 0 parseMetadata.
Proof.
  unfold parseMetadata, currentLineStartsWith.
  apply (progresses_bind 0 0).
  { apply (progresses_bind 0 0); auto with progress. }
  intros opened. destruct (negb opened); [auto with progress|].
  apply (progresses_weaken 1); [lia|].
  step_bind 1%nat 0%nat.
  apply (progresses_bind 0 0).
  { apply progresses_bounded. intros. now apply readYamlLines_finishes. }
  intros yamlLines. destruct (requiredMissing _); auto with progress.
Qed.

(** [parse] starts by overwriting both fields of the parser object. *)
Lemma parse_unfold (content : jsstring) (st0 : ParserState) :
  parse content st0
  = (let! metadata := parseMetadata in
     let! sections := parseSections in
     ret {| metadata := metadata; sections := sections |})
      {| lines := split newline content; currentLine := 0 |}.
Proof. reflexivity. Qed.

(** [parse] ends on every input: it returns a document or throws. *)
Lemma parse_ends (content : jsstring) (st0 : ParserState) :
  parse content st0 <> Unfinished.
Proof.
  rewrite parse_unfold.
  assert (H : progresses 0
    (let! metadata := parseMetadata in
     let! sections := parseSections in
     ret {| metadata := metadata; sections := sections |})).
  { apply (progresses_bind 0 0); [apply progresses_parseMetadata|]. intros m.
    apply (progresses_bind 0 0); [apply progresses_parseSections|]. intros s.
    apply progresses_ret. }
  specialize (H {| lines := split newline content; currentLine := 0 |}).
  unfold finishesAt in H. intros E. rewrite E in H. exact H.
Qed.

(** ** The loops, one iteration at a time *)

(** One iteration of the loop of [parseSection], spelled out. *)
Lemma parseSectionLoop_step (fuel : nat) (acc : list Phrase) (g : option jsnum)
    (st : ParserState) :
  parseSectionLoop (S fuel) acc g st
  = if Nat.ltb (currentLine st) (length (lines st)) then
      let l := trimmedAt (lines st) (currentLine st) in
      if eqb l [] then parseSectionLoop fuel acc g (advanced st)
      else if startsWith l [hash] then parseSectionLoop fuel acc g (advanced st)
      else if startsWith l gatiMarker then
        parseSectionLoop fuel acc (Some (parseInt10 (trim (substring 6 l)))) (advanced st)
      else if isHeader l then Returned (acc, g) st
      else if includes l bar then
        match parsePhrase st with
        | Returned p st' => parseSectionLoop fuel (acc ++ [p]) g st'
        | Thrown e st' => Thrown e st'
        | Unfinished => Unfinished
        end
      else Thrown (UnexpectedContentInSection (currentLine st + 1)) st
    else Returned (acc, g) st.
Proof.
  cbn [parseSectionLoop].
  unfold bind at 1. unfold inRange.
  destruct (Nat.ltb (currentLine st) (length (lines st))) eqn:Hr; [|reflexivity].
  unfold bind at 1. unfold currentLineTrimmed. rewrite Hr.
  unfold trimmedAt. rewrite Hr. cbv zeta.
  destruct (eqb _ []); [reflexivity|].
  destruct (startsWith _ [hash]); [reflexivity|].
  destruct (startsWith _ gatiMarker); [reflexivity|].
  destruct (isHeader _); [reflexivity|].
  destruct (includes _ bar); reflexivity.
Qed.

(** One iteration of the loop of [parseSections]. *)
Lemma parseSectionsLoop_step (fuel : nat) (acc : list Section_) (st : ParserState) :
  parseSectionsLoop (S fuel) acc st
  = if Nat.ltb (currentLine st) (length (lines st)) then
      let l := trimmedAt (lines st) (currentLine st) in
      if isHeader l then
        match parseSection st with
        | Returned s st' => parseSectionsLoop fuel (acc ++ [s]) st'
        | Thrown e st' => Thrown e st'
        | Unfinished => Unfinished
        end
      else if nonEmpty (trim l) && negb (startsWith l [hash])
      then Thrown (UnexpectedContent (currentLine st + 1)) st
      else parseSectionsLoop fuel acc (advanced st)
    else Returned acc st.
Proof.
  cbn [parseSectionsLoop].
  unfold bind at 1. unfold inRange.
  destruct (Nat.ltb (currentLine st) (length (lines st))) eqn:Hr; [|reflexivity].
  unfold bind at 1. unfold currentLineTrimmed. rewrite Hr.
  unfold trimmedAt. rewrite Hr. cbv zeta.
  destruct (isHeader _); [reflexivity|].
  destruct (_ && _); reflexivity.
Qed.

(** [parseSection] is its loop run on the line after the header. *)
Lemma parseSection_unfold (st : ParserState) :
  parseSection st
  = match parseSectionLoop (S (length (lines st) - S (currentLine st))) [] None
            (advanced st) with
    | Returned body st' =>
        Returned {| name := slice 1 1 (trimmedAt (lines st) (currentLine st));
                    phrases := fst body;
                    section_line_number := currentLine st + 1;
                    section_gati := snd body |} st'
    | Thrown e st' => Thrown e st'
    | Unfinished => Unfinished
    end.
Proof.
  unfold parseSection, bind, currentLineTrimmed, getCurrentLine, advanceLine, bounded, ret.
  reflexivity.
Qed.

(** C3: on every input [validate] returns a list of diagnostics.  Either
    [parse] built a document and the list is what the document checks give
    (possibly none), or [parse] threw and the list is one diagnostic of
    severity error. *)
Theorem validate_always_returns (content : jsstring) (st0 : ParserState) :
  exists issues st,
    validate content st0 = Returned issues st
    /\ ((exists d, parse content st0 = Returned d st /\ issues = validateDocument d)
        \/ (exists e, parse content st0 = Thrown e st
                      /\ issues = [errorIssue e (currentLine st + 1)]
                      /\ Exists (fun i => severity i = error) issues)).
Proof.
  unfold validate. pose proof (parse_ends content st0) as Hend.
  destruct (parse content st0) as [d st|e st|]; [| |congruence].
  - exists (validateDocument d), st. split; [reflexivity|]. left. eauto.
  - exists [errorIssue e (currentLine st + 1)], st. split; [reflexivity|].
    right. exists e. repeat split. constructor. reflexivity.
Qed.

(** C9: the outcome of [parse], and of [validate], is a function of the
    text alone.  Both fields of the parser object are overwritten before
    they are read, so whatever state earlier calls left behind has no
    influence, and two calls on one text give the same document, the same
    error, and leave the same state. *)
Theorem parse_ignores_history (content : jsstring) (st1 st2 : ParserState) :
  parse content st1 = parse content st2
  /\ validate content st1 = validate content st2.
Proof.
  assert (H : parse content st1 = parse content st2)
    by (now rewrite !parse_unfold).
  split; [exact H|]. unfold validate. now rewrite H.
Qed.

(** ** Beat-marker misalignment *)

Section Misalignment.

Variable st : ParserState.

Let i := currentLine st.
Let l0 := trimmedAt (lines st) i.
Let l1 := trimmedAt (lines st) (S i).
Let st2 := {| lines := lines st; currentLine := S (S i) |}.

Hypothesis Hgati : startsWith l0 gatiMarker = false.
Hypothesis Hbeats :
  beatPositions (parseNotationLine l0) <> beatPositions (parseNotationLine l1).

Lemma parsePhrase_misaligned :
  parsePhrase st = Thrown (BeatMarkersMisaligned (i + 1)) st2.
Proof.
  unfold parsePhrase, bind, getCurrentLine, currentLineTrimmed, advanceLine, ret, throw.
  cbn [lines currentLine].
  fold (trimmedAt (lines st) (currentLine st)). fold i. fold l0. rewrite Hgati.
  fold (trimmedAt (lines st) (S i)). fold l1.
  rewrite (bool_decide_eq_false_2 _ Hbeats). reflexivity.
Qed.

Hypothesis Hrange : (i < length (lines st))%nat.
Hypothesis Hblank : eqb l0 [] = false.
Hypothesis Hcomment : startsWith l0 [hash] = false.
Hypothesis Hheader : isHeader l0 = false.
Hypothesis Hbar : includes l0 bar = true.

Lemma parseSectionLoop_misaligned (fuel : nat) (acc : list Phrase) (g : option jsnum) :
  parseSectionLoop (S fuel) acc g st = Thrown (BeatMarkersMisaligned (i + 1)) st2.
Proof.
  cbn [parseSectionLoop]. unfold bind at 1. unfold inRange.
  apply Nat.ltb_lt in Hrange. fold i. rewrite Hrange.
  unfold bind at 1. unfold currentLineTrimmed. fold i. rewrite Hrange.
  replace (trim (default [] (lines st !! i))) with l0
    by (unfold l0, trimmedAt; now rewrite Hrange).
  rewrite Hblank, Hcomment, Hgati, Hheader, Hbar.
  unfold bind. now rewrite parsePhrase_misaligned.
Qed.

End Misalignment.

Lemma validate_of_thrown (content : jsstring) (st0 st : ParserState) (e : Message) :
  parse content st0 = Thrown e st ->
  validate content st0 = Returned [errorIssue e (currentLine st + 1)] st.
Proof. intros H. unfold validate. now rewrite H. Qed.

Lemma startsPhrase_tests (l : jsstring) :
  startsPhrase l = true ->
  eqb l [] = false /\ startsWith l [hash] = false /\ startsWith l gatiMarker = false
  /\ isHeader l = false /\ includes l bar = true.
Proof.
  unfold startsPhrase, skippedInSection.
  destruct (eqb l []), (startsWith l [hash]), (startsWith l gatiMarker),
    (isHeader l), (includes l bar); simpl; intros H; try discriminate; auto.
Qed.

(** A line without a bar where the loop of [parseSection] expects a
    phrase. *)
Lemma parseSectionLoop_unexpected (st : ParserState) (fuel : nat) (acc : list Phrase)
    (g : option jsnum) :
  let l := trimmedAt (lines st) (currentLine st) in
  (currentLine st < length (lines st))%nat ->
  skippedInSection l = false ->
  isHeader l = false ->
  includes l bar = false ->
  parseSectionLoop (S fuel) acc g st
  = Thrown (UnexpectedContentInSection (currentLine st + 1)) st.
Proof.
  intros l Hrange Hskip Hheader Hbar. rewrite parseSectionLoop_step.
  apply Nat.ltb_lt in Hrange. rewrite Hrange. cbv zeta. fold l.
  unfold skippedInSection in Hskip.
  destruct (eqb l []); [discriminate|].
  destruct (startsWith l [hash]); [discriminate|].
  destruct (startsWith l gatiMarker); [discriminate|].
  now rewrite Hheader, Hbar.
Qed.

Section Reaching.

Variable ls : list jsstring.
Variable j : nat.
Variable e : Message.
Variable st2 : ParserState.

(** What the loop of [parseSection] does once it stands on index [j]. *)
Hypothesis Hhere :
  forall fuel acc g,
    parseSectionLoop (S fuel) acc g {| lines := ls; currentLine := j |} = Thrown e st2.

Lemma SectionRun_throws (i : nat) :
  SectionRun ls j i ->
  forall fuel acc g,
    enough fuel {| lines := ls; currentLine := i |} ->
    parseSectionLoop fuel acc g {| lines := ls; currentLine := i |} = Thrown e st2.
Proof.
  induction 1 as [|i Hi Hskip _ IH|i p st' Hi Hstart Hp _ IH];
    intros fuel acc g He;
    (destruct fuel as [|fuel]; [unfold enough in He; lia|]).
  - apply Hhere.
  - rewrite parseSectionLoop_step. cbn [lines currentLine].
    apply Nat.ltb_lt in Hi. rewrite Hi. cbv zeta.
    assert (Hnext : forall g', parseSectionLoop fuel acc g'
                      (advanced {| lines := ls; currentLine := i |}) = Thrown e st2).
    { intros g'. apply IH.
      apply Nat.ltb_lt in Hi. unfold enough in *. cbn [lines currentLine] in *. lia. }
    unfold skippedInSection in Hskip. revert Hskip.
    destruct (eqb _ []); [intros _; apply Hnext|].
    destruct (startsWith _ [hash]); [intros _; apply Hnext|].
    destruct (startsWith _ gatiMarker); [intros _; apply Hnext | discriminate].
  - rewrite parseSectionLoop_step. cbn [lines currentLine].
    pose proof Hi as Hi'. apply Nat.ltb_lt in Hi'. rewrite Hi'. cbv zeta.
    destruct (startsPhrase_tests _ Hstart) as (H1 & H2 & H3 & H4 & H5).
    rewrite H1, H2, H3, H4, H5, Hp.
    pose proof (progresses_parsePhrase {| lines := ls; currentLine := i |}) as Hprog.
    unfold finishesAt in Hprog. rewrite Hp in Hprog. cbn [lines currentLine] in Hprog.
    destruct Hprog as [Hl Hc]. destruct st' as [ls' i']. cbn [lines currentLine] in *.
    subst ls'. apply IH.
    unfold enough in *. cbn [lines currentLine] in *. lia.
Qed.

Lemma BodyRun_throws (i : nat) :
  BodyRun ls j i ->
  forall fuel acc,
    enough fuel {| lines := ls; currentLine := i |} ->
    parseSectionsLoop fuel acc {| lines := ls; currentLine := i |} = Thrown e st2.
Proof.
  induction 1 as [i Hi Hskip _ IH|i s st' Hi Hhead Hs _ IH|i Hi Hhead Hrun];
    intros fuel acc He;
    (destruct fuel as [|fuel]; [unfold enough in He; lia|]);
    rewrite parseSectionsLoop_step; cbn [lines currentLine];
    pose proof Hi as Hi'; apply Nat.ltb_lt in Hi'; rewrite Hi'; cbv zeta.
  - unfold skippedOutside in Hskip. revert Hskip.
    destruct (isHeader _); [discriminate|].
    destruct (nonEmpty _ && negb (startsWith _ [hash])); [discriminate|]. intros _.
    apply IH.
    unfold enough in *. cbn [lines currentLine] in *. lia.
  - rewrite Hhead, Hs.
    pose proof (progresses_parseSection {| lines := ls; currentLine := i |}) as Hprog.
    unfold finishesAt in Hprog. rewrite Hs in Hprog. cbn [lines currentLine] in Hprog.
    destruct Hprog as [Hl Hc]. destruct st' as [ls' i']. cbn [lines currentLine] in *.
    subst ls'. apply IH.
    unfold enough in *. cbn [lines currentLine] in *. lia.
  - rewrite Hhead, parseSection_unfold. cbn [lines currentLine].
    unfold advanced. cbn [lines currentLine].
    rewrite (SectionRun_throws _ Hrun); [reflexivity|].
    unfold enough. cbn [lines currentLine]. lia.
Qed.

End Reaching.

(** C1, as the code has it.  Take any text whose frontmatter is read and in
    whose body the parser, with every earlier section and phrase parsed,
    comes inside a section to line index [j], the first line of a phrase:
    a line that is not blank, no comment, no gati marker and no section
    header.  If that line and the line after it give different beat
    positions, [parse] throws and builds no document.  The error is the
    misalignment error when the first line holds a bar, and the error for
    unexpected content in a section when it holds none, the parser taking
    only a line with a bar for a swara line; either names line [j + 1], the
    first line of the phrase.  [validate] returns one diagnostic of
    severity error carrying that error, and nothing else. *)
Theorem misaligned_phrase_aborts
    (content : jsstring) (st0 st1 : ParserState) (m : gmap jsstring MetaValue) (j : nat) :
  let ls := split newline content in
  let l := trimmedAt ls j in
  let e := if includes l bar
           then BeatMarkersMisaligned (j + 1)
           else UnexpectedContentInSection (j + 1) in
  parseMetadata {| lines := ls; currentLine := 0 |} = Returned m st1 ->
  BodyRun ls j (currentLine st1) ->
  (j < length ls)%nat ->
  skippedInSection l = false ->
  isHeader l = false ->
  beatPositions (parseNotationLine l)
  <> beatPositions (parseNotationLine (trimmedAt ls (S j))) ->
  exists st2 ln,
    parse content st0 = Thrown e st2
    /\ validate content st0 = Returned [errorIssue e ln] st2.
Proof.
  intros ls l e Hmeta Hrun Hrange Hskip Hheader Hbeats.
  assert (Hhere : exists st2, forall fuel acc g,
    parseSectionLoop (S fuel) acc g {| lines := ls; currentLine := j |} = Thrown e st2).
  { unfold e. destruct (includes l bar) eqn:Hbar.
    - exists {| lines := ls; currentLine := S (S j) |}. intros fuel acc g.
      unfold skippedInSection in Hskip. fold l in Hskip.
      destruct (eqb l []) eqn:H1; [discriminate|].
      destruct (startsWith l [hash]) eqn:H2; [discriminate|].
      destruct (startsWith l gatiMarker) eqn:H3; [discriminate|].
      now apply (parseSectionLoop_misaligned {| lines := ls; currentLine := j |}).
    - exists {| lines := ls; currentLine := j |}. intros fuel acc g.
      now apply (parseSectionLoop_unexpected {| lines := ls; currentLine := j |}). }
  destruct Hhere as [st2 Hhere].
  assert (Hparse : parse content st0 = Thrown e st2).
  { rewrite parse_unfold. fold ls. unfold bind at 1. rewrite Hmeta.
    unfold bind at 1. unfold parseSections, bounded.
    pose proof (progresses_parseMetadata {| lines := ls; currentLine := 0 |}) as Hprog.
    unfold finishesAt in Hprog. rewrite Hmeta in Hprog. cbn [lines] in Hprog.
    destruct Hprog as [Hl _]. destruct st1 as [ls1 i1]. cbn [lines currentLine] in *.
    subst ls1.
    rewrite (BodyRun_throws ls j e st2 Hhere i1 Hrun); [reflexivity|].
    unfold enough. cbn [lines currentLine]. lia. }
  exists st2, (currentLine st2 + 1)%nat.
  split; [exact Hparse | now apply validate_of_thrown].
Qed.

(** The theorem at work, once where the first line of the phrase holds a
    bar and once where it holds none. *)
Lemma misaligned_phrase_aborts_witness :
  (exists st2 ln,
     parse Samples.misalignedLate newParser = Thrown (BeatMarkersMisaligned 15) st2
     /\ validate Samples.misalignedLate newParser
        = Returned [errorIssue (BeatMarkersMisaligned 15) ln] st2)
  /\ (exists st2 ln,
        parse Samples.unbarred newParser = Thrown (UnexpectedContentInSection 7) st2
        /\ validate Samples.unbarred newParser
           = Returned [errorIssue (UnexpectedContentInSection 7) ln] st2).
Proof.
  split.
  - refine (misaligned_phrase_aborts Samples.misalignedLate newParser
              {| lines := split newline Samples.misalignedLate; currentLine := 5 |}
              _ 14 _ _ _ _ _ _).
    + vm_compute. reflexivity.
    + cbn [currentLine].
      apply body_skip; [vm_compute; lia | vm_compute; reflexivity|].
      eapply body_section; [vm_compute; lia | vm_compute; reflexivity
                           | vm_compute; reflexivity|].
      cbn [currentLine].
      apply body_enter; [vm_compute; lia | vm_compute; reflexivity|].
      eapply run_phrase; [vm_compute; lia | vm_compute; reflexivity
                         | vm_compute; reflexivity|].
      cbn [currentLine].
      apply run_skip; [vm_compute; lia | vm_compute; reflexivity|].
      apply run_here.
    + vm_compute. lia.
    + vm_compute. reflexivity.
    + vm_compute. reflexivity.
    + vm_compute. discriminate.
  - refine (misaligned_phrase_aborts Samples.unbarred newParser
              {| lines := split newline Samples.unbarred; currentLine := 5 |}
              _ 6 _ _ _ _ _ _).
    + vm_compute. reflexivity.
    + cbn [currentLine].
      apply body_enter; [vm_compute; lia | vm_compute; reflexivity|].
      apply run_here.
    + vm_compute. lia.
    + vm_compute. reflexivity.
    + vm_compute. reflexivity.
    + vm_compute. discriminate.
Defined.

Example misaligned_message_text :
  renderMessage (BeatMarkersMisaligned 15)
  = Some (str "Beat markers misaligned at line 15").
Proof. reflexivity. Qed.

(** C1 as stated fails: on [Samples.misaligned] the parse is aborted and
    no document is built, the one diagnostic has line 9 while the phrase
    starts on line 7, and the length mismatches of the sibling phrase and of
    the sibling section, which [Samples.realigned] shows, go unreported. *)
Lemma misaligned_counterexample :
  (~ exists d st, parse Samples.misaligned newParser = Returned d st)
  /\ (exists st,
        parse Samples.misaligned newParser = Thrown (BeatMarkersMisaligned 7) st
        /\ validate Samples.misaligned newParser
           = Returned [errorIssue (BeatMarkersMisaligned 7) 9] st)
  /\ (exists st,
        validate Samples.realigned newParser
        = Returned
            [errorIssue (TokenLengthMismatch 1 (str "SR") 2 (str "a") 1) 10;
             errorIssue (TokenLengthMismatch 2 (str "GM") 2 (str "bcd") 3) 10;
             errorIssue (TokenLengthMismatch 1 (str "P") 1 (str "pa") 2) 13] st).
Proof.
  split; [|split].
  - intros (d & st & H). vm_compute in H. discriminate.
  - eexists. split; vm_compute; reflexivity.
  - eexists. vm_compute. reflexivity.
Qed.

(** ** The scenario of the specification *)

(** C5: the scenario parses into the title Test, one section pallavi with
    one phrase of the four swara tokens and four lyric tokens listed, beat
    positions [2], and [validate] returns no diagnostic at all. *)
Theorem scenario_parses :
  exists d st,
    parse Samples.scenario newParser = Returned d st
    /\ metadata d !! k_title = Some (VString (str "Test"))
    /\ map name (sections d) = [str "pallavi"]
    /\ map (fun s => map (fun p => (swaras p, sahitya p, beat_positions p)) (phrases s))
         (sections d)
       = [[([str "G,G,"; str "R,,,"; str "SSRR"; str "GGRR"],
            [str "ninn"; str "uk" ++ [333] ++ str "-"; str "ri--"; str "----"],
            [2%nat])]]
    /\ validate Samples.scenario newParser = Returned [] st.
Proof.
  do 2 eexists. split; [vm_compute; reflexivity|].
  repeat split; vm_compute; reflexivity.
Qed.

(** ** Token lengths *)

Section TokenLengths.

Lemma foldl_append {X Y} (f : list X -> Y -> list X) (g : Y -> list X) :
  (forall acc y, f acc y = acc ++ g y) ->
  forall ys acc, foldl f acc ys = acc ++ flat_map g ys.
Proof.
  intros Hf. induction ys as [|y ys IH]; intros acc; simpl.
  - now rewrite app_nil_r.
  - rewrite IH, Hf. now rewrite <- app_assoc.
Qed.

Lemma checkTokenLength_append (p : Phrase) (acc : list ValidationIssue) (i : nat) :
  checkTokenLength p acc i = acc ++ checkTokenLength p [] i.
Proof.
  unfold checkTokenLength, push. destruct (negb _); simpl; [reflexivity|].
  now rewrite app_nil_r.
Qed.

Lemma validatePhrase_append (acc : list ValidationIssue) (p : Phrase) :
  validatePhrase acc p = acc ++ validatePhrase [] p.
Proof.
  unfold validatePhrase, push. destruct (negb _); [reflexivity|].
  rewrite !(foldl_append _ _ (checkTokenLength_append p)). reflexivity.
Qed.

Lemma validateSection_append (acc : list ValidationIssue) (s : Section_) :
  validateSection acc s = acc ++ flat_map (validatePhrase []) (phrases s).
Proof. unfold validateSection. apply (foldl_append _ _ validatePhrase_append). Qed.

Lemma validateDocument_unfold (d : VnaDocument) :
  validateDocument d
  = checkGati (metadata d) (checkTempo (metadata d) [])
    ++ flat_map (fun s => flat_map (validatePhrase []) (phrases s)) (sections d).
Proof.
  unfold validateDocument.
  apply (foldl_append validateSection
           (fun s => flat_map (validatePhrase []) (phrases s))).
  intros acc s. apply validateSection_append.
Qed.

Lemma lengthsDiffer_app (a b : list ValidationIssue) :
  lengthsDiffer a -> lengthsDiffer b -> lengthsDiffer (a ++ b).
Proof. intros Ha Hb. apply Forall_app. now split. Qed.

Lemma lengthsDiffer_flat_map {X} (f : X -> list ValidationIssue) (xs : list X) :
  (forall x, lengthsDiffer (f x)) -> lengthsDiffer (flat_map f xs).
Proof.
  intros Hf. induction xs as [|x xs IH]; simpl; [constructor|].
  apply lengthsDiffer_app; auto.
Qed.

Lemma lengthsDiffer_checkTokenLength (p : Phrase) (i : nat) :
  lengthsDiffer (checkTokenLength p [] i).
Proof.
  unfold checkTokenLength, push.
  destruct (Nat.eqb_spec (length (default [] (swaras p !! i)))
              (length (default [] (sahitya p !! i)))) as [E|E]; simpl.
  - constructor.
  - constructor; [|constructor]. simpl. intros j sw swl sa sal H.
    injection H as _ _ <- _ <-. exact E.
Qed.

Lemma lengthsDiffer_validatePhrase (p : Phrase) : lengthsDiffer (validatePhrase [] p).
Proof.
  unfold validatePhrase, push. destruct (negb _); simpl.
  - constructor; [|constructor]. simpl. discriminate.
  - rewrite (foldl_append _ _ (checkTokenLength_append p)). simpl.
    apply lengthsDiffer_flat_map. intros. apply lengthsDiffer_checkTokenLength.
Qed.

Lemma lengthsDiffer_metadata (m : gmap jsstring MetaValue) :
  lengthsDiffer (checkGati m (checkTempo m [])).
Proof.
  unfold checkGati, checkTempo, push.
  destruct (numberField m k_tempo) as [t|], (numberField m k_gati) as [g|]; simpl;
    repeat match goal with |- context [if ?b then _ else _] => destruct b end;
    simpl; repeat constructor; simpl; discriminate.
Qed.

Lemma lengthsDiffer_validateDocument (d : VnaDocument) :
  lengthsDiffer (validateDocument d).
Proof.
  rewrite validateDocument_unfold.
  apply lengthsDiffer_app; [apply lengthsDiffer_metadata|].
  apply lengthsDiffer_flat_map. intros s.
  apply lengthsDiffer_flat_map. intros p. apply lengthsDiffer_validatePhrase.
Qed.

(** C2, as the code has it: for a phrase of a document whose two token
    lists have the same length, and any index [i] (rest and sustain tokens
    included), [validate] emits the error naming position [i + 1], both
    token texts and both lengths exactly when the two tokens differ in
    their number of code units. *)
Theorem token_length_diagnostic
    (d : VnaDocument) (s : Section_) (p : Phrase) (i : nat) (sw sa : jsstring) :
  In s (sections d) -> In p (phrases s) ->
  length (swaras p) = length (sahitya p) ->
  swaras p !! i = Some sw -> sahitya p !! i = Some sa ->
  In (lengthIssue p i sw sa) (validateDocument d) <-> length sw <> length sa.
Proof.
  intros Hs Hp Hlen Hsw Hsa. split.
  - intros Hin. pose proof (lengthsDiffer_validateDocument d) as Hall.
    unfold lengthsDiffer in Hall. rewrite List.Forall_forall in Hall.
    exact (Hall _ Hin _ _ _ _ _ eq_refl).
  - intros Hne. rewrite validateDocument_unfold.
    apply in_or_app. right.
    apply in_flat_map. exists s. split; [exact Hs|].
    apply in_flat_map. exists p. split; [exact Hp|].
    unfold validatePhrase. rewrite Hlen, Nat.eqb_refl. simpl.
    rewrite (foldl_append _ _ (checkTokenLength_append p)). simpl.
    apply in_flat_map. exists i. split.
    + apply in_seq. apply lookup_lt_Some in Hsa. lia.
    + unfold checkTokenLength. rewrite Hsw, Hsa. simpl.
      apply Nat.eqb_neq in Hne. rewrite Hne. simpl. now left.
Qed.

End TokenLengths.

Lemma token_length_diagnostic_witness :
  In (lengthIssue restPhrase 0 (str "-") (str "ab")) (validateDocument restDocument).
Proof.
  refine (proj2 (token_length_diagnostic restDocument restSection restPhrase 0
                   (str "-") (str "ab") _ _ _ _ _) _).
  - simpl. now left.
  - simpl. now left.
  - reflexivity.
  - reflexivity.
  - reflexivity.
  - vm_compute. lia.
Defined.

Example token_length_message_text :
  renderMessage (TokenLengthMismatch 1 (str "SR") 2 (str "a`b") 3)
  = Some (str "Token length mismatch at position 1: " ++ [quote] ++ str "SR" ++ [quote]
            ++ str " (2) vs " ++ [quote] ++ str "a`b" ++ [quote] ++ str " (3)").
Proof. reflexivity. Qed.

(** C2 as stated fails, both ways.  Under the two-letter swara token SR the
    lyric token with one boundary marker tokenizes into two syllable units,
    so the two counts of the claim agree, yet [validate] reports a length
    mismatch of 2 against 3.  In the scenario of the specification the
    lyric token under SSRR tokenizes into three units against four
    characters, yet [validate] reports nothing. *)
Lemma token_length_counterexample :
  (length (str "SR") = Sahitya.unitCount (str "a`b")
   /\ exists st,
        validate Samples.marked newParser
        = Returned [errorIssue (TokenLengthMismatch 1 (str "SR") 2 (str "a`b") 3) 8] st)
  /\ (length (str "SSRR") <> Sahitya.unitCount (str "ri--")
      /\ exists st, validate Samples.scenario newParser = Returned [] st).
Proof.
  split; (split; [vm_compute; lia|]); eexists; vm_compute; reflexivity.
Qed.

(** ** The frontmatter *)

Section Frontmatter.

Lemma eqb_eq (a b : jsstring) : eqb a b = true <-> a = b.
Proof.
  revert b. induction a as [|x a IH]; intros [|y b]; simpl; try (split; congruence).
  rewrite andb_true_iff, N.eqb_eq, IH. split; [intros [-> ->]|intros [= -> ->]]; auto.
Qed.

Lemma drop_lookup_cons {X} (l : list X) (i : nat) (x : X) :
  l !! i = Some x -> drop i l = x :: drop (S i) l.
Proof.
  revert i. induction l as [|y l IH]; intros [|i]; simpl; try discriminate.
  - now intros [= ->].
  - apply IH.
Qed.

Lemma readYamlLines_step (fuel : nat) (acc : list jsstring) (st : ParserState) :
  readYamlLines (S fuel) acc st
  = if Nat.ltb (currentLine st) (length (lines st))
    then (if eqb (trim (default [] (lines st !! currentLine st))) delimiter
          then Returned acc (advanced st)
          else readYamlLines fuel (acc ++ [default [] (lines st !! currentLine st)])
                 (advanced st))
    else Returned acc st.
Proof.
  cbn [readYamlLines]. unfold bind, inRange, rawLine, advanceLine, ret, advanced.
  destruct (Nat.ltb _ _); [|reflexivity].
  destruct (eqb _ delimiter); reflexivity.
Qed.

Lemma readYamlLines_spec (fuel : nat) :
  forall acc st,
    enough fuel st ->
    readYamlLines fuel acc st
    = Returned (acc ++ fst (yamlBlock (drop (currentLine st) (lines st))))
        {| lines := lines st;
           currentLine := currentLine st + snd (yamlBlock (drop (currentLine st) (lines st))) |}.
Proof.
  induction fuel as [|fuel IH]; intros acc [ls i] He; [unfold enough in He; lia|].
  rewrite readYamlLines_step. cbn [lines currentLine].
  destruct (Nat.ltb_spec i (length ls)) as [Hlt|Hge].
  - destruct (lookup_lt_is_Some_2 ls i Hlt) as [l Hl].
    rewrite Hl, (drop_lookup_cons _ _ _ Hl).
    change (default [] (Some l)) with l. cbn [yamlBlock].
    destruct (eqb (trim l) delimiter); cbn [fst snd].
    + rewrite app_nil_r, Nat.add_1_r. reflexivity.
    + rewrite IH by (unfold enough, advanced in *; cbn [lines currentLine] in *; lia).
      unfold advanced. cbn [lines currentLine].
      rewrite <- app_assoc, Nat.add_succ_r. reflexivity.
  - rewrite drop_ge by lia. cbn [yamlBlock fst snd].
    rewrite app_nil_r, Nat.add_0_r. reflexivity.
Qed.

(** [parseMetadata] in closed form. *)
Lemma parseMetadata_spec (st : ParserState) :
  let block := yamlBlock (drop (S (currentLine st)) (lines st)) in
  let m := foldl applyYamlLine ∅ (fst block) in
  let st' := {| lines := lines st; currentLine := S (currentLine st) + snd block |} in
  parseMetadata st
  = if negb (startsWith (trimmedAt (lines st) (currentLine st)) delimiter)
    then Thrown MissingFrontmatter st
    else if requiredMissing m then Thrown MissingRequiredFields st'
         else Returned m st'.
Proof.
  intros block m st'. unfold parseMetadata, currentLineStartsWith.
  unfold bind at 1. unfold bind at 1. unfold currentLineTrimmed, ret.
  fold (trimmedAt (lines st) (currentLine st)).
  destruct (negb (startsWith _ delimiter)); [reflexivity|].
  unfold bind at 1. unfold advanceLine at 1.
  unfold bind at 1. unfold bounded.
  rewrite readYamlLines_spec by (unfold enough; lia).
  cbn [lines currentLine app]. fold block. fold m. fold st'.
  destruct (requiredMissing m); reflexivity.
Qed.

(** Without an opening delimiter, or with a
    required field absent or empty among the lines read, [parse] throws and
    no document is built. *)
Lemma parse_rejects_frontmatter (content : jsstring) (st0 : ParserState) :
  let ls := split newline content in
  startsWith (trimmedAt ls 0) delimiter = false
  \/ requiredMissing (foldl applyYamlLine ∅ (fst (yamlBlock (drop 1 ls)))) = true ->
  exists e st, parse content st0 = Thrown e st
               /\ (e = MissingFrontmatter \/ e = MissingRequiredFields).
Proof.
  intros ls H. rewrite parse_unfold. unfold bind. rewrite parseMetadata_spec.
  cbn [lines currentLine]. fold ls.
  destruct (startsWith (trimmedAt ls 0) delimiter); cbn [negb]; [|eauto].
  destruct H as [H|H]; [discriminate|]. rewrite H. eauto.
Qed.

(** C4 at the failing input: a frontmatter that is never closed is read to
    the end of the text and [parse] returns a document with the metadata
    and no section; [validate] has nothing to report. *)
Theorem unclosed_frontmatter_parses :
  exists d st,
    parse Samples.unclosed newParser = Returned d st
    /\ metadata d !! k_title = Some (VString (str "Test"))
    /\ metadata d !! k_raga = Some (VString (str "mohanam"))
    /\ metadata d !! k_tala = Some (VString (str "adi"))
    /\ sections d = []
    /\ validate Samples.unclosed newParser = Returned [] st.
Proof.
  do 2 eexists. split; [vm_compute; reflexivity|].
  repeat split; vm_compute; reflexivity.
Qed.

(** The older parser, on the same text, throws: it looks for the second
    delimiter before reading anything. *)
Lemma legacy_rejects_unclosed :
  Legacy.parseMetadata (split newline Samples.unclosed)
  = inl Legacy.MissingMetadataSection.
Proof. vm_compute. reflexivity. Qed.

Lemma legacy_reads_closed :
  exists m,
    Legacy.parseMetadata (split newline Samples.scenario) = inr m
    /\ m !! k_title = Some (VString (str "Test"))
    /\ m !! k_raga = Some (VString (str "mohanam"))
    /\ m !! k_tala = Some (VString (str "adi")).
Proof. eexists. split; [vm_compute; reflexivity|]. repeat split; vm_compute; reflexivity. Qed.

Lemma missing_raga_rejected :
  exists st, parse Samples.noRaga newParser = Thrown MissingRequiredFields st.
Proof. eexists. vm_compute. reflexivity. Qed.

End Frontmatter.

(** ** Non-numeric [tempo] and [gati] *)

Section NumericFields.

Lemma numeric_key_not_proto (key : jsstring) :
  key = k_tempo \/ key = k_gati -> eqb key (str "__proto__") = false.
Proof. intros [->| ->]; reflexivity. Qed.

Lemma setProperty_lookup_other (m : gmap jsstring MetaValue) (key key' : jsstring)
    (v : MetaValue) :
  key' <> key -> setProperty m key' v !! key = m !! key.
Proof.
  intros Hne. unfold setProperty. destruct (eqb key' _); [reflexivity|].
  now apply lookup_insert_ne.
Qed.

Lemma applyYamlLine_other (m : gmap jsstring MetaValue) (l key : jsstring) :
  (forall v, matchYamlLine l <> Some (key, v)) ->
  applyYamlLine m l !! key = m !! key.
Proof.
  intros Hno. unfold applyYamlLine.
  destruct (matchYamlLine l) as [[key' v]|]; [|reflexivity].
  assert (key' <> key) by (intros ->; now apply (Hno v)).
  destruct (_ || _); now apply setProperty_lookup_other.
Qed.

Lemma foldl_applyYamlLine_other (key : jsstring) (ls : list jsstring) :
  Forall (fun l => forall v, matchYamlLine l <> Some (key, v)) ls ->
  forall m, foldl applyYamlLine m ls !! key = m !! key.
Proof.
  induction 1 as [|l ls Hl _ IH]; intros m; simpl; [reflexivity|].
  now rewrite IH, applyYamlLine_other.
Qed.

Lemma applyYamlLine_number (m : gmap jsstring MetaValue) (l key value : jsstring) :
  key = k_tempo \/ key = k_gati ->
  matchYamlLine l = Some (key, value) ->
  applyYamlLine m l !! key = Some (VNumber (parseInt10 value)).
Proof.
  intros Hkey Hmatch. unfold applyYamlLine. rewrite Hmatch.
  assert (E : eqb key k_tempo || eqb key k_gati = true)
    by (destruct Hkey as [->| ->]; reflexivity).
  rewrite E. unfold setProperty. rewrite (numeric_key_not_proto _ Hkey).
  apply lookup_insert_eq.
Qed.

(** [parseInt(s, 10)] gives [NaN] exactly when [s], after its leading
    white space and one optional sign, does not start with a decimal
    digit. *)
Lemma parseInt10_nan_iff (s : jsstring) :
  parseInt10 s = NaN
  <-> match trimStart s with
      | [] => True
      | c :: r =>
          if N.eqb c 45 || N.eqb c 43
          then match r with [] => True | d :: _ => isDigit d = false end
          else isDigit c = false
      end.
Proof.
  unfold parseInt10. destruct (trimStart s) as [|c r]; [simpl; tauto|].
  destruct (N.eqb_spec c 45) as [->|H45]; cbn [orb].
  { destruct r as [|d r']; [simpl; tauto|]. cbn [takeWhile].
    destruct (isDigit d); split; intros H; (discriminate || reflexivity). }
  destruct (N.eqb_spec c 43) as [->|H43]; cbn [orb].
  { destruct r as [|d r']; [simpl; tauto|]. cbn [takeWhile].
    destruct (isDigit d); split; intros H; (discriminate || reflexivity). }
  cbn [takeWhile]. destruct (isDigit c); split; intros H; (discriminate || reflexivity).
Qed.

(** C8, as the code has it.  Let [l] be the last frontmatter line that
    sets [tempo] (or [gati]), with [value] the text it gives.  Whatever
    [value] is, [parseMetadata] raises nothing on its account: it fails
    only through the check of the three required fields, and otherwise
    returns the metadata with the field holding what [parseInt] reads from
    [value], the number of its leading digits if it has any and [NaN] if it
    has none.  A field that holds [NaN] is passed over by the tempo and
    gati checks of [validate].  The reader of the WASM front end likewise
    stores what [parseInt] reads for the key, on every line that gives it
    one. *)
Theorem non_numeric_field_kept
    (st : ParserState) (pre post : list jsstring) (l key value : jsstring) :
  let block := yamlBlock (drop (S (currentLine st)) (lines st)) in
  let m := foldl applyYamlLine ∅ (pre ++ l :: post) in
  let st' := {| lines := lines st; currentLine := S (currentLine st) + snd block |} in
  startsWith (trimmedAt (lines st) (currentLine st)) delimiter = true ->
  fst block = pre ++ l :: post ->
  key = k_tempo \/ key = k_gati ->
  matchYamlLine l = Some (key, value) ->
  Forall (fun l' => forall v, matchYamlLine l' <> Some (key, v)) post ->
  parseMetadata st
  = (if requiredMissing m then Thrown MissingRequiredFields st' else Returned m st')
  /\ m !! key = Some (VNumber (parseInt10 value))
  /\ (parseInt10 value = NaN ->
      numberField m key = None
      /\ forall issues,
           (if eqb key k_tempo then checkTempo m issues else checkGati m issues) = issues)
  /\ forall (wm : Wasm.Metadata) (wl wv : jsstring),
       Wasm.keyValue wl = Some (key, wv) ->
       (if eqb key k_tempo then Wasm.tempo else Wasm.gati) (Wasm.readLine wm wl)
       = Some (Legacy.parseIntAuto wv).
Proof.
  intros block m st' Hopen Hblock Hkey Hmatch Hpost.
  assert (Hm : m !! key = Some (VNumber (parseInt10 value))).
  { unfold m. rewrite foldl_app. simpl.
    rewrite (foldl_applyYamlLine_other _ _ Hpost).
    now apply applyYamlLine_number. }
  split; [|split; [exact Hm|split]].
  - rewrite parseMetadata_spec. rewrite Hopen. cbn [negb].
    fold block. rewrite Hblock. reflexivity.
  - intros Hnan.
    assert (Hn : numberField m key = None)
      by (unfold numberField; now rewrite Hm, Hnan).
    split; [exact Hn|]. intros issues.
    destruct Hkey as [->| ->]; cbn [eqb k_tempo k_gati str] in *.
    + change (checkTempo m issues = issues). unfold checkTempo. now rewrite Hn.
    + change (checkGati m issues = issues). unfold checkGati. now rewrite Hn.
  - intros wm wl wv Hkv. unfold Wasm.readLine. rewrite Hkv.
    destruct Hkey as [->| ->]; reflexivity.
Qed.

Lemma non_numeric_field_kept_witness :
  exists m st',
    parseMetadata {| lines := split newline Samples.nonNumeric; currentLine := 0 |}
    = Returned m st'
    /\ m !! k_tempo = Some (VNumber NaN)
    /\ numberField m k_tempo = None.
Proof.
  pose proof (non_numeric_field_kept
                {| lines := split newline Samples.nonNumeric; currentLine := 0 |}
                [str "title: " ++ Samples.quoted "Test";
                 str "raga: " ++ Samples.quoted "mohanam";
                 str "tala: " ++ Samples.quoted "adi"]
                [str "gati: " ++ Samples.quoted "tisra"]
                (str "tempo: fast") k_tempo (str "fast")) as H.
  cbv zeta in H.
  destruct H as [Hrun [Hm [Hnan _]]].
  - vm_compute. reflexivity.
  - vm_compute. reflexivity.
  - now left.
  - vm_compute. reflexivity.
  - constructor; [|constructor]. intros v. vm_compute. discriminate.
  - do 2 eexists. split; [|split; [exact Hm | exact (proj1 (Hnan eq_refl))]].
    rewrite Hrun. vm_compute. reflexivity.
Defined.

(** A value that starts with digits is read as their number, whatever
    follows them, and is then checked like any other number. *)
Example digit_prefix_is_read :
  exists d st,
    parse Samples.digitPrefix newParser = Returned d st
    /\ metadata d !! k_tempo = Some (VNumber (Num 500))
    /\ metadata d !! k_gati = Some (VNumber (Num 6))
    /\ validate Samples.digitPrefix newParser
       = Returned [ {| severity := warning; message := UnusualTempo 500; line := 1 |};
                    {| severity := warning; message := UnusualGati 6; line := 1 |} ] st.
Proof.
  do 2 eexists. split; [vm_compute; reflexivity|].
  repeat split; vm_compute; reflexivity.
Qed.

(** C8 as stated fails: with [tempo: fast] and a quoted non-numeric [gati]
    in the frontmatter, [parse] returns a document whose two fields are
    [NaN], and [validate] returns no diagnostic. *)
Lemma non_numeric_counterexample :
  exists d st,
    parse Samples.nonNumeric newParser = Returned d st
    /\ metadata d !! k_tempo = Some (VNumber NaN)
    /\ metadata d !! k_gati = Some (VNumber NaN)
    /\ validate Samples.nonNumeric newParser = Returned [] st.
Proof.
  do 2 eexists. split; [vm_compute; reflexivity|].
  repeat split; vm_compute; reflexivity.
Qed.

End NumericFields.

(** ** Gati overrides *)

Section Gati.

(** Where the section loop hands over to [parsePhrase], the line does not
    start with the gati marker, so the phrase gets no gati of its own. *)
Lemma parsePhrase_without_marker (st st' : ParserState) (p : Phrase) :
  startsWith (trimmedAt (lines st) (currentLine st)) gatiMarker = false ->
  parsePhrase st = Returned p st' ->
  phrase_gati p = None.
Proof.
  intros Hno. unfold parsePhrase.
  unfold bind at 1. unfold getCurrentLine.
  unfold bind at 1. unfold currentLineTrimmed at 1.
  fold (trimmedAt (lines st) (currentLine st)). rewrite Hno.
  unfold bind, ret, currentLineTrimmed, advanceLine, throw. cbn [lines currentLine].
  destruct (negb _); [discriminate|].
  destruct (startsWith _ analysisMarker); intros [= <- _]; reflexivity.
Qed.

Lemma parseSectionLoop_no_phrase_gati (fuel : nat) :
  forall acc g st r st',
    Forall (fun p => phrase_gati p = None) acc ->
    parseSectionLoop fuel acc g st = Returned r st' ->
    Forall (fun p => phrase_gati p = None) (fst r).
Proof.
  induction fuel as [|fuel IH]; intros acc g st r st' Hacc; [discriminate|].
  rewrite parseSectionLoop_step.
  destruct (Nat.ltb _ _); [|intros [= <- _]; exact Hacc].
  cbv zeta.
  destruct (eqb _ []); [now apply IH|].
  destruct (startsWith _ [hash]); [now apply IH|].
  destruct (startsWith _ gatiMarker) eqn:Hg; [now apply IH|].
  destruct (isHeader _); [intros [= <- _]; exact Hacc|].
  destruct (includes _ bar); [|discriminate].
  destruct (parsePhrase st) as [p st1| |] eqn:Hp; [|discriminate|discriminate].
  apply IH. apply Forall_app. split; [exact Hacc|].
  constructor; [|constructor]. exact (parsePhrase_without_marker _ _ _ Hg Hp).
Qed.

Lemma parseSection_no_phrase_gati (st st' : ParserState) (s : Section_) :
  parseSection st = Returned s st' ->
  Forall (fun p => phrase_gati p = None) (phrases s).
Proof.
  unfold parseSection, bind, currentLineTrimmed, getCurrentLine, advanceLine, bounded, ret.
  cbn [lines currentLine].
  match goal with |- context [parseSectionLoop ?f [] None ?s0] =>
    destruct (parseSectionLoop f [] None s0) as [r st1| |] eqn:Hloop end;
    [|discriminate|discriminate].
  intros [= <- _]. cbn [phrases].
  eapply parseSectionLoop_no_phrase_gati; [|exact Hloop]. constructor.
Qed.

Lemma parseSectionsLoop_no_phrase_gati (fuel : nat) :
  forall acc st r st',
    Forall (fun s => Forall (fun p => phrase_gati p = None) (phrases s)) acc ->
    parseSectionsLoop fuel acc st = Returned r st' ->
    Forall (fun s => Forall (fun p => phrase_gati p = None) (phrases s)) r.
Proof.
  induction fuel as [|fuel IH]; intros acc st r st' Hacc; [discriminate|].
  rewrite parseSectionsLoop_step.
  destruct (Nat.ltb _ _); [|intros [= <- _]; exact Hacc].
  cbv zeta. destruct (isHeader _).
  - destruct (parseSection st) as [s st1| |] eqn:Hs; [|discriminate|discriminate].
    apply IH. apply Forall_app. split; [exact Hacc|].
    constructor; [|constructor]. exact (parseSection_no_phrase_gati _ _ _ Hs).
  - destruct (_ && _); [discriminate|]. now apply IH.
Qed.

(** No phrase of a parsed document carries a gati of its own: the marker
    line that [parsePhrase] looks for has always been taken by the loop of
    [parseSection] as a section-level gati. *)
Lemma parse_no_phrase_gati (content : jsstring) (st0 st : ParserState) (d : VnaDocument) :
  parse content st0 = Returned d st ->
  forall s p, In s (sections d) -> In p (phrases s) -> phrase_gati p = None.
Proof.
  rewrite parse_unfold. unfold bind at 1.
  destruct (parseMetadata _) as [m st1| |]; [|discriminate|discriminate].
  unfold bind at 1. unfold parseSections, bounded.
  match goal with |- context [parseSectionsLoop ?f [] ?s0] =>
    destruct (parseSectionsLoop f [] s0) as [r st2| |] eqn:Hloop end;
    [|discriminate|discriminate].
  unfold ret. intros [= <- _] s p Hs Hp. cbn [sections] in Hs.
  apply parseSectionsLoop_no_phrase_gati in Hloop; [|constructor].
  rewrite List.Forall_forall in Hloop. specialize (Hloop s Hs).
  rewrite List.Forall_forall in Hloop. exact (Hloop p Hp).
Qed.

(** Section gati on a sample: document gati 4, section gati 3, no
    line override, and both phrases resolve to 3. *)
Lemma section_gati_applies :
  exists d s st,
    parse Samples.sectionGati newParser = Returned d st
    /\ sections d = [s]
    /\ documentGati d = Num 4
    /\ section_gati s = Some (Num 3)
    /\ map (effectiveGati d s) (phrases s) = [Num 3; Num 3].
Proof.
  do 3 eexists. split; [vm_compute; reflexivity|].
  repeat split; vm_compute; reflexivity.
Qed.

(** C7 at the failing input: with document gati 4, a section gati 3 and a
    gati line 5 written before the second phrase only, the parsed section
    has gati 5, neither phrase has a gati of its own, and both phrases
    resolve to 5. *)
Theorem line_gati_replaces_section_gati :
  exists d s p1 p2 st,
    parse Samples.lineGati newParser = Returned d st
    /\ sections d = [s]
    /\ phrases s = [p1; p2]
    /\ documentGati d = Num 4
    /\ section_gati s = Some (Num 5)
    /\ phrase_gati p1 = None
    /\ phrase_gati p2 = None
    /\ effectiveGati d s p1 = Num 5
    /\ effectiveGati d s p2 = Num 5.
Proof.
  do 5 eexists. split; [vm_compute; reflexivity|].
  repeat split; vm_compute; reflexivity.
Qed.

End Gati.

(** ** The swara tokenizer *)

Section SwaraTokenizer.

Import Swara.

Lemma runLength_split (c : N) (s : jsstring) :
  s = repeat c (runLength c s) ++ drop (runLength c s) s
  /\ head (drop (runLength c s) s) <> Some c.
Proof.
  induction s as [|x s [IH1 IH2]]; simpl; [split; [reflexivity|discriminate]|].
  destruct (N.eqb_spec x c) as [->|Hne]; simpl.
  - split; [now rewrite <- IH1 | exact IH2].
  - split; [reflexivity | congruence].
Qed.

Lemma takeVariant_lookup (token : jsstring) (i : nat) :
  takeVariant (drop (S i) token)
  = match token !! (i + 1)%nat with
    | Some d => if isVariantDigit d
                then (Some d, drop (i + 1 + 1) token) else (None, drop (i + 1) token)
    | None => (None, drop (i + 1) token)
    end.
Proof.
  rewrite !Nat.add_1_r.
  destruct (token !! S i) as [d|] eqn:Hd.
  - rewrite (drop_lookup_cons _ _ _ Hd). simpl.
    destruct (isVariantDigit d); reflexivity.
  - apply lookup_ge_None in Hd. rewrite drop_ge by lia. reflexivity.
Qed.

(** The loop on indices follows the relation on the rest of the token. *)
Lemma scan_tokenizes (fuel : nat) :
  forall token i acc,
    (length token - i < fuel)%nat ->
    exists out, scan fuel token i acc = Some (acc ++ out)
                /\ Tokenizes (drop i token) out.
Proof.
  induction fuel as [|fuel IH]; intros token i acc Hfuel; [lia|].
  cbn [scan]. destruct (token !! i) as [c|] eqn:Hc.
  2:{ exists []. apply lookup_ge_None in Hc. rewrite drop_ge by lia.
      rewrite app_nil_r. split; [reflexivity | constructor]. }
  pose proof (lookup_lt_Some _ _ _ Hc) as Hlt.
  rewrite (drop_lookup_cons _ _ _ Hc).
  destruct (N.eqb_spec c comma) as [->|Hcomma].
  { destruct (IH token (S i) (acc ++ [sustainUnit])) as [out [Hrun Htok]]; [lia|].
    exists (sustainUnit :: out). rewrite Hrun, <- app_assoc.
    split; [reflexivity | now constructor]. }
  destruct (N.eqb_spec c dash) as [->|Hdash].
  { destruct (IH token (S i) (acc ++ [restUnit])) as [out [Hrun Htok]]; [lia|].
    exists (restUnit :: out). rewrite Hrun, <- app_assoc.
    split; [reflexivity | now constructor]. }
  destruct (isSwaraLetter c) eqn:Hletter.
  2:{ destruct (IH token (S i) acc) as [out [Hrun Htok]]; [lia|].
      exists out. split; [exact Hrun | now constructor]. }
  pose proof (takeVariant_lookup token i) as Hv.
  set (vi := match token !! (i + 1)%nat with
             | Some d => if isVariantDigit d then (Some d, (i + 1)%nat) else (None, i)
             | None => (None, i)
             end) in *.
  assert (Hvi : takeVariant (drop (S i) token) = (fst vi, drop (snd vi + 1) token)
                /\ (i <= snd vi)%nat).
  { rewrite Hv. subst vi. destruct (token !! (i + 1)%nat) as [d|];
      [destruct (isVariantDigit d)|]; simpl; split; (reflexivity || lia). }
  destruct vi as [v i1]. cbn [fst snd] in Hvi. destruct Hvi as [Hvar Hi1].
  set (s1 := drop (i1 + 1) token) in *.
  set (dots := runLength dot s1).
  destruct (runLength_split dot s1) as [Hs1 Hhead1]. fold dots in Hs1, Hhead1.
  set (s2 := drop dots s1) in *.
  assert (Hs2 : s2 = drop (i1 + dots + 1) token).
  { subst s2 s1. rewrite drop_drop. f_equal. lia. }
  rewrite <- Hs2.
  set (quotes := match dots with
                 | 1%nat | 2%nat => O
                 | _ => runLength apostrophe s2
                 end).
  assert (Hq : s2 = repeat apostrophe quotes ++ drop quotes s2
               /\ (dots = 1%nat \/ dots = 2%nat -> quotes = O)
               /\ (~ (dots = 1%nat \/ dots = 2%nat) ->
                   head (drop quotes s2) <> Some apostrophe)).
  { destruct (runLength_split apostrophe s2) as [Hsplit Hhead].
    subst quotes. destruct dots as [|[|[|n]]]; simpl.
    - repeat split; [exact Hsplit | intros [?|?]; lia | intros _; exact Hhead].
    - repeat split; tauto.
    - repeat split; tauto.
    - repeat split; [exact Hsplit | intros [?|?]; lia | intros _; exact Hhead]. }
  destruct Hq as [Hs2q [Hq0 Hq3]].
  destruct (IH token (S (i1 + dots + quotes))
              (acc ++ [noteUnit c v (octaveOf dots quotes)])) as [out [Hrun Htok]]; [lia|].
  exists (noteUnit c v (octaveOf dots quotes) :: out).
  rewrite Hrun, <- app_assoc. split; [reflexivity|].
  apply (T_note c (drop (S i) token) v s1 dots quotes (drop quotes s2) out);
    try assumption.
  - rewrite <- Hs2q. exact Hs1.
  - rewrite <- Hs2q. exact Hhead1.
  - replace (drop quotes s2) with (drop (S (i1 + dots + quotes)) token); [exact Htok|].
    rewrite Hs2, drop_drop. f_equal. lia.
Qed.

Lemma countIf_app (p : N -> bool) (a b : jsstring) :
  countIf p (a ++ b) = (countIf p a + countIf p b)%nat.
Proof. unfold countIf. now rewrite List.filter_app, length_app. Qed.

Lemma countIf_repeat_false (p : N -> bool) (c : N) (n : nat) :
  p c = false -> countIf p (repeat c n) = O.
Proof.
  intros Hc. unfold countIf. induction n as [|n IH]; simpl; [reflexivity|].
  now rewrite Hc.
Qed.

Lemma countIf_after_variant (p : N -> bool) (s s1 : jsstring) (v : option N) :
  unitStarter p -> takeVariant s = (v, s1) -> countIf p s = countIf p s1.
Proof.
  intros (_ & _ & Hdigit). unfold takeVariant.
  destruct s as [|d s']; [now intros [= _ <-]|].
  destruct (isVariantDigit d) eqn:Hd; intros [= _ <-]; [|reflexivity].
  unfold countIf. simpl. now rewrite (Hdigit d Hd).
Qed.

(** Characters taken along with a note do not start a unit. *)
Lemma countIf_note (p : N -> bool) c s v s1 d q s3 :
  unitStarter p ->
  takeVariant s = (v, s1) ->
  s1 = repeat dot d ++ repeat apostrophe q ++ s3 ->
  countIf p (c :: s) = ((if p c then 1 else 0) + countIf p s3)%nat.
Proof.
  intros Hp Hv Hs1. pose proof Hp as (Hdot & Hap & _).
  change (c :: s) with ([c] ++ s). rewrite countIf_app.
  rewrite (countIf_after_variant p s s1 v Hp Hv), Hs1, !countIf_app.
  rewrite (countIf_repeat_false p dot d Hdot), (countIf_repeat_false p apostrophe q Hap).
  unfold countIf at 1. simpl. destruct (p c); reflexivity.
Qed.

Lemma unitStarter_dash : unitStarter isDash.
Proof. repeat split. intros d. unfold isVariantDigit, isDash. simpl.
  destruct (N.eqb_spec d 49) as [->|]; [reflexivity|].
  destruct (N.eqb_spec d 50) as [->|]; [reflexivity|].
  destruct (N.eqb_spec d 51) as [->|]; [reflexivity|]. discriminate.
Qed.

Lemma unitStarter_comma : unitStarter isComma.
Proof. repeat split. intros d. unfold isVariantDigit, isComma. simpl.
  destruct (N.eqb_spec d 49) as [->|]; [reflexivity|].
  destruct (N.eqb_spec d 50) as [->|]; [reflexivity|].
  destruct (N.eqb_spec d 51) as [->|]; [reflexivity|]. discriminate.
Qed.

Lemma unitStarter_letter : unitStarter isSwaraLetter.
Proof. repeat split. intros d. unfold isVariantDigit. simpl.
  destruct (N.eqb_spec d 49) as [->|]; [reflexivity|].
  destruct (N.eqb_spec d 50) as [->|]; [reflexivity|].
  destruct (N.eqb_spec d 51) as [->|]; [reflexivity|]. discriminate.
Qed.

Lemma letter_not_marker (c : N) :
  isSwaraLetter c = true -> isDash c = false /\ isComma c = false.
Proof.
  unfold isSwaraLetter. simpl. rewrite !orb_false_r, !orb_true_iff, !N.eqb_eq.
  intros H. repeat destruct H as [H|H]; subst c; split; reflexivity.
Qed.

Lemma Tokenizes_counts (s : jsstring) (out : list ParsedSwara) :
  Tokenizes s out ->
  length (List.filter isRest out) = countIf isDash s
  /\ length (List.filter isSustain out) = countIf isComma s
  /\ length (List.filter isNote out) = countIf isSwaraLetter s.
Proof.
  induction 1 as [|s out _ (IHr & IHs & IHn)|s out _ (IHr & IHs & IHn)
                 |c s v s1 d q s3 out Hletter Hv Hs1 _ _ _ _ (IHr & IHs & IHn)
                 |c s out Hd Hc Hl _ (IHr & IHs & IHn)].
  - repeat split.
  - unfold countIf in *. simpl. rewrite IHr, IHs, IHn. repeat split.
  - unfold countIf in *. simpl. rewrite IHr, IHs, IHn. repeat split.
  - destruct (letter_not_marker c Hletter) as [Hnd Hnc].
    rewrite (countIf_note isDash c s v s1 d q s3 unitStarter_dash Hv Hs1).
    rewrite (countIf_note isComma c s v s1 d q s3 unitStarter_comma Hv Hs1).
    rewrite (countIf_note isSwaraLetter c s v s1 d q s3 unitStarter_letter Hv Hs1).
    rewrite Hnd, Hnc, Hletter. simpl. rewrite IHr, IHs, IHn. repeat split.
  - unfold countIf in *. simpl. unfold isDash, isComma.
    apply N.eqb_neq in Hd, Hc. rewrite Hd, Hc, Hl. repeat split; assumption.
Qed.

Lemma runLength_run (c : N) (n : nat) (s : jsstring) :
  head s <> Some c -> runLength c (repeat c n ++ s) = n.
Proof.
  intros Hs. induction n as [|n IH]; simpl.
  - destruct s as [|x s]; [reflexivity|]. simpl.
    destruct (N.eqb_spec x c) as [->|]; [now destruct Hs | reflexivity].
  - now rewrite N.eqb_refl, IH.
Qed.

(** The scan of the specification passes over markers that no note took. *)
Lemma specScan_skip (c : N) (n : nat) :
  c <> dash -> c <> comma -> isSwaraLetter c = false ->
  forall fuel s, specScan (n + fuel) (repeat c n ++ s) = specScan fuel s.
Proof.
  intros Hd Hc Hl fuel s. induction n as [|n IH]; [reflexivity|].
  cbn [Nat.add repeat app specScan].
  apply N.eqb_neq in Hd, Hc. now rewrite Hd, Hc, Hl.
Qed.

Lemma takeVariant_length (s s1 : jsstring) (v : option N) :
  takeVariant s = (v, s1) -> (length s1 <= length s)%nat.
Proof.
  unfold takeVariant. destruct s as [|d s']; [intros [= _ <-]; lia|].
  destruct (isVariantDigit d); intros [= _ <-]; simpl; lia.
Qed.

(** The units of the loop are the notes of the specification's scan. *)
Lemma Tokenizes_specScan (s : jsstring) (out : list ParsedSwara) :
  Tokenizes s out ->
  forall fuel, (length s <= fuel)%nat -> specScan fuel s = map toNote out.
Proof.
  induction 1 as [|s out _ IH|s out _ IH
                 |c s v s1 d q s3 out Hletter Hv Hs1 Hhead Hq0 Hq3 _ IH
                 |c s out Hd Hc Hl _ IH]; intros fuel Hfuel.
  - destruct fuel; reflexivity.
  - destruct fuel as [|fuel]; [simpl in Hfuel; lia|]. simpl in *.
    rewrite IH by lia. reflexivity.
  - destruct fuel as [|fuel]; [simpl in Hfuel; lia|]. simpl in *.
    rewrite IH by lia. reflexivity.
  - destruct fuel as [|fuel]; [simpl in Hfuel; lia|]. cbn [length] in Hfuel.
    destruct (letter_not_marker c Hletter) as [Hnd Hnc].
    unfold isDash in Hnd. unfold isComma in Hnc.
    cbn [specScan map]. rewrite Hnd, Hnc, Hletter, Hv.
    pose proof (takeVariant_length _ _ _ Hv) as Hlen1.
    assert (Hlen3 : length s1 = (d + q + length s3)%nat)
      by (rewrite Hs1, !length_app, !repeat_length; lia).
    assert (Hrun : runLength dot s1 = d) by (rewrite Hs1; now apply runLength_run).
    assert (Hoct : exists r2, takeOctave s1 = (octaveValue (octaveOf d q), r2)
                              /\ specScan fuel r2 = map toNote out).
    { unfold takeOctave. rewrite Hrun.
      destruct d as [|[|[|d]]].
      - (* no lower marker *)
        simpl in Hs1. assert (Hrq : runLength apostrophe s1 = q).
        { rewrite Hs1. apply runLength_run. apply Hq3. intros [?|?]; lia. }
        rewrite Hrq. destruct q as [|[|[|q]]].
        + simpl in Hs1. subst s1. eexists. split; [reflexivity|]. apply IH. lia.
        + exists s3. split; [rewrite Hs1; reflexivity|]. apply IH. lia.
        + exists s3. split; [rewrite Hs1; reflexivity|]. apply IH. lia.
        + exists s1. split; [reflexivity|]. rewrite Hs1.
          replace fuel with (S (S (S q)) + (fuel - S (S (S q))))%nat by lia.
          rewrite specScan_skip by (vm_compute; congruence). apply IH. lia.
      - rewrite (Hq0 (or_introl eq_refl)) in *. simpl in Hs1.
        exists s3. split; [rewrite Hs1; reflexivity|]. apply IH. lia.
      - rewrite (Hq0 (or_intror eq_refl)) in *. simpl in Hs1.
        exists s3. split; [rewrite Hs1; reflexivity|]. apply IH. lia.
      - assert (Hrq : runLength apostrophe s1 = O) by (rewrite Hs1; reflexivity).
        rewrite Hrq. exists s1. split; [reflexivity|]. rewrite Hs1.
        replace fuel with (S (S (S d)) + (q + (fuel - S (S (S d)) - q)))%nat by lia.
        rewrite specScan_skip by (vm_compute; congruence).
        rewrite specScan_skip by (vm_compute; congruence). apply IH. lia. }
    destruct Hoct as [r2 [-> ->]]. reflexivity.
  - destruct fuel as [|fuel]; [simpl in Hfuel; lia|]. cbn [length] in Hfuel.
    cbn [specScan]. apply N.eqb_neq in Hd, Hc. rewrite Hd, Hc, Hl.
    apply IH. lia.
Qed.

(** On every raw token the tokenizer of the WASM front end ends, and its
    units are those of the scan the specification describes: a rest for each dash and a sustain
    for each comma, wherever they stand, and for each of the seven letters
    one note that takes the variant digit 1, 2 or 3 when it follows and then
    a run of one or two lower markers, else a run of one or two upper
    markers; a note has one octave marker at most.  A longer run gives no
    octave: the loop passes over it with the note, the scan of the
    specification skips it afterwards. *)
Theorem parseSwaraLine_meets_spec (token : jsstring) :
  exists out,
    parseSwaraLine token = Some out
    /\ map toNote out = specTokenize token
    /\ Tokenizes token out
    /\ length (List.filter isRest out) = countIf isDash token
    /\ length (List.filter isSustain out) = countIf isComma token
    /\ length (List.filter isNote out) = countIf isSwaraLetter token.
Proof.
  assert (H : exists out, parseSwaraLine token = Some out /\ Tokenizes token out).
  { unfold parseSwaraLine.
    destruct (eqb token [dash]) eqn:E1.
    { apply eqb_eq in E1 as ->. exists [restUnit]. split; [reflexivity|].
      repeat constructor. }
    destruct (eqb token [comma]) eqn:E2.
    { apply eqb_eq in E2 as ->. exists [sustainUnit]. split; [reflexivity|].
      repeat constructor. }
    destruct (scan_tokenizes (S (length token)) token 0 []) as [out [Hrun Htok]]; [lia|].
    exists out. split; [exact Hrun | exact Htok]. }
  destruct H as [out [Hrun Htok]]. exists out.
  split; [exact Hrun|]. split.
  { symmetry. unfold specTokenize. now apply Tokenizes_specScan. }
  split; [exact Htok|]. now apply Tokenizes_counts.
Qed.

(** Three lower markers after a letter: the note stays in the middle
    octave and the markers produce nothing. *)
Example long_run_no_octave :
  option_map (map toNote) (parseSwaraLine (str "S...R'")) =
  Some [Natural 83 None 0; Natural 82 None 1]
  /\ specTokenize (str "S...R'") = [Natural 83 None 0; Natural 82 None 1].
Proof. split; reflexivity. Qed.

End SwaraTokenizer.

(** ** The tokenizer of the older parser against the same scan *)

Lemma swaraLetter_cases (c : N) :
  Swara.isSwaraLetter c = true -> In c [83; 82; 71; 77; 80; 68; 78].
Proof.
  unfold Swara.isSwaraLetter. intros H. apply existsb_exists in H as (x & Hin & Hx).
  apply N.eqb_eq in Hx. now subst x.
Qed.

Lemma otherDigit_cases (d : N) :
  isDigit d = true -> Swara.isVariantDigit d = false -> In d [48; 52; 53; 54; 55; 56; 57].
Proof.
  unfold isDigit. rewrite andb_true_iff, !N.leb_le. intros [Hlo Hhi] Hv.
  assert (Hd : d = 48 \/ d = 49 \/ d = 50 \/ d = 51 \/ d = 52 \/ d = 53 \/ d = 54
               \/ d = 55 \/ d = 56 \/ d = 57) by lia.
  cbn [In].
  repeat (destruct Hd as [->|Hd]; [first [discriminate Hv | tauto]|]).
  subst d. tauto.
Qed.

(** C6: the tokenizer of the WASM front end follows, on every token, the
    scan the claim describes, and the tokenizer of the older parser does
    not.  After a swara letter the older tokenizer takes any digit for the
    variant, where the claim has it take 1, 2 or 3 only and pass over the
    rest: on a letter followed by 0 or by 4 to 9 it returns the note with
    that digit as its variant.  On a letter followed by three lower markers
    it returns the note two octaves down, where the other tokenizer and the
    scan give the note no octave. *)
Theorem older_tokenizer_takes_any_digit :
  (forall token,
     exists out,
       Swara.parseSwaraLine token = Some out
       /\ map Swara.toNote out = Swara.specTokenize token)
  /\ (forall c d,
        Swara.isSwaraLetter c = true ->
        isDigit d = true ->
        Swara.isVariantDigit d = false ->
        LegacySwara.parseSwaraLine [c; d]
        = Some [LegacySwara.noteUnit c (Some (Z.of_N d - 48)%Z) LegacyScan.Middle]
        /\ option_map (map legacyToNote) (LegacySwara.parseSwaraLine [c; d])
           = Some [Swara.Natural c (Some d) 0]
        /\ Swara.specTokenize [c; d] = [Swara.Natural c None 0])
  /\ (forall c,
        Swara.isSwaraLetter c = true ->
        option_map (map legacyToNote)
          (LegacySwara.parseSwaraLine [c; Swara.dot; Swara.dot; Swara.dot])
        = Some [Swara.Natural c None (-2)]
        /\ Swara.specTokenize [c; Swara.dot; Swara.dot; Swara.dot]
           = [Swara.Natural c None 0]).
Proof.
  split; [|split].
  - intros token.
    destruct (parseSwaraLine_meets_spec token) as (out & Hrun & Hspec & _).
    exists out. split; [exact Hrun | exact Hspec].
  - intros c d Hc Hd Hv.
    apply swaraLetter_cases in Hc. apply (otherDigit_cases d Hd) in Hv.
    cbn [In] in Hc, Hv.
    repeat (destruct Hc as [<-|Hc]);
      try (destruct Hc);
      repeat (destruct Hv as [<-|Hv]);
      try (destruct Hv);
      repeat split; vm_compute; reflexivity.
  - intros c Hc. apply swaraLetter_cases in Hc. cbn [In] in Hc.
    repeat (destruct Hc as [<-|Hc]); try (destruct Hc);
      split; vm_compute; reflexivity.
Qed.

(** The failing input: the token S9, and the token S followed by three
    dots. *)
Lemma older_tokenizer_takes_any_digit_witness :
  option_map (map legacyToNote) (LegacySwara.parseSwaraLine (str "S9"))
  = Some [Swara.Natural 83 (Some 57) 0]
  /\ Swara.specTokenize (str "S9") = [Swara.Natural 83 None 0]
  /\ option_map (map Swara.toNote) (Swara.parseSwaraLine (str "S9"))
     = Some [Swara.Natural 83 None 0]
  /\ option_map (map legacyToNote) (LegacySwara.parseSwaraLine (str "S..."))
     = Some [Swara.Natural 83 None (-2)]
  /\ option_map (map Swara.toNote) (Swara.parseSwaraLine (str "S..."))
     = Some [Swara.Natural 83 None 0].
Proof.
  pose proof older_tokenizer_takes_any_digit as (Hwasm & Hdigit & Hdots).
  destruct (Hdigit 83 57 eq_refl eq_refl eq_refl) as (_ & H1 & H2).
  destruct (Hdots 83 eq_refl) as (H3 & _).
  destruct (Hwasm (str "S9")) as (o1 & E1 & S1).
  destruct (Hwasm (str "S...")) as (o2 & E2 & S2).
  split; [exact H1|]. split; [exact H2|]. split.
  - rewrite E1. cbn [option_map]. rewrite S1. reflexivity.
  - split; [exact H3|]. rewrite E2. cbn [option_map]. rewrite S2. reflexivity.
Defined.

(** * Further properties of the parser *)

(** ** What a parsed document is made of *)

Section DocumentFacts.

(** What [parsePhrase] returns where the line does not start with the gati
    marker. *)
Lemma parsePhrase_returned (st st' : ParserState) (p : Phrase) :
  startsWith (trimmedAt (lines st) (currentLine st)) gatiMarker = false ->
  parsePhrase st = Returned p st' ->
  let sw := parseNotationLine (trimmedAt (lines st) (currentLine st)) in
  let sa := parseNotationLine (trimmedAt (lines st) (S (currentLine st))) in
  swaras p = tokens sw /\ sahitya p = tokens sa
  /\ beat_positions p = beatPositions sw
  /\ beatPositions sw = beatPositions sa
  /\ phrase_line_number p = (currentLine st + 1)%nat
  /\ phrase_gati p = None
  /\ lines st' = lines st
  /\ (S (currentLine st) < currentLine st' <= S (S (S (currentLine st))))%nat.
Proof.
  intros Hno. unfold parsePhrase.
  unfold bind at 1. unfold getCurrentLine.
  unfold bind at 1. unfold currentLineTrimmed at 1.
  fold (trimmedAt (lines st) (currentLine st)). rewrite Hno.
  unfold bind, ret, currentLineTrimmed, advanceLine, throw. cbn [lines currentLine].
  fold (trimmedAt (lines st) (currentLine st)).
  fold (trimmedAt (lines st) (S (currentLine st))).
  destruct (bool_decide_reflect
              (beatPositions (parseNotationLine (trimmedAt (lines st) (currentLine st)))
               = beatPositions (parseNotationLine (trimmedAt (lines st) (S (currentLine st))))))
    as [Heq|Hne]; cbn [negb]; [|discriminate].
  destruct (startsWith _ analysisMarker); intros [= <- <-]; cbn;
    repeat split; auto; lia.
Qed.

(** What [parsePhrase] throws there. *)
Lemma parsePhrase_thrown (st st' : ParserState) (e : Message) :
  startsWith (trimmedAt (lines st) (currentLine st)) gatiMarker = false ->
  parsePhrase st = Thrown e st' ->
  e = BeatMarkersMisaligned (currentLine st + 1)
  /\ st' = {| lines := lines st; currentLine := S (S (currentLine st)) |}.
Proof.
  intros Hno. unfold parsePhrase.
  unfold bind at 1. unfold getCurrentLine.
  unfold bind at 1. unfold currentLineTrimmed at 1.
  fold (trimmedAt (lines st) (currentLine st)). rewrite Hno.
  unfold bind, ret, currentLineTrimmed, advanceLine, throw. cbn [lines currentLine].
  destruct (negb _); [intros [= <- <-]; split; reflexivity|].
  destruct (startsWith _ analysisMarker); discriminate.
Qed.

(** The analysis [parsePhrase] attaches: the line after the lyric line when
    it starts with the analysis marker. *)
Lemma parsePhrase_analysis (st st' : ParserState) (p : Phrase) :
  startsWith (trimmedAt (lines st) (currentLine st)) gatiMarker = false ->
  parsePhrase st = Returned p st' ->
  let l3 := trimmedAt (lines st) (S (S (currentLine st))) in
  phrase_analysis p
  = if startsWith l3 analysisMarker then Some (substring 10 l3) else None.
Proof.
  intros Hno. unfold parsePhrase.
  unfold bind at 1. unfold getCurrentLine.
  unfold bind at 1. unfold currentLineTrimmed at 1.
  fold (trimmedAt (lines st) (currentLine st)). rewrite Hno.
  unfold bind, ret, currentLineTrimmed, advanceLine, throw. cbn [lines currentLine].
  fold (trimmedAt (lines st) (S (S (currentLine st)))).
  destruct (negb _); [discriminate|].
  destruct (startsWith _ analysisMarker); intros [= <- _]; reflexivity.
Qed.

Lemma StronglySorted_lt_snoc (l : list nat) (x : nat) :
  StronglySorted lt l -> Forall (fun n => (n < x)%nat) l -> StronglySorted lt (l ++ [x]).
Proof.
  induction 1 as [|a l Hs IH Ha]; intros Hx; simpl.
  - constructor; constructor.
  - inversion Hx; subst. constructor; [auto|].
    apply Forall_app. split; [exact Ha | constructor; [assumption | constructor]].
Qed.

Lemma StronglySorted_lt_app (a b : list nat) (mid : nat) :
  StronglySorted lt a -> StronglySorted lt b ->
  Forall (fun n => (n <= mid)%nat) a -> Forall (fun n => (mid < n)%nat) b ->
  StronglySorted lt (a ++ b).
Proof.
  intros Ha Hb Hla Hlb. induction Ha as [|x a Hs IH Hx]; simpl; [exact Hb|].
  inversion Hla; subst. constructor; [auto|].
  apply Forall_app. split; [exact Hx|].
  eapply Forall_impl; [exact Hlb|]. simpl. intros; lia.
Qed.

Lemma startsPhrase_no_marker (l : jsstring) :
  startsPhrase l = true -> startsWith l gatiMarker = false.
Proof. intros H. now destruct (startsPhrase_tests l H) as (_ & _ & H3 & _). Qed.

Variable ls : list jsstring.

Lemma parseSectionLoop_inv (fuel : nat) :
  forall acc g i lo r st',
    (lo <= i)%nat ->
    PhrasesInv ls lo i acc ->
    parseSectionLoop fuel acc g {| lines := ls; currentLine := i |} = Returned r st' ->
    lines st' = ls /\ (i <= currentLine st')%nat
    /\ PhrasesInv ls lo (currentLine st') (fst r).
Proof.
  induction fuel as [|fuel IH]; intros acc g i lo r st' Hlo Hinv; [discriminate|].
  rewrite parseSectionLoop_step. cbn [lines currentLine].
  destruct (Nat.ltb_spec i (length ls)) as [Hlt|Hge];
    [|intros [= <- <-]; cbn [fst lines currentLine]; auto].
  cbv zeta. unfold advanced. cbn [lines currentLine].
  assert (Hnext : PhrasesInv ls lo (S i) acc).
  { destruct Hinv as [H1 H2 H3]. constructor; [exact H1 | exact H2 |].
    eapply Forall_impl; [exact H3|]. simpl. intros; lia. }
  assert (Hskip : forall g',
    parseSectionLoop fuel acc g' {| lines := ls; currentLine := S i |} = Returned r st' ->
    lines st' = ls /\ (i <= currentLine st')%nat
    /\ PhrasesInv ls lo (currentLine st') (fst r)).
  { intros g' H. assert (Hlo' : (lo <= S i)%nat) by lia.
    destruct (IH _ _ _ lo _ _ Hlo' Hnext H) as (Ha & Hb & Hc).
    split; [exact Ha | split; [lia | exact Hc]]. }
  destruct (eqb _ []) eqn:E1; [apply Hskip|].
  destruct (startsWith _ [hash]) eqn:E2; [apply Hskip|].
  destruct (startsWith _ gatiMarker) eqn:E3; [apply Hskip|].
  destruct (isHeader _) eqn:E4; [intros [= <- <-]; cbn [fst lines currentLine]; auto|].
  destruct (includes _ bar) eqn:E5; [|discriminate].
  destruct (parsePhrase _) as [p st1| |] eqn:Hp; [|discriminate|discriminate].
  pose proof (parsePhrase_returned {| lines := ls; currentLine := i |} _ _ E3 Hp) as Hret. cbv zeta in Hret.
  cbn [lines currentLine] in Hret.
  destruct Hret as (_ & _ & _ & _ & Hnum & _ & Hl & Hc).
  destruct st1 as [ls1 i1]. cbn [lines currentLine] in *. subst ls1.
  intros H. apply IH with (lo := lo) in H.
  - destruct H as (Ha & Hb & Hc'). split; [exact Ha | split; [lia | exact Hc']].
  - lia.
  - destruct Hinv as [H1 H2 H3]. constructor.
    + apply Forall_app. split; [exact H1|]. constructor; [|constructor].
      exists i, {| lines := ls; currentLine := i1 |}.
      repeat split; [exact Hlt | | exact Hp | exact Hnum].
      unfold startsPhrase, skippedInSection. now rewrite E1, E2, E3, E4, E5.
    + rewrite map_app. cbn [map]. apply StronglySorted_lt_snoc; [exact H2|].
      eapply Forall_impl; [exact H3|]. simpl. intros; lia.
    + rewrite map_app. apply Forall_app. split.
      * eapply Forall_impl; [exact H3|]. simpl. intros; lia.
      * constructor; [|constructor]. rewrite Hnum. lia.
Qed.

Lemma PhrasesInv_nil (lo cur : nat) : PhrasesInv ls lo cur [].
Proof. constructor; constructor. Qed.

(** A section read from the header at index [i]. *)
Lemma parseSection_inv (i : nat) (s : Section_) (st' : ParserState) :
  (i < length ls)%nat ->
  parseSection {| lines := ls; currentLine := i |} = Returned s st' ->
  lines st' = ls /\ (i < currentLine st')%nat
  /\ section_line_number s = (i + 1)%nat
  /\ PhrasesInv ls (S i) (currentLine st') (phrases s).
Proof.
  intros Hi. rewrite parseSection_unfold. cbn [lines currentLine]. unfold advanced.
  cbn [lines currentLine].
  destruct (parseSectionLoop _ [] None _) as [r st1| |] eqn:Hloop;
    [|discriminate|discriminate].
  intros [= <- <-]. cbn [phrases section_line_number].
  destruct (parseSectionLoop_inv _ _ _ _ (S i) _ _ (le_n _) (PhrasesInv_nil _ _) Hloop)
    as (Ha & Hb & Hc).
  split; [exact Ha | split; [lia | split; [reflexivity | exact Hc]]].
Qed.

Lemma SectionsInv_nil (lo cur : nat) : SectionsInv ls lo cur [].
Proof. constructor; constructor. Qed.

Lemma SectionsInv_weaken (lo cur cur' : nat) (acc : list Section_) :
  (cur <= cur')%nat -> SectionsInv ls lo cur acc -> SectionsInv ls lo cur' acc.
Proof.
  intros Hle [H1 H2 H3 H4]. constructor; try assumption.
  eapply Forall_impl; [exact H3|]. simpl. intros; lia.
Qed.

Lemma phraseOrigin_length (p : Phrase) :
  phraseOrigin ls p -> (phrase_line_number p <= length ls)%nat.
Proof. intros (i & st' & Hi & _ & _ & ->). lia. Qed.

Lemma SectionsInv_snoc (lo i cur : nat) (acc : list Section_) (s : Section_) :
  (lo <= i)%nat -> (i < length ls)%nat ->
  SectionsInv ls lo i acc ->
  section_line_number s = (i + 1)%nat ->
  PhrasesInv ls (S i) cur (phrases s) ->
  (i < cur)%nat ->
  SectionsInv ls lo cur (acc ++ [s]).
Proof.
  intros Hlo Hi [H1 H2 H3 H4] Hnum [P1 P2 P3] Hcur.
  assert (Hs : Forall (fun n => (i < n <= cur)%nat) (sectionLineNumbers s)).
  { unfold sectionLineNumbers. constructor; [lia|].
    eapply Forall_impl; [exact P3|]. simpl. intros; lia. }
  assert (Hss : StronglySorted lt (sectionLineNumbers s)).
  { unfold sectionLineNumbers. constructor; [exact P2|].
    eapply Forall_impl; [exact P3|]. simpl. intros; lia. }
  constructor; rewrite ?flat_map_app; cbn [flat_map]; rewrite ?app_nil_r.
  - apply Forall_app. split; [exact H1 | constructor; [exact P1 | constructor]].
  - apply (StronglySorted_lt_app _ _ i); try assumption.
    + eapply Forall_impl; [exact H3|]. simpl. intros; lia.
    + eapply Forall_impl; [exact Hs|]. simpl. intros; lia.
  - apply Forall_app. split.
    + eapply Forall_impl; [exact H3|]. simpl. intros; lia.
    + eapply Forall_impl; [exact Hs|]. simpl. intros; lia.
  - apply Forall_app. split; [exact H4|].
    unfold sectionLineNumbers. constructor; [lia|].
    apply Forall_map. eapply Forall_impl; [exact P1|].
    intros p Hp. now apply phraseOrigin_length.
Qed.

Lemma parseSectionsLoop_inv (fuel : nat) :
  forall acc i lo r st',
    (lo <= i)%nat ->
    SectionsInv ls lo i acc ->
    parseSectionsLoop fuel acc {| lines := ls; currentLine := i |} = Returned r st' ->
    lines st' = ls /\ SectionsInv ls lo (currentLine st') r.
Proof.
  induction fuel as [|fuel IH]; intros acc i lo r st' Hlo Hinv; [discriminate|].
  rewrite parseSectionsLoop_step. cbn [lines currentLine].
  destruct (Nat.ltb_spec i (length ls)) as [Hlt|Hge];
    [|intros [= <- <-]; cbn [fst lines currentLine]; auto].
  cbv zeta. destruct (isHeader _).
  - destruct (parseSection _) as [s st1| |] eqn:Hs; [|discriminate|discriminate].
    destruct (parseSection_inv _ _ _ Hlt Hs) as (Hl & Hc & Hnum & Hp).
    destruct st1 as [ls1 i1]. cbn [lines currentLine] in *. subst ls1.
    apply IH; [lia|]. now apply (SectionsInv_snoc lo i).
  - destruct (_ && _); [discriminate|]. unfold advanced. cbn [lines currentLine].
    apply IH; [lia|]. apply (SectionsInv_weaken lo i); [lia | exact Hinv].
Qed.

End DocumentFacts.

(** Every parsed document satisfies the invariant of the two loops, from
    the line after the opening delimiter on. *)
Lemma parse_inv (content : jsstring) (st0 st : ParserState) (d : VnaDocument) :
  parse content st0 = Returned d st ->
  lines st = split newline content
  /\ SectionsInv (split newline content) 1 (currentLine st) (sections d).
Proof.
  rewrite parse_unfold. unfold bind at 1. rewrite parseMetadata_spec.
  cbn [lines currentLine].
  destruct (negb _); [discriminate|].
  destruct (requiredMissing _); [discriminate|].
  unfold bind at 1. unfold parseSections, bounded. cbn [lines currentLine].
  match goal with |- context [parseSectionsLoop ?f [] ?s0] =>
    destruct (parseSectionsLoop f [] s0) as [r st2| |] eqn:Hloop end;
    [|discriminate|discriminate].
  unfold ret. intros [= <- <-]. cbn [sections].
  eapply parseSectionsLoop_inv in Hloop; [exact Hloop | cbn; lia | apply SectionsInv_nil].
Qed.


(** X1: in a parsed document the recorded line numbers increase strictly
    in the order of the text (a section header, then its phrases, then the
    next header), and each lies between 2 and the number of lines. *)
Theorem line_numbers_increase
    (content : jsstring) (st0 st : ParserState) (d : VnaDocument) :
  parse content st0 = Returned d st ->
  StronglySorted lt (documentLineNumbers d)
  /\ Forall (fun n => (2 <= n <= length (split newline content))%nat)
       (documentLineNumbers d).
Proof.
  intros H. destruct (parse_inv _ _ _ _ H) as [_ [_ Hs Hr Hl]].
  split; [exact Hs|]. unfold documentLineNumbers.
  rewrite List.Forall_forall in *. intros n Hn.
  specialize (Hr n Hn). specialize (Hl n Hn). simpl in *. lia.
Qed.

Lemma line_numbers_increase_witness :
  exists d st,
    parse Samples.realigned newParser = Returned d st
    /\ documentLineNumbers d = [6; 7; 9; 11; 12]%nat
    /\ StronglySorted lt (documentLineNumbers d).
Proof.
  do 2 eexists. split; [vm_compute; reflexivity|].
  split; [vm_compute; reflexivity|].
  refine (proj1 (line_numbers_increase Samples.realigned newParser _ _ _)).
  vm_compute. reflexivity.
Defined.

(** The invariant of the splitter, for use on the lines of a phrase. *)
Lemma notationLine_inv (l : jsstring) :
  SplitInv {| ss_tokens := tokens (parseNotationLine l);
              ss_beatPositions := beatPositions (parseNotationLine l);
              ss_currentPos := length (tokens (parseNotationLine l)) |}.
Proof.
  unfold parseNotationLine. cbn [tokens beatPositions].
  set (beats := split bar (cleanLine l)).
  assert (Hinv : SplitInv (forEachBeat (length beats)
             {| ss_tokens := []; ss_beatPositions := []; ss_currentPos := 0 |} 0 beats)).
  { apply forEachBeat_inv; [apply split_no_sep|].
    constructor; simpl; constructor. }
  destruct Hinv as [Hpos Htok Hsort Hbnd].
  constructor; cbn [ss_tokens ss_beatPositions ss_currentPos]; try assumption.
  - reflexivity.
  - now rewrite <- Hpos.
Qed.

(** X2: every phrase of a parsed document has well-formed tokens on both
    lines, and its beat positions, which the two lines share, increase
    weakly and lie between 1 and the number of tokens of either line. *)
Theorem phrases_are_aligned
    (content : jsstring) (st0 st : ParserState) (d : VnaDocument)
    (s : Section_) (p : Phrase) :
  parse content st0 = Returned d st ->
  In s (sections d) -> In p (phrases s) ->
  Forall wellFormedToken (swaras p)
  /\ Forall wellFormedToken (sahitya p)
  /\ StronglySorted le (beat_positions p)
  /\ Forall (fun b => (1 <= b <= length (swaras p))%nat /\ (b <= length (sahitya p))%nat)
       (beat_positions p).
Proof.
  intros H Hs Hp. destruct (parse_inv _ _ _ _ H) as [_ [Hph _ _ _]].
  rewrite List.Forall_forall in Hph. specialize (Hph s Hs).
  rewrite List.Forall_forall in Hph. destruct (Hph p Hp) as (i & st' & Hi & Hstart & Hrun & _).
  pose proof (parsePhrase_returned {| lines := split newline content; currentLine := i |}
                _ _ (startsPhrase_no_marker _ Hstart) Hrun) as Hret.
  cbv zeta in Hret. cbn [lines currentLine] in Hret.
  destruct Hret as (Hsw & Hsa & Hb & Heq & _).
  destruct (notationLine_inv (trimmedAt (split newline content) i)) as [_ T1 S1 B1].
  destruct (notationLine_inv (trimmedAt (split newline content) (S i))) as [_ T2 _ B2].
  cbn [ss_tokens ss_beatPositions ss_currentPos] in *.
  rewrite Hsw, Hsa, Hb. repeat split; try assumption.
  rewrite <- Heq in B2. rewrite List.Forall_forall in *.
  intros b Hbin. specialize (B1 b Hbin). specialize (B2 b Hbin). simpl in *. lia.
Qed.

Lemma phrases_are_aligned_witness :
  exists d s p st,
    parse Samples.scenario newParser = Returned d st
    /\ sections d = [s] /\ phrases s = [p]
    /\ Forall (fun b => (1 <= b <= length (swaras p))%nat /\ (b <= length (sahitya p))%nat)
         (beat_positions p).
Proof.
  do 4 eexists. split; [vm_compute; reflexivity|].
  split; [vm_compute; reflexivity|]. split; [vm_compute; reflexivity|].
  refine (proj2 (proj2 (proj2
            (phrases_are_aligned Samples.scenario newParser _ _ _ _ _ _ _)))).
  - vm_compute. reflexivity.
  - vm_compute. left. reflexivity.
  - vm_compute. left. reflexivity.
Defined.

(** X12: every phrase of a parsed document is read off two lines of the
    text: with [n] its line number, line [n] holds a bar, is no comment, no
    gati marker and no section header, and gives the swara tokens and the
    beat positions; line [n + 1] gives the lyric tokens and the same beat
    positions.  The phrase never carries a gati of its own. *)
Theorem phrase_from_its_lines
    (content : jsstring) (st0 st : ParserState) (d : VnaDocument)
    (s : Section_) (p : Phrase) :
  parse content st0 = Returned d st ->
  In s (sections d) -> In p (phrases s) ->
  let ls := split newline content in
  let i := (phrase_line_number p - 1)%nat in
  (2 <= phrase_line_number p <= length ls)%nat
  /\ startsPhrase (trimmedAt ls i) = true
  /\ swaras p = tokens (parseNotationLine (trimmedAt ls i))
  /\ sahitya p = tokens (parseNotationLine (trimmedAt ls (S i)))
  /\ beat_positions p = beatPositions (parseNotationLine (trimmedAt ls i))
  /\ beat_positions p = beatPositions (parseNotationLine (trimmedAt ls (S i)))
  /\ phrase_gati p = None.
Proof.
  intros H Hs Hp ls i. destruct (parse_inv _ _ _ _ H) as [_ [Hph _ Hrange _]].
  rewrite List.Forall_forall in Hph. specialize (Hph s Hs).
  rewrite List.Forall_forall in Hph.
  destruct (Hph p Hp) as (j & st' & Hj & Hstart & Hrun & Hn).
  pose proof (parsePhrase_returned {| lines := split newline content; currentLine := j |}
                _ _ (startsPhrase_no_marker _ Hstart) Hrun) as Hret.
  cbv zeta in Hret. cbn [lines currentLine] in Hret.
  destruct Hret as (Hsw & Hsa & Hb & Heq & _ & Hg & _).
  assert (Hlo : (1 < phrase_line_number p)%nat).
  { rewrite List.Forall_forall in Hrange.
    assert (Hin : In (phrase_line_number p) (flat_map sectionLineNumbers (sections d))).
    { apply in_flat_map. exists s. split; [exact Hs|].
      unfold sectionLineNumbers. right. now apply in_map. }
    specialize (Hrange _ Hin). lia. }
  assert (Hi : i = j) by (subst i; lia). rewrite Hi. fold ls in Hj, Hstart, Hsw, Hsa, Hb, Heq.
  repeat split; try assumption; try lia. now rewrite <- Heq.
Qed.

Lemma phrase_from_its_lines_witness :
  exists d s p1 p2 st,
    parse Samples.lineGati newParser = Returned d st
    /\ sections d = [s]
    /\ phrases s = [p1; p2]
    /\ phrase_line_number p2 = 12%nat
    /\ swaras p2 = tokens (parseNotationLine (str "SRGMP DPMGR ||"))
    /\ phrase_gati p2 = None.
Proof.
  do 5 eexists. split; [vm_compute; reflexivity|].
  split; [vm_compute; reflexivity|]. split; [vm_compute; reflexivity|].
  split; [vm_compute; reflexivity|].
  refine ((fun W' => conj (proj1 (proj2 (proj2 W'))) (proj2 (proj2 (proj2 (proj2 (proj2 (proj2 W')))))))
            (phrase_from_its_lines Samples.lineGati newParser _ _ _ _ _ _ _)).
  - vm_compute. reflexivity.
  - vm_compute. left. reflexivity.
  - vm_compute. right. left. reflexivity.
Defined.

Section Headers.

Variable ls : list jsstring.

Lemma parseSectionLoop_gati (fuel : nat) :
  forall acc g i lo r st',
    (lo <= i)%nat ->
    gatiOrigin ls lo g ->
    parseSectionLoop fuel acc g {| lines := ls; currentLine := i |} = Returned r st' ->
    gatiOrigin ls lo (snd r).
Proof.
  induction fuel as [|fuel IH]; intros acc g i lo r st' Hlo Hg; [discriminate|].
  rewrite parseSectionLoop_step. cbn [lines currentLine].
  destruct (Nat.ltb_spec i (length ls)) as [Hlt|Hge]; [|now intros [= <- _]].
  cbv zeta. unfold advanced. cbn [lines currentLine].
  destruct (eqb _ []) eqn:E1; [apply IH; [lia | exact Hg]|].
  destruct (startsWith _ [hash]) eqn:E2; [apply IH; [lia | exact Hg]|].
  destruct (startsWith _ gatiMarker) eqn:E3.
  { apply IH; [lia|]. exists i. repeat split; auto. }
  destruct (isHeader _) eqn:E4; [now intros [= <- _]|].
  destruct (includes _ bar) eqn:E5; [|discriminate].
  destruct (parsePhrase _) as [p st1| |] eqn:Hp; [|discriminate|discriminate].
  pose proof (parsePhrase_returned {| lines := ls; currentLine := i |} _ _ E3 Hp) as Hret.
  cbv zeta in Hret. cbn [lines currentLine] in Hret.
  destruct Hret as (_ & _ & _ & _ & _ & _ & Hl & Hc).
  destruct st1 as [ls1 i1]. cbn [lines currentLine] in *. subst ls1.
  apply IH; [lia | exact Hg].
Qed.

Lemma parseSection_gati (i : nat) (s : Section_) (st' : ParserState) :
  parseSection {| lines := ls; currentLine := i |} = Returned s st' ->
  gatiOrigin ls (section_line_number s) (section_gati s).
Proof.
  rewrite parseSection_unfold. cbn [lines currentLine]. unfold advanced.
  cbn [lines currentLine].
  destruct (parseSectionLoop _ [] None _) as [r st1| |] eqn:Hloop;
    [|discriminate|discriminate].
  intros [= <- _]. cbn [section_line_number section_gati].
  replace (i + 1)%nat with (S i) by lia.
  exact (parseSectionLoop_gati _ [] None (S i) (S i) _ _ (le_n _) I Hloop).
Qed.

Lemma parseSectionsLoop_gati (fuel : nat) :
  forall acc i r st',
    Forall (fun s => gatiOrigin ls (section_line_number s) (section_gati s)) acc ->
    parseSectionsLoop fuel acc {| lines := ls; currentLine := i |} = Returned r st' ->
    Forall (fun s => gatiOrigin ls (section_line_number s) (section_gati s)) r.
Proof.
  induction fuel as [|fuel IH]; intros acc i r st' Hacc; [discriminate|].
  rewrite parseSectionsLoop_step. cbn [lines currentLine].
  destruct (Nat.ltb_spec i (length ls)) as [Hlt|Hge]; [|now intros [= <- _]].
  cbv zeta. destruct (isHeader _) eqn:Hh.
  - destruct (parseSection _) as [s st1| |] eqn:Hs; [|discriminate|discriminate].
    destruct (parseSection_inv ls _ _ _ Hlt Hs) as (Hl & _).
    destruct st1 as [ls1 i1]. cbn [lines] in Hl. subst ls1.
    apply IH. apply Forall_app. split; [exact Hacc|].
    constructor; [|constructor]. exact (parseSection_gati i s _ Hs).
  - destruct (_ && _); [discriminate|]. unfold advanced. cbn [lines currentLine].
    now apply IH.
Qed.

Lemma parseSection_origin (i : nat) (s : Section_) (st' : ParserState) :
  (i < length ls)%nat ->
  isHeader (trimmedAt ls i) = true ->
  parseSection {| lines := ls; currentLine := i |} = Returned s st' ->
  sectionOrigin ls s.
Proof.
  intros Hi Hh. rewrite parseSection_unfold. cbn [lines currentLine].
  destruct (parseSectionLoop _ [] None _) as [r st1| |]; [|discriminate|discriminate].
  intros [= <- _]. exists i. cbn [section_line_number name]. auto.
Qed.

Lemma parseSectionsLoop_origin (fuel : nat) :
  forall acc i r st',
    Forall (sectionOrigin ls) acc ->
    parseSectionsLoop fuel acc {| lines := ls; currentLine := i |} = Returned r st' ->
    Forall (sectionOrigin ls) r.
Proof.
  induction fuel as [|fuel IH]; intros acc i r st' Hacc; [discriminate|].
  rewrite parseSectionsLoop_step. cbn [lines currentLine].
  destruct (Nat.ltb_spec i (length ls)) as [Hlt|Hge]; [|now intros [= <- _]].
  cbv zeta. destruct (isHeader _) eqn:Hh.
  - destruct (parseSection _) as [s st1| |] eqn:Hs; [|discriminate|discriminate].
    destruct (parseSection_inv ls _ _ _ Hlt Hs) as (Hl & _).
    destruct st1 as [ls1 i1]. cbn [lines] in Hl. subst ls1.
    apply IH. apply Forall_app. split; [exact Hacc|].
    constructor; [|constructor]. exact (parseSection_origin i s _ Hlt Hh Hs).
  - destruct (_ && _); [discriminate|]. unfold advanced. cbn [lines currentLine].
    now apply IH.
Qed.

End Headers.

(** A string that starts with one character and ends with another is the
    two around its inside. *)
Lemma bracketed (h : jsstring) (a b : N) :
  a <> b -> startsWith h [a] = true -> endsWith h [b] = true ->
  h = [a] ++ slice 1 1 h ++ [b].
Proof.
  intros Hab Hs He. destruct h as [|x r]; [discriminate|].
  cbn [startsWith] in Hs. apply andb_true_iff in Hs as [Hx _].
  apply N.eqb_eq in Hx. subst x.
  destruct (exists_last (l := a :: r) ltac:(discriminate)) as (m & z & E).
  unfold endsWith in He. rewrite E, rev_app_distr in He.
  cbn [rev app startsWith] in He.
  apply andb_true_iff in He as [Hz _]. apply N.eqb_eq in Hz. subst z.
  destruct m as [|y m]; [cbn in E; congruence|].
  cbn [app] in E. injection E as <- ->.
  assert (Hn : (length (a :: m ++ [b]) - 1 - 1)%nat = length m).
  { cbn [length]. rewrite length_app. cbn [length]. lia. }
  unfold slice. rewrite Hn. change (drop 1 (a :: m ++ [b])) with (m ++ [b]).
  now rewrite take_app_length.
Qed.

(** X24: every section of a parsed document is read off a header line of
    the text: the line its number names, trimmed, is the name of the section
    between square brackets. *)
Theorem section_from_its_header
    (content : jsstring) (st0 st : ParserState) (d : VnaDocument) (s : Section_) :
  parse content st0 = Returned d st ->
  In s (sections d) ->
  let ls := split newline content in
  (2 <= section_line_number s <= length ls)%nat
  /\ trimmedAt ls (section_line_number s - 1) = [lbracket] ++ name s ++ [rbracket].
Proof.
  intros H Hs ls.
  assert (Ho : Forall (sectionOrigin ls) (sections d)).
  { revert H. rewrite parse_unfold. unfold bind at 1. rewrite parseMetadata_spec.
    cbn [lines currentLine].
    destruct (negb _); [discriminate|].
    destruct (requiredMissing _); [discriminate|].
    unfold bind at 1. unfold parseSections, bounded. cbn [lines currentLine].
    match goal with |- context [parseSectionsLoop ?f [] ?s0] =>
      destruct (parseSectionsLoop f [] s0) as [r st2| |] eqn:Hloop end;
      [|discriminate|discriminate].
    unfold ret. intros [= <- _]. cbn [sections].
    eapply parseSectionsLoop_origin; [constructor | exact Hloop]. }
  destruct (parse_inv _ _ _ _ H) as [_ [_ _ Hrange _]].
  rewrite List.Forall_forall in Ho, Hrange.
  destruct (Ho s Hs) as (i & Hi & Hnum & Hh & Hname).
  assert (Hin : In (section_line_number s) (flat_map sectionLineNumbers (sections d))).
  { apply in_flat_map. exists s. split; [exact Hs | now left]. }
  specialize (Hrange _ Hin). cbv beta in Hrange.
  split; [fold ls in Hi; lia|].
  replace (section_line_number s - 1)%nat with i by lia. rewrite Hname.
  unfold isHeader in Hh. apply andb_true_iff in Hh as [H1 H2].
  apply bracketed; [discriminate | exact H1 | exact H2].
Qed.

Lemma section_from_its_header_witness :
  exists d s st,
    parse Samples.scenario newParser = Returned d st
    /\ sections d = [s]
    /\ name s = str "pallavi"
    /\ trimmedAt (split newline Samples.scenario) (section_line_number s - 1)
       = [lbracket] ++ name s ++ [rbracket].
Proof.
  do 3 eexists. split; [vm_compute; reflexivity|].
  split; [vm_compute; reflexivity|]. split; [vm_compute; reflexivity|].
  refine (proj2 (section_from_its_header Samples.scenario newParser _ _ _ _ _)).
  - vm_compute. reflexivity.
  - vm_compute. left. reflexivity.
Defined.

(** X28: the analysis of a phrase of a parsed document is what follows the
    marker on the line after the lyric line, when that line, trimmed, starts
    with the marker; otherwise the phrase has none. *)
Theorem phrase_analysis_from_text
    (content : jsstring) (st0 st : ParserState) (d : VnaDocument)
    (s : Section_) (p : Phrase) :
  parse content st0 = Returned d st ->
  In s (sections d) -> In p (phrases s) ->
  let l := trimmedAt (split newline content) (phrase_line_number p + 1) in
  phrase_analysis p
  = if startsWith l analysisMarker then Some (substring 10 l) else None.
Proof.
  intros H Hs Hp. destruct (parse_inv _ _ _ _ H) as [_ [Hph _ _ _]].
  rewrite List.Forall_forall in Hph. specialize (Hph s Hs).
  rewrite List.Forall_forall in Hph.
  destruct (Hph p Hp) as (j & st' & Hj & Hstart & Hrun & Hn).
  pose proof (parsePhrase_analysis {| lines := split newline content; currentLine := j |}
                _ _ (startsPhrase_no_marker _ Hstart) Hrun) as Ha.
  cbv zeta in Ha |- *. cbn [lines currentLine] in Ha.
  rewrite Hn. replace (j + 1 + 1)%nat with (S (S j)) by lia. exact Ha.
Qed.

Lemma phrase_analysis_from_text_witness :
  exists d s p st,
    parse Samples.scenario newParser = Returned d st
    /\ sections d = [s] /\ phrases s = [p]
    /\ phrase_analysis p = None.
Proof.
  do 4 eexists. split; [vm_compute; reflexivity|].
  split; [vm_compute; reflexivity|]. split; [vm_compute; reflexivity|].
  refine (phrase_analysis_from_text Samples.scenario newParser _ _ _ _ _ _ _).
  - vm_compute. reflexivity.
  - vm_compute. left. reflexivity.
  - vm_compute. left. reflexivity.
Defined.

(** X29: a section of a parsed document has a gati only when a line below
    its header, trimmed, starts with the gati marker, and the gati is then
    what [parseInt] reads after the marker on such a line. *)
Theorem section_gati_from_marker_line
    (content : jsstring) (st0 st : ParserState) (d : VnaDocument)
    (s : Section_) (v : jsnum) :
  parse content st0 = Returned d st ->
  In s (sections d) ->
  section_gati s = Some v ->
  let ls := split newline content in
  exists j,
    (section_line_number s <= j < length ls)%nat
    /\ startsWith (trimmedAt ls j) gatiMarker = true
    /\ v = parseInt10 (trim (substring 6 (trimmedAt ls j))).
Proof.
  intros H Hs Hv ls.
  assert (Ho : Forall (fun s => gatiOrigin ls (section_line_number s) (section_gati s))
                 (sections d)).
  { revert H. rewrite parse_unfold. unfold bind at 1. rewrite parseMetadata_spec.
    cbn [lines currentLine].
    destruct (negb _); [discriminate|].
    destruct (requiredMissing _); [discriminate|].
    unfold bind at 1. unfold parseSections, bounded. cbn [lines currentLine].
    match goal with |- context [parseSectionsLoop ?f [] ?s0] =>
      destruct (parseSectionsLoop f [] s0) as [r st2| |] eqn:Hloop end;
      [|discriminate|discriminate].
    unfold ret. intros [= <- _]. cbn [sections].
    eapply parseSectionsLoop_gati; [constructor | exact Hloop]. }
  rewrite List.Forall_forall in Ho. specialize (Ho s Hs).
  rewrite Hv in Ho. exact Ho.
Qed.

Lemma section_gati_from_marker_line_witness :
  exists d s st,
    parse Samples.sectionGati newParser = Returned d st
    /\ sections d = [s]
    /\ section_gati s = Some (Num 3)
    /\ exists j,
         (section_line_number s <= j < length (split newline Samples.sectionGati))%nat
         /\ startsWith (trimmedAt (split newline Samples.sectionGati) j) gatiMarker = true
         /\ Num 3 = parseInt10 (trim (substring 6
                      (trimmedAt (split newline Samples.sectionGati) j))).
Proof.
  do 3 eexists. split; [vm_compute; reflexivity|].
  split; [vm_compute; reflexivity|]. split; [vm_compute; reflexivity|].
  refine (section_gati_from_marker_line Samples.sectionGati newParser _ _ _ (Num 3) _ _ _).
  - vm_compute. reflexivity.
  - vm_compute. left. reflexivity.
  - vm_compute. reflexivity.
Defined.

(** ** Where the errors point *)

Section ErrorPlacement.

Variable ls : list jsstring.

Lemma parseSectionLoop_thrown (fuel : nat) :
  forall acc g i e st',
    parseSectionLoop fuel acc g {| lines := ls; currentLine := i |} = Thrown e st' ->
    lines st' = ls
    /\ ((e = UnexpectedContentInSection (currentLine st' + 1)
         /\ (currentLine st' < length ls)%nat)
        \/ (exists n, e = BeatMarkersMisaligned n /\ currentLine st' = (n + 1)%nat
                      /\ (n <= length ls)%nat)).
Proof.
  induction fuel as [|fuel IH]; intros acc g i e st'; [discriminate|].
  rewrite parseSectionLoop_step. cbn [lines currentLine].
  destruct (Nat.ltb_spec i (length ls)) as [Hlt|Hge]; [|discriminate].
  cbv zeta. unfold advanced. cbn [lines currentLine].
  destruct (eqb _ []); [apply IH|].
  destruct (startsWith _ [hash]); [apply IH|].
  destruct (startsWith _ gatiMarker) eqn:E3; [apply IH|].
  destruct (isHeader _); [discriminate|].
  destruct (includes _ bar).
  - destruct (parsePhrase _) as [p st1|e1 st1|] eqn:Hp; [| |discriminate].
    + pose proof (progresses_parsePhrase {| lines := ls; currentLine := i |}) as Hprog.
      unfold finishesAt in Hprog. rewrite Hp in Hprog. destruct Hprog as [Hl _].
      destruct st1 as [ls1 i1]. cbn [lines] in Hl. subst ls1. apply IH.
    + intros [= <- <-].
      destruct (parsePhrase_thrown {| lines := ls; currentLine := i |} _ _ E3 Hp)
        as [-> ->]. cbn [lines currentLine].
      split; [reflexivity|]. right. exists (i + 1)%nat. repeat split; lia.
  - intros [= <- <-]. cbn [lines currentLine]. split; [reflexivity|]. left. auto.
Qed.

Lemma parseSectionsLoop_thrown (fuel : nat) :
  forall acc i e st',
    parseSectionsLoop fuel acc {| lines := ls; currentLine := i |} = Thrown e st' ->
    lines st' = ls /\ errorPlaced e st'.
Proof.
  induction fuel as [|fuel IH]; intros acc i e st'; [discriminate|].
  rewrite parseSectionsLoop_step. cbn [lines currentLine].
  destruct (Nat.ltb_spec i (length ls)) as [Hlt|Hge]; [|discriminate].
  cbv zeta. destruct (isHeader _).
  - rewrite parseSection_unfold. cbn [lines currentLine]. unfold advanced.
    cbn [lines currentLine].
    destruct (parseSectionLoop _ [] None _) as [r st1|e1 st1|] eqn:Hloop; [| |discriminate].
    + pose proof (parseSectionLoop_finishes (S (length ls - S i)) [] None
                    {| lines := ls; currentLine := S i |}) as Hprog.
      unfold finishesAt in Hprog. rewrite Hloop in Hprog.
      destruct Hprog as [Hl _]; [unfold enough; cbn [lines currentLine]; lia|].
      destruct st1 as [ls1 i1]. cbn [lines] in Hl. subst ls1. apply IH.
    + intros [= <- <-]. destruct (parseSectionLoop_thrown _ _ _ _ _ _ Hloop) as [Hl H].
      split; [exact Hl|].
      destruct H as [[-> Hc]|(n & -> & Hc & Hn)]; cbn [errorPlaced]; rewrite Hl.
      * split; [reflexivity | lia].
      * split; [exact Hc | exact Hn].
  - destruct (_ && _).
    + intros [= <- <-]. cbn [lines currentLine errorPlaced]. split; [reflexivity|].
      split; [reflexivity | lia].
    + unfold advanced. cbn [lines currentLine]. apply IH.
Qed.

Lemma yamlBlock_length (l : list jsstring) : (snd (yamlBlock l) <= length l)%nat.
Proof.
  induction l as [|x l IH]; simpl; [lia|].
  destruct (eqb _ delimiter); simpl; lia.
Qed.

End ErrorPlacement.

(** When [parse] throws, the error is one of its five and the cursor stands
    in a fixed relation to it. *)
Lemma parse_thrown_placed
    (content : jsstring) (st0 st : ParserState) (e : Message) :
  parse content st0 = Thrown e st ->
  lines st = split newline content /\ errorPlaced e st.
Proof.
  rewrite parse_unfold. unfold bind at 1. rewrite parseMetadata_spec.
  cbn [lines currentLine]. set (ls := split newline content).
  destruct (startsWith (trimmedAt ls 0) delimiter) eqn:Hopen; cbn [negb].
  2:{ intros [= <- <-]. cbn. auto. }
  assert (Hlen : (0 < length ls)%nat).
  { destruct ls; [discriminate | simpl; lia]. }
  destruct (requiredMissing _).
  { intros [= <- <-]. cbn [lines currentLine errorPlaced]. split; [reflexivity|].
    pose proof (yamlBlock_length (drop 1 ls)) as Hb. rewrite length_drop in Hb. lia. }
  unfold bind at 1. unfold parseSections, bounded. cbn [lines currentLine].
  match goal with |- context [parseSectionsLoop ?f [] ?s0] =>
    destruct (parseSectionsLoop f [] s0) as [r st2|e2 st2|] eqn:Hloop end;
    [discriminate| |discriminate].
  intros [= <- <-]. exact (parseSectionsLoop_thrown _ _ _ _ _ _ Hloop).
Qed.

(** X3: when [parse] throws, [validate] returns one error diagnostic whose
    line depends on the error.  For unexpected content it is the line the
    message names; for misaligned beat markers it is two lines after the
    line named; for a missing frontmatter it is line 1; for missing
    required fields it is the line after the frontmatter that was read.
    The line a message names never exceeds the number of lines, and
    [validate] reports nothing but these five errors when it reports a
    [throw]. *)
Theorem thrown_error_lines
    (content : jsstring) (st0 st : ParserState) (e : Message) :
  parse content st0 = Thrown e st ->
  exists ln,
    validate content st0 = Returned [errorIssue e ln] st
    /\ match e with
       | MissingFrontmatter => ln = 1%nat
       | MissingRequiredFields =>
           (2 <= ln <= length (split newline content) + 1)%nat
       | UnexpectedContent n | UnexpectedContentInSection n =>
           ln = n /\ (n <= length (split newline content))%nat
       | BeatMarkersMisaligned n =>
           ln = (n + 2)%nat /\ (n <= length (split newline content))%nat
       | _ => False
       end.
Proof.
  intros H. exists (currentLine st + 1)%nat.
  split; [now apply validate_of_thrown|].
  destruct (parse_thrown_placed _ _ _ _ H) as [Hl He]. rewrite <- Hl.
  destruct e; cbn [errorPlaced] in He; try contradiction; lia.
Qed.

Lemma thrown_error_lines_witness :
  exists st,
    validate Samples.misalignedLate newParser
    = Returned [errorIssue (BeatMarkersMisaligned 15) 17] st.
Proof.
  destruct (thrown_error_lines Samples.misalignedLate newParser
              {| lines := split newline Samples.misalignedLate; currentLine := 16 |}
              (BeatMarkersMisaligned 15)) as (ln & Hv & Hln & _).
  - vm_compute. reflexivity.
  - eexists. rewrite Hv, Hln. reflexivity.
Defined.

(** ** The diagnostics of [validate] *)

Section Diagnostics.

Lemma phrase_issues_are_errors (p : Phrase) :
  Forall (fun x => severity x = error) (validatePhrase [] p).
Proof.
  unfold validatePhrase, push. destruct (negb _); simpl.
  - constructor; [reflexivity | constructor].
  - rewrite (foldl_append _ _ (checkTokenLength_append p)). simpl.
    apply List.Forall_forall. intros x Hx. apply in_flat_map in Hx as (i & _ & Hx).
    unfold checkTokenLength, push in Hx. destruct (negb _); simpl in Hx; [|tauto].
    destruct Hx as [<-|[]]. reflexivity.
Qed.

Lemma metadata_issues_are_warnings (m : gmap jsstring MetaValue) :
  Forall (fun x => severity x = warning /\ line x = 1%nat) (checkGati m (checkTempo m [])).
Proof.
  unfold checkGati, checkTempo, push.
  destruct (numberField m k_tempo) as [t|], (numberField m k_gati) as [g|]; simpl;
    repeat match goal with |- context [if ?b then _ else _] => destruct b end;
    simpl; repeat constructor.
Qed.

(** The lines the diagnostics of one phrase carry. *)
Lemma phrase_issue_lines (p : Phrase) :
  Forall (fun x => (phrase_line_number p <= line x <= phrase_line_number p + 1)%nat)
    (validatePhrase [] p).
Proof.
  unfold validatePhrase, push. destruct (negb _); simpl.
  - constructor; [simpl; lia | constructor].
  - rewrite (foldl_append _ _ (checkTokenLength_append p)). simpl.
    apply List.Forall_forall. intros x Hx. apply in_flat_map in Hx as (i & _ & Hx).
    unfold checkTokenLength, push in Hx. destruct (negb _); simpl in Hx; [|tauto].
    destruct Hx as [<-|[]]. simpl. lia.
Qed.

(** X4: every diagnostic [validate] returns carries a line between 1 and
    the number of lines plus 2; a phrase that is cut off by the end of the
    text is reported up to two lines past the end. *)
Theorem diagnostics_near_the_text
    (content : jsstring) (st0 st : ParserState) (issues : list ValidationIssue) :
  validate content st0 = Returned issues st ->
  Forall (fun x => (1 <= line x <= length (split newline content) + 2)%nat) issues.
Proof.
  unfold validate. destruct (parse content st0) as [d st1|e st1|] eqn:Hparse;
    [| |discriminate]; intros [= <- <-].
  - rewrite validateDocument_unfold. apply Forall_app. split.
    + eapply Forall_impl; [apply metadata_issues_are_warnings|].
      simpl. intros x [_ ->]. lia.
    + destruct (parse_inv _ _ _ _ Hparse) as [_ [_ _ Hr Hb]].
      apply List.Forall_forall. intros x Hx.
      apply in_flat_map in Hx as (s & Hs & Hx). apply in_flat_map in Hx as (p & Hp & Hx).
      pose proof (phrase_issue_lines p) as Hl. rewrite List.Forall_forall in Hl.
      specialize (Hl x Hx). rewrite List.Forall_forall in Hb.
      assert (Hin : In (phrase_line_number p) (documentLineNumbers d)).
      { unfold documentLineNumbers. apply in_flat_map. exists s. split; [exact Hs|].
        right. now apply in_map. }
      rewrite List.Forall_forall in Hr.
      specialize (Hb _ Hin). specialize (Hr _ Hin). simpl in *. lia.
  - destruct (parse_thrown_placed _ _ _ _ Hparse) as [Hl He].
    constructor; [|constructor]. unfold push. simpl. rewrite <- Hl.
    destruct e; cbn [errorPlaced] in He; try contradiction; lia.
Qed.

Lemma diagnostics_near_the_text_witness :
  length (split newline dangling) = 7%nat
  /\ exists st, validate dangling newParser
                = Returned [errorIssue (BeatMarkersMisaligned 7) 9] st
  /\ Forall (fun x => (1 <= line x <= 9)%nat) [errorIssue (BeatMarkersMisaligned 7) 9].
Proof.
  split; [vm_compute; reflexivity|]. eexists. split; [vm_compute; reflexivity|].
  refine (diagnostics_near_the_text dangling newParser _ _ _).
  vm_compute. reflexivity.
Defined.


Lemma lengths_agree_iff (a b : list jsstring) :
  length a = length b ->
  (forall i, (i < length a)%nat ->
     length (default [] (a !! i)) = length (default [] (b !! i)))
  <-> map length a = map length b.
Proof.
  intros Hlen. split.
  - intros H. apply list_eq. intros i. rewrite !list_lookup_fmap.
    destruct (a !! i) as [x|] eqn:Ha.
    + destruct (b !! i) as [y|] eqn:Hb.
      * specialize (H i (lookup_lt_Some _ _ _ Ha)). rewrite Ha, Hb in H.
        simpl in *. now rewrite H.
      * apply lookup_lt_Some in Ha. apply lookup_ge_None in Hb. lia.
    + destruct (b !! i) as [y|] eqn:Hb; [|reflexivity].
      apply lookup_lt_Some in Hb. apply lookup_ge_None in Ha. lia.
  - intros H i Hi.
    assert (E : map length a !! i = map length b !! i) by now rewrite H.
    rewrite !list_lookup_fmap in E.
    destruct (a !! i) as [x|], (b !! i) as [y|]; simpl in *; congruence.
Qed.

Lemma phrase_passes_iff (p : Phrase) :
  Forall (fun x => severity x <> error) (validatePhrase [] p)
  <-> map length (swaras p) = map length (sahitya p).
Proof.
  unfold validatePhrase, push.
  destruct (Nat.eqb_spec (length (swaras p)) (length (sahitya p))) as [Hlen|Hlen];
    cbn [negb].
  - rewrite (foldl_append _ _ (checkTokenLength_append p)). cbn [app].
    rewrite <- (lengths_agree_iff _ _ Hlen). split.
    + intros Hall i Hi. rewrite List.Forall_forall in Hall.
      destruct (Nat.eqb_spec (length (default [] (swaras p !! i)))
                  (length (default [] (sahitya p !! i)))) as [E|E]; [exact E|].
      exfalso.
      assert (Hin : In (lengthIssue p i (default [] (swaras p !! i))
                          (default [] (sahitya p !! i)))
                      (flat_map (checkTokenLength p [])
                         (seq 0 (length (swaras p))))).
      { apply in_flat_map. exists i. split; [apply in_seq; lia|].
        unfold checkTokenLength, push. apply Nat.eqb_neq in E. rewrite E. simpl.
        left. reflexivity. }
      apply (Hall _ Hin). reflexivity.
    + intros H. apply List.Forall_forall. intros x Hx.
      apply in_flat_map in Hx as (i & Hi & Hx). apply in_seq in Hi.
      unfold checkTokenLength, push in Hx. rewrite (H i) in Hx by lia.
      rewrite Nat.eqb_refl in Hx. simpl in Hx. tauto.
  - split.
    + intros Hall. inversion Hall as [|x l Hx _]; subst. now destruct Hx.
    + intros H. exfalso. apply Hlen.
      apply (f_equal length) in H. now rewrite !length_map in H.
Qed.

(** X5: the diagnostics of a document contain no error exactly when, in
    every phrase, the swara tokens and the lyric tokens are equally many and
    have, place by place, the same number of code units. *)
Theorem validation_passes_iff (d : VnaDocument) :
  Forall (fun x => severity x <> error) (validateDocument d)
  <-> forall s p, In s (sections d) -> In p (phrases s) ->
        map length (swaras p) = map length (sahitya p).
Proof.
  rewrite validateDocument_unfold, Forall_app. split.
  - intros [_ Hall] s p Hs Hp. apply phrase_passes_iff.
    apply List.Forall_forall. intros x Hx. rewrite List.Forall_forall in Hall.
    apply Hall. apply in_flat_map. exists s. split; [exact Hs|].
    apply in_flat_map. exists p. split; [exact Hp | exact Hx].
  - intros H. split.
    + eapply Forall_impl; [apply metadata_issues_are_warnings|].
      simpl. intros x [-> _]. discriminate.
    + apply List.Forall_forall. intros x Hx.
      apply in_flat_map in Hx as (s & Hs & Hx). apply in_flat_map in Hx as (p & Hp & Hx).
      pose proof (proj2 (phrase_passes_iff p) (H s p Hs Hp)) as Hall.
      rewrite List.Forall_forall in Hall. now apply Hall.
Qed.

Lemma not_in_phrase_issues (d : VnaDocument) (x : ValidationIssue) :
  severity x = warning ->
  ~ In x (flat_map (fun s => flat_map (validatePhrase []) (phrases s)) (sections d)).
Proof.
  intros Hw Hx. apply in_flat_map in Hx as (s & _ & Hx).
  apply in_flat_map in Hx as (p & _ & Hx).
  pose proof (phrase_issues_are_errors p) as Hall. rewrite List.Forall_forall in Hall.
  specialize (Hall x Hx). congruence.
Qed.

Lemma numberField_Some (m : gmap jsstring MetaValue) (key : jsstring) (z : Z) :
  numberField m key = Some z <-> m !! key = Some (VNumber (Num z)) /\ z <> 0%Z.
Proof.
  unfold numberField. destruct (m !! key) as [[s|[|z']]|]; try (split; [discriminate|]);
    try (intros [H _]; discriminate).
  destruct (Z.eqb_spec z' 0); split.
  - discriminate.
  - intros [[= ->] H]. contradiction.
  - intros [= ->]. auto.
  - intros [[= ->] _]. reflexivity.
Qed.

Lemma checkGati_app (m : gmap jsstring MetaValue) (issues : list ValidationIssue) :
  checkGati m issues = issues ++ checkGati m [].
Proof.
  unfold checkGati, push. destruct (numberField m k_gati) as [g|];
    [destruct (negb (usualGati g))|]; simpl; now rewrite ?app_nil_r.
Qed.

Lemma in_checkTempo (m : gmap jsstring MetaValue) (x : ValidationIssue) :
  In x (checkTempo m [])
  <-> exists t, numberField m k_tempo = Some t /\ (t < 20 \/ 300 < t)%Z
                /\ x = {| severity := warning; message := UnusualTempo t; line := 1 |}.
Proof.
  unfold checkTempo, push. destruct (numberField m k_tempo) as [t|].
  - destruct (Z.ltb_spec t 20) as [H1|H1]; [|destruct (Z.ltb_spec 300 t) as [H2|H2]];
      cbn [orb app In]; split;
      try (intros [<-|[]]; exists t; repeat split; auto; lia);
      try (intros (t' & [= <-] & Hr & ->); auto; lia);
      intros [].
  - simpl. split; [intros []|intros (t & E & _); discriminate].
Qed.

Lemma in_checkGati (m : gmap jsstring MetaValue) (x : ValidationIssue) :
  In x (checkGati m [])
  <-> exists g, numberField m k_gati = Some g /\ usualGati g = false
                /\ x = {| severity := warning; message := UnusualGati g; line := 1 |}.
Proof.
  unfold checkGati, push. destruct (numberField m k_gati) as [g|].
  - destruct (usualGati g) eqn:Hu; cbn [negb app In]; split.
    + intros [].
    + intros (g' & [= <-] & Hr & _). congruence.
    + intros [<-|[]]. exists g. auto.
    + intros (g' & [= <-] & _ & ->). auto.
  - simpl. split; [intros []|intros (t & E & _); discriminate].
Qed.

(** X6: [validate] warns about the tempo exactly when the metadata holds a
    number for it that is not zero and lies below 20 or above 300, and about
    the gati exactly when it holds a number that is not zero and is none of
    3, 4, 5, 7, 9.  A tempo or gati of zero, like a [NaN], is never reported. *)
Theorem metadata_warnings_iff (d : VnaDocument) (t g : Z) :
  (In {| severity := warning; message := UnusualTempo t; line := 1 |} (validateDocument d)
   <-> metadata d !! k_tempo = Some (VNumber (Num t))
       /\ t <> 0%Z /\ (t < 20 \/ 300 < t)%Z)
  /\ (In {| severity := warning; message := UnusualGati g; line := 1 |} (validateDocument d)
      <-> metadata d !! k_gati = Some (VNumber (Num g))
          /\ g <> 0%Z /\ usualGati g = false).
Proof.
  rewrite validateDocument_unfold, checkGati_app.
  rewrite !in_app_iff, !in_checkTempo, !in_checkGati. split; split.
  - intros [[(t' & E & Hr & [= <-])|(g' & _ & _ & [=])]|Hin].
    + apply numberField_Some in E as [E Hnz]. auto.
    + now apply not_in_phrase_issues in Hin.
  - intros (E & Hnz & Hr). left. left. exists t. repeat split; auto.
    apply numberField_Some. auto.
  - intros [[(t' & _ & _ & [=])|(g' & E & Hu & [= <-])]|Hin].
    + apply numberField_Some in E as [E Hnz]. auto.
    + now apply not_in_phrase_issues in Hin.
  - intros (E & Hnz & Hu). left. right. exists g. repeat split; auto.
    apply numberField_Some. auto.
Qed.

End Diagnostics.

(** * The frontmatter reader ([parseMetadata], lines 68 to 106) *)

Lemma takeWhile_forallb (p : N -> bool) (s : jsstring) :
  forallb p (takeWhile p s) = true.
Proof.
  induction s as [|c s IH]; simpl; [reflexivity|].
  destruct (p c) eqn:E; simpl; [now rewrite E|reflexivity].
Qed.

Lemma takeWhile_stop (p : N -> bool) (a : jsstring) (c : N) (r : jsstring) :
  forallb p a = true -> p c = false ->
  takeWhile p (a ++ c :: r) = a /\ dropWhile p (a ++ c :: r) = c :: r.
Proof.
  intros Ha Hc. induction a as [|x a IH]; simpl in *.
  - now rewrite Hc.
  - apply andb_true_iff in Ha as [Hx Ha]. rewrite Hx.
    destruct (IH Ha) as [-> ->]. auto.
Qed.

Lemma takeWhile_all (p : N -> bool) (a : jsstring) :
  forallb p a = true -> takeWhile p a = a /\ dropWhile p a = [].
Proof.
  intros Ha. induction a as [|x a IH]; simpl in *; [auto|].
  apply andb_true_iff in Ha as [Hx Ha]. rewrite Hx.
  destruct (IH Ha) as [-> ->]. auto.
Qed.

(** What a matching frontmatter line captures. *)
Lemma matchYamlLine_captures (l key value : jsstring) :
  matchYamlLine l = Some (key, value) ->
  key <> [] /\ forallb isWordChar key = true /\ forallb notQuote value = true.
Proof.
  unfold matchYamlLine.
  pose proof (takeWhile_forallb isWordChar l) as Hk.
  destruct (takeWhile isWordChar l) as [|k0 k]; [discriminate|].
  destruct (dropWhile isWordChar l) as [|c rest]; [discriminate|].
  destruct (N.eqb c 58); [|discriminate].
  match goal with |- context [dropWhile notQuote ?r] =>
    pose proof (takeWhile_forallb notQuote r) as Hv;
    destruct (dropWhile notQuote r) as [|q [|q' r']] end.
  - intros [= <- <-]. repeat split; auto; discriminate.
  - destruct (N.eqb q quote); [|discriminate].
    intros [= <- <-]. repeat split; auto; discriminate.
  - discriminate.
Qed.

Lemma foldl_invariant {A B} (P : A -> Prop) (f : A -> B -> A) (l : list B) (a : A) :
  P a -> (forall a x, P a -> P (f a x)) -> P (foldl f a l).
Proof.
  intros Ha Hf. revert a Ha. induction l as [|x l IH]; intros a Ha; simpl; auto.
Qed.

Lemma applyYamlLine_stored (m : gmap jsstring MetaValue) (l : jsstring) :
  map_Forall storedField m -> map_Forall storedField (applyYamlLine m l).
Proof.
  intros Hm. unfold applyYamlLine.
  destruct (matchYamlLine l) as [[key value]|] eqn:E; [|exact Hm].
  apply matchYamlLine_captures in E as (Hne & Hw & Hq).
  assert (Hset : forall v,
    match v with
    | VString s => key <> k_tempo /\ key <> k_gati /\ forallb notQuote s = true
    | VNumber _ => key = k_tempo \/ key = k_gati
    end -> map_Forall storedField (setProperty m key v)).
  { intros v Hv. unfold setProperty.
    destruct (eqb key (str "__proto__")) eqn:Hp; [exact Hm|].
    apply map_Forall_insert_2; [|exact Hm].
    repeat split; auto. intros ->. discriminate. }
  destruct (eqb key k_tempo) eqn:Ht; cbn [orb].
  - apply Hset. left. now apply eqb_eq.
  - destruct (eqb key k_gati) eqn:Hg.
    + apply Hset. right. now apply eqb_eq.
    + apply Hset. repeat split; auto; intros ->; discriminate.
Qed.

(** The metadata of a parsed document, in closed form. *)
Lemma parse_metadata (content : jsstring) (st0 st : ParserState) (d : VnaDocument) :
  parse content st0 = Returned d st ->
  metadata d = foldl applyYamlLine ∅ (fst (yamlBlock (drop 1 (split newline content))))
  /\ requiredMissing (metadata d) = false.
Proof.
  rewrite parse_unfold. unfold bind at 1. rewrite parseMetadata_spec.
  cbn [lines currentLine].
  destruct (negb _); [discriminate|].
  destruct (requiredMissing _) eqn:Hreq; [discriminate|].
  unfold bind at 1.
  match goal with |- context [parseSections ?s0] =>
    destruct (parseSections s0) as [r st2| |] end; try discriminate.
  unfold ret. intros [= <- <-]. cbn [metadata]. auto.
Qed.

(** X7: in a parsed document the title, the raga and the tala are stored as
    strings that are not empty. *)
Theorem required_fields_present
    (content : jsstring) (st0 st : ParserState) (d : VnaDocument) :
  parse content st0 = Returned d st ->
  Forall (fun key => exists s, metadata d !! key = Some (VString s) /\ s <> [])
    [k_title; k_raga; k_tala].
Proof.
  intros E. destruct (parse_metadata _ _ _ _ E) as [Hm Hreq].
  assert (Hst : map_Forall storedField (metadata d)).
  { rewrite Hm. apply foldl_invariant; [apply map_Forall_empty|].
    intros a x. apply applyYamlLine_stored. }
  unfold requiredMissing in Hreq.
  apply orb_false_iff in Hreq as [Hreq Htala].
  apply orb_false_iff in Hreq as [Htitle Hraga].
  assert (Hkey : forall key, key <> k_tempo -> key <> k_gati ->
    falsy (metadata d !! key) = false ->
    exists s, metadata d !! key = Some (VString s) /\ s <> []).
  { intros key H1 H2 Hf. destruct (metadata d !! key) as [[s|n]|] eqn:Hl.
    - exists s. split; [reflexivity|]. intros ->. discriminate.
    - apply Hst in Hl. destruct Hl as (_ & _ & _ & [?|?]); contradiction.
    - discriminate. }
  repeat constructor; apply Hkey; auto; discriminate.
Qed.

(** X8: in a parsed document every metadata property has a name of one or
    more word characters other than [__proto__]; the tempo and the gati hold
    numbers and every other property holds a string without a double
    quote. *)
Theorem metadata_fields_typed
    (content : jsstring) (st0 st : ParserState) (d : VnaDocument)
    (key : jsstring) (v : MetaValue) :
  parse content st0 = Returned d st ->
  metadata d !! key = Some v ->
  key <> [] /\ forallb isWordChar key = true /\ key <> str "__proto__"
  /\ match v with
     | VString s => key <> k_tempo /\ key <> k_gati /\ forallb notQuote s = true
     | VNumber _ => key = k_tempo \/ key = k_gati
     end.
Proof.
  intros E Hl. destruct (parse_metadata _ _ _ _ E) as [Hm _].
  assert (Hst : map_Forall storedField (metadata d)).
  { rewrite Hm. apply foldl_invariant; [apply map_Forall_empty|].
    intros a x. apply applyYamlLine_stored. }
  exact (Hst key v Hl).
Qed.

Lemma applyYamlLine_same (m : gmap jsstring MetaValue) (l key value : jsstring) :
  matchYamlLine l = Some (key, value) ->
  key <> str "__proto__" ->
  applyYamlLine m l !! key
  = Some (if eqb key k_tempo || eqb key k_gati
          then VNumber (parseInt10 value) else VString value).
Proof.
  intros E Hp. unfold applyYamlLine. rewrite E. unfold setProperty.
  destruct (eqb key (str "__proto__")) eqn:Hp'; [apply eqb_eq in Hp'; contradiction|].
  destruct (_ || _); apply lookup_insert_eq.
Qed.

(** X9: when several frontmatter lines name the same key, the last of them
    decides the property: the tempo and the gati are read with [parseInt],
    every other value is kept as the string captured. *)
Theorem last_frontmatter_line_wins
    (content : jsstring) (st0 st : ParserState) (d : VnaDocument)
    (before after : list jsstring) (l key value : jsstring) :
  parse content st0 = Returned d st ->
  fst (yamlBlock (drop 1 (split newline content))) = before ++ l :: after ->
  matchYamlLine l = Some (key, value) ->
  key <> str "__proto__" ->
  Forall (fun l' => forall v, matchYamlLine l' <> Some (key, v)) after ->
  metadata d !! key
  = Some (if eqb key k_tempo || eqb key k_gati
          then VNumber (parseInt10 value) else VString value).
Proof.
  intros E Hb Hl Hp Hafter. destruct (parse_metadata _ _ _ _ E) as [-> _].
  rewrite Hb, foldl_app. cbn [foldl].
  rewrite foldl_applyYamlLine_other by exact Hafter.
  now apply applyYamlLine_same.
Qed.

(** X10: a key no frontmatter line names is absent from the metadata; in
    particular no line can set [__proto__]. *)
Theorem unnamed_key_absent
    (content : jsstring) (st0 st : ParserState) (d : VnaDocument) (key : jsstring) :
  parse content st0 = Returned d st ->
  (key = str "__proto__"
   \/ Forall (fun l => forall v, matchYamlLine l <> Some (key, v))
        (fst (yamlBlock (drop 1 (split newline content))))) ->
  metadata d !! key = None.
Proof.
  intros E [->|Hno].
  - destruct (metadata d !! str "__proto__") as [v|] eqn:Hl; [|reflexivity].
    destruct (parse_metadata _ _ _ _ E) as [Hm _].
    assert (Hst : map_Forall storedField (metadata d)).
    { rewrite Hm. apply foldl_invariant; [apply map_Forall_empty|].
      intros a x. apply applyYamlLine_stored. }
    apply Hst in Hl. destruct Hl as (_ & _ & Hp & _). contradiction.
  - destruct (parse_metadata _ _ _ _ E) as [-> _].
    rewrite foldl_applyYamlLine_other by exact Hno. apply lookup_empty.
Qed.

(** X11: a line made of a key of word characters, a colon, any white space
    and a value between double quotes is read back as that key and that
    value, white space inside the quotes included; the closing quote may be
    left out. *)
Theorem quoted_field_round_trip (key ws value : jsstring) (closed : bool) :
  key <> [] ->
  forallb isWordChar key = true ->
  forallb isSpace ws = true ->
  forallb notQuote value = true ->
  matchYamlLine (key ++ [58] ++ ws ++ [quote] ++ value ++ (if closed then [quote] else []))
  = Some (key, value).
Proof.
  intros Hne Hk Hws Hv. unfold matchYamlLine.
  destruct (takeWhile_stop isWordChar key 58
              (ws ++ [quote] ++ value ++ (if closed then [quote] else [])) Hk eq_refl)
    as [E1 E2].
  cbn [app] in *. rewrite E1, E2.
  destruct key as [|k0 key]; [contradiction|].
  cbn [N.eqb Pos.eqb].
  destruct (takeWhile_stop isSpace ws quote
              (value ++ (if closed then [quote] else [])) Hws eq_refl) as [_ E3].
  rewrite E3. cbn [N.eqb quote Pos.eqb].
  destruct closed.
  - destruct (takeWhile_stop notQuote value quote [] Hv eq_refl) as [E4 E5].
    rewrite E4, E5. reflexivity.
  - rewrite app_nil_r. destruct (takeWhile_all notQuote value Hv) as [E4 E5].
    rewrite E4, E5. reflexivity.
Qed.

Lemma required_fields_present_witness :
  exists d st,
    parse repeated newParser = Returned d st
    /\ Forall (fun key => exists s, metadata d !! key = Some (VString s) /\ s <> [])
         [k_title; k_raga; k_tala].
Proof.
  do 2 eexists. split; [vm_compute; reflexivity|].
  refine (required_fields_present repeated newParser _ _ _).
  vm_compute. reflexivity.
Defined.

Lemma metadata_fields_typed_witness :
  exists d st,
    parse repeated newParser = Returned d st
    /\ metadata d !! k_tempo = Some (VNumber (Num 90))
    /\ (k_tempo = k_tempo \/ k_tempo = k_gati).
Proof.
  do 2 eexists. split; [vm_compute; reflexivity|].
  split; [vm_compute; reflexivity|].
  refine (proj2 (proj2 (proj2
            (metadata_fields_typed repeated newParser _ _ k_tempo (VNumber (Num 90)) _ _)))).
  - vm_compute. reflexivity.
  - vm_compute. reflexivity.
Defined.

Lemma last_frontmatter_line_wins_witness :
  exists d st,
    parse repeated newParser = Returned d st
    /\ metadata d !! k_title = Some (VString (str "Other")).
Proof.
  do 2 eexists. split; [vm_compute; reflexivity|].
  refine (last_frontmatter_line_wins repeated newParser _ _
            [ str "title: " ++ Samples.quoted "Test";
              str "raga: " ++ Samples.quoted "mohanam";
              str "tala: " ++ Samples.quoted "adi" ]
            [ str "tempo: 90 bpm" ]
            (str "title: " ++ Samples.quoted "Other") k_title (str "Other")
            _ _ _ _ _).
  - vm_compute. reflexivity.
  - vm_compute. reflexivity.
  - vm_compute. reflexivity.
  - discriminate.
  - repeat constructor. intros v. vm_compute. discriminate.
Defined.

Lemma unnamed_key_absent_witness :
  exists d st,
    parse repeated newParser = Returned d st
    /\ metadata d !! str "composer" = None.
Proof.
  do 2 eexists. split; [vm_compute; reflexivity|].
  refine (unnamed_key_absent repeated newParser _ _ (str "composer") _ _).
  - vm_compute. reflexivity.
  - right. vm_compute. repeat constructor; intros v; discriminate.
Defined.

Lemma quoted_field_round_trip_witness :
  matchYamlLine (str "raga:  " ++ [quote] ++ str " kalyani" ++ [quote])
  = Some (str "raga", str " kalyani").
Proof.
  refine (quoted_field_round_trip (str "raga") (str "  ") (str " kalyani") true _ _ _ _).
  - discriminate.
  - reflexivity.
  - reflexivity.
  - reflexivity.
Defined.

(** X25: anything that follows the closing double quote of a frontmatter
    value, be it a single space or the carriage return of a line ending,
    keeps the line from matching, so the field is not read at all. *)
Theorem text_after_closing_quote (key ws value trailing : jsstring) :
  key <> [] ->
  forallb isWordChar key = true ->
  forallb isSpace ws = true ->
  forallb notQuote value = true ->
  trailing <> [] ->
  matchYamlLine (key ++ [58] ++ ws ++ [quote] ++ value ++ [quote] ++ trailing) = None.
Proof.
  intros Hne Hk Hws Hv Ht. unfold matchYamlLine.
  destruct (takeWhile_stop isWordChar key 58
              (ws ++ [quote] ++ value ++ [quote] ++ trailing) Hk eq_refl) as [E1 E2].
  cbn [app] in *. rewrite E1, E2.
  destruct key as [|k0 key]; [contradiction|].
  cbn [N.eqb Pos.eqb].
  destruct (takeWhile_stop isSpace ws quote (value ++ quote :: trailing) Hws eq_refl)
    as [_ E3].
  rewrite E3. cbn [N.eqb quote Pos.eqb].
  destruct (takeWhile_stop notQuote value quote trailing Hv eq_refl) as [_ E5].
  rewrite E5. destruct trailing; [contradiction | reflexivity].
Qed.

Lemma text_after_closing_quote_witness :
  matchYamlLine (str "title: " ++ Samples.quoted "Test" ++ [13]) = None.
Proof.
  refine (text_after_closing_quote (str "title") (str " ") (str "Test") [13] _ _ _ _ _).
  - discriminate.
  - reflexivity.
  - reflexivity.
  - reflexivity.
  - discriminate.
Defined.

(** * The notation-line splitter in closed form ([parseNotationLine],
      lines 218 to 243) *)

Section Words.

Lemma splitSpacesAux_cons (f : bool) (s : jsstring) :
  splitSpacesAux f s = hd [] (splitSpacesAux f s) :: tl (splitSpacesAux f s).
Proof.
  revert f. induction s as [|c s IH]; intros f; simpl; [reflexivity|].
  destruct (isSpace c).
  - destruct f; [apply IH | reflexivity].
  - rewrite (IH false). reflexivity.
Qed.

Lemma words_flag (s : jsstring) :
  List.filter nonEmpty (splitSpacesAux true s) = words s.
Proof.
  unfold words, splitSpaces. destruct s as [|c s]; simpl; [reflexivity|].
  destruct (isSpace c); reflexivity.
Qed.

Lemma words_space (c : N) (s : jsstring) :
  isSpace c = true -> words (c :: s) = words s.
Proof.
  intros Hc. unfold words at 1. unfold splitSpaces. simpl. rewrite Hc. simpl.
  apply words_flag.
Qed.

Lemma words_letter (c : N) (s : jsstring) :
  isSpace c = false ->
  words (c :: s)
  = (c :: hd [] (splitSpaces s)) :: List.filter nonEmpty (tl (splitSpaces s)).
Proof.
  intros Hc. unfold words, splitSpaces. simpl. rewrite Hc.
  rewrite (splitSpacesAux_cons false s). reflexivity.
Qed.

(** The pieces of a string with a white-space character in it: the first
    piece is that of the part before, the rest adds the words of the part
    after. *)
Lemma splitSpaces_app (a b : jsstring) (c : N) :
  isSpace c = true ->
  hd [] (splitSpaces (a ++ c :: b)) = hd [] (splitSpaces a)
  /\ List.filter nonEmpty (tl (splitSpaces (a ++ c :: b)))
     = List.filter nonEmpty (tl (splitSpaces a)) ++ words b.
Proof.
  intros Hc. unfold splitSpaces. induction a as [|x a [IH1 IH2]]; simpl.
  - rewrite Hc. simpl. split; [reflexivity | apply words_flag].
  - destruct (isSpace x) eqn:Hx; simpl.
    + split; [reflexivity|]. rewrite !words_flag.
      unfold words, splitSpaces.
      rewrite (splitSpacesAux_cons false (a ++ c :: b)).
      rewrite (splitSpacesAux_cons false a). simpl. rewrite IH1, IH2.
      destruct (nonEmpty _); reflexivity.
    + rewrite (splitSpacesAux_cons false (a ++ c :: b)).
      rewrite (splitSpacesAux_cons false a). simpl. rewrite IH1. auto.
Qed.

Lemma words_app (a b : jsstring) (c : N) :
  isSpace c = true -> words (a ++ c :: b) = words a ++ words b.
Proof.
  intros Hc. destruct (splitSpaces_app a b c Hc) as [H1 H2].
  unfold words at 1 2.
  rewrite (splitSpacesAux_cons false (a ++ c :: b) : splitSpaces _ = _).
  rewrite (splitSpacesAux_cons false a : splitSpaces _ = _).
  fold (splitSpaces (a ++ c :: b)). fold (splitSpaces a). simpl.
  rewrite H1, H2. destruct (nonEmpty _); reflexivity.
Qed.

Lemma words_nil : words [] = [].
Proof. reflexivity. Qed.

Lemma words_trimStart (s : jsstring) : words (trimStart s) = words s.
Proof.
  unfold trimStart. induction s as [|c s IH]; simpl; [reflexivity|].
  destruct (isSpace c) eqn:Hc; [|reflexivity].
  now rewrite IH, words_space.
Qed.

Lemma words_trimEnd (s : jsstring) : words (trimEnd s) = words s.
Proof.
  unfold trimEnd. rewrite <- (rev_involutive s) at 2.
  induction (rev s) as [|c r IH]; simpl; [reflexivity|].
  destruct (isSpace c) eqn:Hc.
  - rewrite IH. rewrite (words_app (rev r) [] c Hc), words_nil.
    now rewrite app_nil_r.
  - reflexivity.
Qed.

Lemma words_trim (s : jsstring) : words (trim s) = words s.
Proof. unfold trim. now rewrite words_trimEnd, words_trimStart. Qed.

Lemma split_cons (sep : N) (s : jsstring) :
  split sep s = hd [] (split sep s) :: tl (split sep s).
Proof.
  destruct s as [|c s]; simpl; [reflexivity|].
  destruct (N.eqb c sep); [reflexivity|].
  destruct (split sep s); reflexivity.
Qed.

(** Joining the pieces of a string gives the string back. *)
Lemma joinWith_split (sep : N) (s : jsstring) : joinWith sep (split sep s) = s.
Proof.
  induction s as [|c s IH]; simpl; [reflexivity|].
  destruct (N.eqb_spec c sep) as [->|Hc].
  - rewrite (split_cons sep s) in IH |- *. simpl in *. now rewrite IH.
  - rewrite (split_cons sep s) in IH |- *. simpl in *.
    destruct (tl (split sep s)); simpl in *; now rewrite IH.
Qed.

Lemma barToSpace_id (p : jsstring) : ~ In bar p -> map barToSpace p = p.
Proof.
  induction p as [|c p IH]; simpl; [reflexivity|]. intros Hno.
  rewrite IH by tauto. unfold barToSpace.
  destruct (N.eqb_spec c bar) as [->|_]; [tauto | reflexivity].
Qed.

Lemma words_joinWith (pieces : list jsstring) :
  Forall (fun p => ~ In bar p) pieces ->
  words (map barToSpace (joinWith bar pieces)) = flat_map words pieces.
Proof.
  induction 1 as [|p ps Hp _ IH]; [reflexivity|].
  destruct ps as [|q ps].
  - simpl. now rewrite barToSpace_id, app_nil_r.
  - change (joinWith bar (p :: q :: ps)) with (p ++ bar :: joinWith bar (q :: ps)).
    rewrite map_app. cbn [map]. rewrite barToSpace_id by exact Hp.
    change (barToSpace bar) with 32.
    rewrite words_app by reflexivity. rewrite IH. reflexivity.
Qed.

(** The words of the pieces between bars are the words of the string with
    its bars read as spaces. *)
Lemma words_split (s : jsstring) :
  flat_map words (split bar s) = words (map barToSpace s).
Proof.
  rewrite <- (joinWith_split bar s) at 2. symmetry. apply words_joinWith.
  apply split_no_sep.
Qed.

End Words.

Section Beats.

Lemma map_seq_shift {X} (f : nat -> X) (n : nat) :
  map f (seq 1 n) = map (fun k => f (S k)) (seq 0 n).
Proof. rewrite <- seq_shift, map_map. reflexivity. Qed.

(** The loop over the beats, from any state, when [i] is the index of the
    first beat left. *)
Lemma forEachBeat_closed (n : nat) (beats : list jsstring) :
  forall st i,
    (i + length beats = n)%nat ->
    let st' := forEachBeat n st i beats in
    ss_tokens st' = ss_tokens st ++ flat_map words beats
    /\ ss_currentPos st' = (ss_currentPos st + length (flat_map words beats))%nat
    /\ ss_beatPositions st'
       = ss_beatPositions st
         ++ List.filter (Nat.ltb 0)
              (map (fun k => (ss_currentPos st + tokensBefore beats (S k))%nat)
                 (seq 0 (length beats - 1))).
Proof.
  induction beats as [|b rest IH]; intros st i Hn; cbn [forEachBeat].
  - cbn. rewrite !app_nil_r. auto with arith.
  - cbn [length] in Hn.
    destruct (IH (beatStep n st i b) (S i) ltac:(lia)) as (T & P & B).
    cbv zeta. rewrite T, P, B. unfold beatStep.
    cbn [ss_tokens ss_currentPos ss_beatPositions flat_map].
    fold (words (trim b)). rewrite words_trim.
    rewrite <- app_assoc, length_app. repeat split; [lia|].
    destruct rest as [|b' rest].
    + replace (Nat.ltb i (n - 1)) with false
        by (symmetry; apply Nat.ltb_ge; simpl in Hn; lia).
      reflexivity.
    + replace (Nat.ltb i (n - 1)) with true
        by (symmetry; apply Nat.ltb_lt; simpl in Hn; lia).
      cbn [andb length]. replace (S (S (length rest)) - 1)%nat with (S (length rest)) by lia.
      replace (S (length rest) - 1)%nat with (length rest) by lia.
      cbn [seq map List.filter]. rewrite map_seq_shift.
      assert (E0 : tokensBefore (b :: b' :: rest) 1 = length (words b)).
      { unfold tokensBefore. cbn [take flat_map]. now rewrite app_nil_r. }
      rewrite E0.
      assert (E : forall k,
        (ss_currentPos st + length (words b) + tokensBefore (b' :: rest) (S k))%nat
        = (ss_currentPos st + tokensBefore (b :: b' :: rest) (S (S k)))%nat).
      { intros k. unfold tokensBefore. cbn [take flat_map].
        rewrite !length_app. lia. }
      rewrite (map_ext _ _ E).
      destruct (Nat.ltb 0 (ss_currentPos st + length (words b))); cbn [app];
        [rewrite <- app_assoc|]; reflexivity.
Qed.

End Beats.

(** X13: the tokens of a notation line are the words of the line, its
    closing double bar taken off, with every bar read as a space: bars
    separate tokens and never become part of one. *)
Theorem tokens_are_words (l : jsstring) :
  tokens (parseNotationLine l) = words (map barToSpace (cleanLine l)).
Proof.
  unfold parseNotationLine. cbn [tokens].
  destruct (forEachBeat_closed (length (split bar (cleanLine l)))
              (split bar (cleanLine l))
              {| ss_tokens := []; ss_beatPositions := []; ss_currentPos := 0 |}
              0%nat eq_refl) as (T & _ & _).
  rewrite T. cbn [ss_tokens app]. apply words_split.
Qed.

(** X14: the beat positions of a notation line are, bar by bar, the number
    of tokens before that bar, a bar with no token before it being left
    out; a line without a bar has none. *)
Theorem beat_positions_count_tokens (l : jsstring) :
  let beats := split bar (cleanLine l) in
  beatPositions (parseNotationLine l)
  = List.filter (Nat.ltb 0) (map (fun k => tokensBefore beats (S k))
                               (seq 0 (length beats - 1))).
Proof.
  intros beats. unfold parseNotationLine. cbn [beatPositions]. fold beats.
  destruct (forEachBeat_closed (length beats) beats
              {| ss_tokens := []; ss_beatPositions := []; ss_currentPos := 0 |}
              0%nat eq_refl) as (_ & _ & B).
  rewrite B. reflexivity.
Qed.

(** * The adapter between the parser and the staff
      ([normalizePhrase] and the token split of the drawing routines) *)

Section AdapterFacts.

Import Adapter.

Lemma splitSpaces_word (t : jsstring) :
  Forall (fun c => isSpace c = false) t -> splitSpacesAux false t = [t].
Proof.
  induction 1 as [|c t Hc _ IH]; simpl; [reflexivity|].
  now rewrite Hc, IH.
Qed.

Lemma splitSpaces_word_space (t r : jsstring) :
  Forall (fun c => isSpace c = false) t ->
  splitSpacesAux false (t ++ space :: r) = t :: splitSpacesAux true r.
Proof.
  induction 1 as [|c t Hc _ IH]; simpl; [reflexivity|].
  now rewrite Hc, IH.
Qed.

Lemma splitSpacesAux_letter (f : bool) (c : N) (s : jsstring) :
  isSpace c = false -> splitSpacesAux f (c :: s) = splitSpacesAux false (c :: s).
Proof. intros Hc. simpl. now rewrite Hc. Qed.

Lemma join_starts_with_letter (t : jsstring) (rest : list jsstring) :
  isWord t -> exists c s, isSpace c = false /\ join (t :: rest) = c :: s.
Proof.
  intros [Hne Hw]. destruct t as [|c t]; [contradiction|].
  inversion Hw as [|? ? Hc _]; subst. exists c.
  destruct rest; simpl; eauto.
Qed.

Lemma splitSpaces_join (t : jsstring) (rest : list jsstring) :
  Forall isWord (t :: rest) -> splitSpaces (join (t :: rest)) = t :: rest.
Proof.
  unfold splitSpaces. revert t. induction rest as [|q rest IH]; intros t Hall.
  - inversion Hall as [|? ? [_ Hw] _]; subst. simpl. now apply splitSpaces_word.
  - inversion Hall as [|? ? [_ Hw] Hrest]; subst.
    change (join (t :: q :: rest)) with (t ++ space :: join (q :: rest)).
    rewrite splitSpaces_word_space by exact Hw.
    inversion Hrest as [|? ? Hq _]; subst.
    destruct (join_starts_with_letter q rest Hq) as (c & s & Hc & E).
    rewrite E, splitSpacesAux_letter by exact Hc. rewrite <- E.
    now rewrite IH.
Qed.

End AdapterFacts.

(** X15: joining the tokens of a line with single spaces, as the adapter
    does, and splitting the result at white space, as the staff does, gives
    the tokens back when none of them is empty or holds white space; for a
    line without tokens the staff is handed one empty token. *)
Theorem adapter_round_trip (tokens : list jsstring) :
  Forall Adapter.isWord tokens ->
  Adapter.rendererTokens (inr (Adapter.normalizeLine (inl tokens)))
  = match tokens with [] => [[]] | _ => tokens end.
Proof.
  intros Hall. cbn [Adapter.normalizeLine Adapter.rendererTokens].
  destruct tokens as [|t rest]; [reflexivity|]. now apply splitSpaces_join.
Qed.

Lemma adapter_round_trip_witness :
  Adapter.rendererTokens
    (inr (Adapter.normalizeLine (inl [str "G,G,"; str "R,,,"; str "SSRR"])))
  = [str "G,G,"; str "R,,,"; str "SSRR"].
Proof.
  refine (adapter_round_trip [str "G,G,"; str "R,,,"; str "SSRR"] _).
  repeat constructor; discriminate.
Defined.

(** * The frontmatter reader of the WASM front end
      ([VNAParser.parseMetadata] of [lib/vna-parser-wasm.ts], lines 97 to 149) *)

Section WasmFacts.

(** The loop from index [i] on: either it runs to the end and leaves
    [endIndex] at 0, or it leaves through the closing delimiter at index
    [e - 1] and nothing from index [e] on is read. *)
Lemma scanLines_closed (ls : list jsstring) :
  forall i f m m' e,
    Wasm.scanLines i f m ls = (m', e) ->
    e = O
    \/ ((i < e <= i + length ls)%nat
        /\ (f = false -> (i + 2 <= e)%nat)
        /\ (exists l, ls !! (e - 1 - i)%nat = Some l /\ trim l = delimiter)
        /\ forall rest, Wasm.scanLines i f m (take (e - i) ls ++ rest) = (m', e)).
Proof.
  induction ls as [|l ls IH]; intros i f m m' e; cbn [Wasm.scanLines].
  - intros [= _ <-]. now left.
  - cbv zeta. destruct (eqb (trim l) delimiter) eqn:Hd.
    + destruct f; cbn [negb].
      * intros [= <- <-]. right. cbn [length].
        split; [lia|]. split; [discriminate|]. split.
        -- exists l. replace (S i - 1 - i)%nat with O by lia.
           split; [reflexivity | now apply eqb_eq].
        -- intros rest. replace (S i - i)%nat with 1%nat by lia.
           cbn [take app Wasm.scanLines]. cbv zeta. now rewrite Hd.
      * intros E. destruct (IH _ _ _ _ _ E) as [->|(Hr & _ & (l' & Hl & Ht) & Hrest)];
          [now left|]. right. cbn [length].
        split; [lia|]. split; [lia|]. split.
        -- exists l'. replace (e - 1 - i)%nat with (S (e - 1 - S i)) by lia.
           split; [exact Hl | exact Ht].
        -- intros rest. replace (e - i)%nat with (S (e - S i)) by lia.
           cbn [take app Wasm.scanLines]. cbv zeta. rewrite Hd. cbn [negb].
           apply Hrest.
    + destruct f.
      * intros E. destruct (IH _ _ _ _ _ E) as [->|(Hr & _ & (l' & Hl & Ht) & Hrest)];
          [now left|]. right. cbn [length].
        split; [lia|]. split; [discriminate|]. split.
        -- exists l'. replace (e - 1 - i)%nat with (S (e - 1 - S i)) by lia.
           split; [exact Hl | exact Ht].
        -- intros rest. replace (e - i)%nat with (S (e - S i)) by lia.
           cbn [take app Wasm.scanLines]. cbv zeta. rewrite Hd.
           apply Hrest.
      * intros E. destruct (IH _ _ _ _ _ E) as [->|(Hr & H2 & (l' & Hl & Ht) & Hrest)];
          [now left|]. right. specialize (H2 eq_refl). cbn [length].
        split; [lia|]. split; [lia|]. split.
        -- exists l'. replace (e - 1 - i)%nat with (S (e - 1 - S i)) by lia.
           split; [exact Hl | exact Ht].
        -- intros rest. replace (e - i)%nat with (S (e - S i)) by lia.
           cbn [take app Wasm.scanLines]. cbv zeta. rewrite Hd.
           apply Hrest.
Qed.

Lemma wordChar_not_space (c : N) : isWordChar c = true -> isSpace c = false.
Proof.
  intros Hw. destruct (isSpace c) eqn:Hs; [|reflexivity].
  unfold isSpace in Hs. apply existsb_exists in Hs as (x & Hin & Hx).
  apply N.eqb_eq in Hx. subst x.
  cbn [In] in Hin.
  repeat (destruct Hin as [<-|Hin]; [discriminate Hw|]). destruct Hin.
Qed.

Lemma wordChar_not_colon (c : N) : isWordChar c = true -> Wasm.notColon c = true.
Proof.
  intros Hw. unfold Wasm.notColon. destruct (N.eqb_spec c Wasm.colon) as [->|]; auto.
Qed.

Lemma forallb_impl (p q : N -> bool) (s : jsstring) :
  (forall c, p c = true -> q c = true) -> forallb p s = true -> forallb q s = true.
Proof.
  intros Hpq. rewrite !forallb_forall. auto.
Qed.

Lemma trimStart_stop (ws : jsstring) (c : N) (r : jsstring) :
  forallb isSpace ws = true -> isSpace c = false -> trimStart (ws ++ c :: r) = c :: r.
Proof. intros Hws Hc. exact (proj2 (takeWhile_stop isSpace ws c r Hws Hc)). Qed.

Lemma trimEnd_stop (s : jsstring) (c : N) :
  isSpace c = false -> trimEnd (s ++ [c]) = s ++ [c].
Proof.
  intros Hc. unfold trimEnd. rewrite rev_app_distr. simpl. rewrite Hc. simpl.
  now rewrite rev_involutive.
Qed.

(** A string that starts and ends with characters that are no white space
    is left alone by [trim]. *)
Lemma trim_word (s : jsstring) :
  s <> [] -> forallb (fun c => negb (isSpace c)) s = true -> trim s = s.
Proof.
  intros Hne Hall. unfold trim.
  destruct s as [|c s]; [contradiction|].
  assert (Hc : isSpace c = false).
  { simpl in Hall. apply andb_true_iff in Hall as [Hc _]. now destruct (isSpace c). }
  rewrite (trimStart_stop [] c s eq_refl Hc : trimStart (c :: s) = c :: s).
  destruct (exists_last (l := c :: s) ltac:(discriminate)) as (s' & z & E).
  rewrite E in Hall |- *. apply trimEnd_stop.
  rewrite forallb_app in Hall. apply andb_true_iff in Hall as [_ Hz].
  simpl in Hz. now destruct (isSpace z).
Qed.

End WasmFacts.

(** X16: when the reader of the WASM front end reports a non-zero
    [endIndex], that index is at least 2 and at most the number of lines, the
    line before it is the closing delimiter, and no line from it on is ever
    read: any other body after the frontmatter gives the same result. *)
Theorem wasm_metadata_ignores_body (lines : list jsstring) (m : Wasm.Metadata) (e : nat) :
  Wasm.parseMetadata lines = (m, e) ->
  e <> O ->
  (2 <= e <= length lines)%nat
  /\ (exists l, lines !! (e - 1)%nat = Some l /\ trim l = delimiter)
  /\ forall body, Wasm.parseMetadata (take e lines ++ body) = (m, e).
Proof.
  unfold Wasm.parseMetadata. intros E He.
  destruct (scanLines_closed _ _ _ _ _ _ E) as [->|(Hr & H2 & (l & Hl & Ht) & Hrest)];
    [contradiction|].
  specialize (H2 eq_refl). repeat split; try lia.
  - exists l. replace (e - 1)%nat with (e - 1 - 0)%nat by lia. auto.
  - intros body. replace e with (e - 0)%nat at 1 by lia. apply Hrest.
Qed.

Lemma wasm_metadata_ignores_body_witness :
  exists m,
    Wasm.parseMetadata (split newline Samples.scenario) = (m, 5%nat)
    /\ Wasm.title m = Some (str "Test")
    /\ forall body,
         Wasm.parseMetadata (take 5 (split newline Samples.scenario) ++ body) = (m, 5%nat).
Proof.
  eexists. split; [vm_compute; reflexivity|]. split; [vm_compute; reflexivity|].
  refine (proj2 (proj2 (wasm_metadata_ignores_body
                          (split newline Samples.scenario) _ 5 _ _))).
  - vm_compute. reflexivity.
  - discriminate.
Defined.

(** X17: on a frontmatter line made of a key of word characters, a colon,
    any white space and a value between double quotes, the value holding no
    double quote, the reader of [VnaParser] and the reader of the WASM front
    end take the same key and the same value. *)
Theorem readers_agree_on_quoted_fields (key ws value : jsstring) :
  key <> [] ->
  forallb isWordChar key = true ->
  forallb isSpace ws = true ->
  forallb notQuote value = true ->
  let line := key ++ [58] ++ ws ++ [quote] ++ value ++ [quote] in
  matchYamlLine line = Some (key, value)
  /\ Wasm.keyValue (trim line) = Some (key, value).
Proof.
  intros Hne Hk Hws Hv line. split.
  - unfold matchYamlLine, line.
    destruct (takeWhile_stop isWordChar key 58
                (ws ++ [quote] ++ value ++ [quote]) Hk eq_refl) as [E1 E2].
    cbn [app] in *. rewrite E1, E2.
    destruct key as [|k0 key]; [contradiction|].
    cbn [N.eqb Pos.eqb].
    destruct (takeWhile_stop isSpace ws quote (value ++ [quote]) Hws eq_refl) as [_ E3].
    rewrite E3. cbn [N.eqb quote Pos.eqb].
    destruct (takeWhile_stop notQuote value quote [] Hv eq_refl) as [E4 E5].
    rewrite E4, E5. reflexivity.
  - assert (Hnsp : forallb (fun c => negb (isSpace c)) key = true).
    { eapply forallb_impl; [|exact Hk]. intros c Hc.
      now rewrite (wordChar_not_space c Hc). }
    assert (Htrim : trim line = line).
    { unfold trim, line.
      destruct key as [|k0 key]; [contradiction|].
      assert (Hk0 : isSpace k0 = false).
      { simpl in Hnsp. apply andb_true_iff in Hnsp as [H _]. now destruct (isSpace k0). }
      cbn [app].
      rewrite (trimStart_stop [] k0 _ eq_refl Hk0 : trimStart (k0 :: _) = _).
      change (k0 :: key ++ 58 :: ws ++ quote :: value ++ [quote])
        with ((k0 :: key) ++ 58 :: ws ++ quote :: value ++ [quote]).
      replace ((k0 :: key) ++ 58 :: ws ++ quote :: value ++ [quote])
        with (((k0 :: key) ++ 58 :: ws ++ quote :: value) ++ [quote])
        by (rewrite <- !app_assoc; cbn [app]; now rewrite <- !app_assoc).
      now apply trimEnd_stop. }
    rewrite Htrim. unfold Wasm.keyValue, line.
    assert (Hnc : forallb Wasm.notColon key = true).
    { eapply forallb_impl; [|exact Hk]. apply wordChar_not_colon. }
    destruct (takeWhile_stop Wasm.notColon key 58
                (ws ++ [quote] ++ value ++ [quote]) Hnc eq_refl) as [E1 E2].
    cbn [app] in *. rewrite E1, E2.
    destruct key as [|k0 key]; [contradiction|].
    rewrite (trim_word (k0 :: key)) by (discriminate || exact Hnsp).
    f_equal. f_equal.
    unfold trim. rewrite (trimStart_stop ws quote (value ++ [quote]) Hws eq_refl).
    change (quote :: value ++ [quote]) with ((quote :: value) ++ [quote]).
    rewrite trimEnd_stop by reflexivity.
    cbn [app Wasm.stripQuotes Wasm.isQuoteChar]. cbn [N.eqb quote Pos.eqb orb].
    unfold Wasm.dropLastQuote. rewrite rev_app_distr. cbn [rev app].
    cbn [Wasm.isQuoteChar N.eqb quote Pos.eqb orb]. apply rev_involutive.
Qed.

Lemma readers_agree_on_quoted_fields_witness :
  matchYamlLine (str "raga: " ++ Samples.quoted "mohanam") = Some (str "raga", str "mohanam")
  /\ Wasm.keyValue (trim (str "raga: " ++ Samples.quoted "mohanam"))
     = Some (str "raga", str "mohanam").
Proof.
  refine (readers_agree_on_quoted_fields (str "raga") (str " ") (str "mohanam") _ _ _ _).
  - discriminate.
  - reflexivity.
  - reflexivity.
  - reflexivity.
Defined.

(** * The older parser ([lib/vna-parser.ts]) *)

Section LegacyFacts.

Import LegacyScan.

(** With a number of delimiter lines other than two the flag never flips
    and the callback changes nothing. *)
Lemma scanLine_idle (n : nat) (st : ScanState) (l : jsstring) :
  n <> 2%nat -> inMetadata st = true -> scanLine n st l = st.
Proof.
  intros Hn Hin. unfold scanLine. rewrite Hin.
  apply Nat.eqb_neq in Hn. rewrite Hn. cbn [andb].
  destruct (eqb (trim l) delimiter); [|reflexivity].
  destruct st; simpl in *. now subst.
Qed.

Lemma foldl_scanLine_idle (n : nat) (ls : list jsstring) (st : ScanState) :
  n <> 2%nat -> inMetadata st = true -> foldl (scanLine n) st ls = st.
Proof.
  intros Hn Hin. induction ls as [|l ls IH]; [reflexivity|].
  cbn [foldl]. now rewrite scanLine_idle.
Qed.

Lemma matchSection_sound (t n : jsstring) :
  matchSection t = Some n ->
  n <> [] /\ Forall (fun c => Legacy.isLineTerminator c = false) n.
Proof.
  unfold matchSection. destruct t as [|c r]; [discriminate|].
  destruct (N.eqb c lbracket); [|discriminate].
  destruct (rev r) as [|e m]; [discriminate|].
  destruct (N.eqb e rbracket); [|discriminate].
  destruct m as [|x m]; [discriminate|]. cbn [nonEmpty andb].
  destruct (existsb Legacy.isLineTerminator (x :: m)) eqn:Ht; [discriminate|].
  intros [= <-]. split.
  - intros E. simpl in E. destruct (rev m); discriminate E.
  - apply List.Forall_forall. intros y Hy. apply (proj2 (in_rev (x :: m) y)) in Hy.
    destruct (Legacy.isLineTerminator y) eqn:Hy'; [|reflexivity].
    assert (Hex : existsb Legacy.isLineTerminator (x :: m) = true).
    { apply existsb_exists. exists y. split; [exact Hy | exact Hy']. }
    congruence.
Qed.

Lemma soundSection_push (s : Section_) (p : Phrase) :
  soundSection s -> completePhrase p -> soundSection (pushPhrase s p).
Proof.
  intros (H1 & H2 & H3) Hp. repeat split; auto.
  cbn [pushPhrase sectionPhrases]. apply Forall_app. auto.
Qed.

Lemma scanLine_sound (n : nat) (st : ScanState) (l : jsstring) :
  soundScan st -> soundScan (scanLine n st l).
Proof.
  intros [Hs Hc]. unfold scanLine. cbv zeta.
  destruct (eqb (trim l) delimiter); [split; assumption|].
  destruct (inMetadata st); [split; assumption|].
  destruct (startsWith (trim l) [hash]).
  { destruct (currentSection st) as [s|] eqn:Hcur; [|split; [assumption | now rewrite Hcur]].
    split; [assumption|]. exact Hc. }
  destruct (startsWith (trim l) [at_]).
  { destruct (currentSection st) as [s|] eqn:Hcur; [|split; [assumption | now rewrite Hcur]].
    destruct (annotationParts (trim l)) as [key value].
    split; [assumption|]. exact Hc. }
  destruct (matchSection (trim l)) as [nm|] eqn:Hm.
  { apply matchSection_sound in Hm as [Hne Hterm]. split.
    - cbn [sections]. destruct (currentSection st) as [s|]; [|assumption].
      apply Forall_app. split; [assumption|]. now constructor.
    - cbn [currentSection]. repeat split; auto. }
  destruct (currentSection st) as [s|] eqn:Hcur; [|split; [assumption | now rewrite Hcur]].
  destruct (startsWith (trim l) analysisPrefix).
  { cbn [swaras sahitya].
    destruct (truthy (swaras (currentPhrase st)) && truthy (sahitya (currentPhrase st)))
      eqn:Hboth.
    - apply andb_true_iff in Hboth as [H1 H2].
      split; [assumption|]. cbn [currentSection].
      apply soundSection_push; [assumption|]. split; assumption.
    - split; assumption. }
  destruct (nonEmpty (trim l) && negb (truthy (swaras (currentPhrase st)))).
  { split; assumption. }
  destruct (nonEmpty (trim l) && truthy (swaras (currentPhrase st))
            && negb (truthy (sahitya (currentPhrase st)))) eqn:Hsa.
  { cbn [phrases].
    destruct (negb (truthy (phrases (currentPhrase st)))); [|split; assumption].
    split; [assumption|]. cbn [currentSection].
    apply soundSection_push; [assumption|].
    apply andb_true_iff in Hsa as [Hsa _]. apply andb_true_iff in Hsa as [Hne Hsw].
    split; cbn [swaras sahitya]; [assumption|].
    destruct (trim l); [discriminate | reflexivity]. }
  split; [assumption | now rewrite Hcur].
Qed.

Lemma findIndexFrom_range (p : Z -> jsstring -> bool) (ls : list jsstring) :
  forall idx, (0 <= idx)%Z ->
    let r := Legacy.findIndexFrom p idx ls in
    r = (-1)%Z \/ (idx <= r < idx + Z.of_nat (length ls))%Z.
Proof.
  induction ls as [|l ls IH]; intros idx Hidx; cbn [Legacy.findIndexFrom].
  - now left.
  - cbv zeta. destruct (p idx l).
    + right. cbn [length]. lia.
    + destruct (IH (idx + 1)%Z ltac:(lia)) as [E|E]; [now left|].
      right. cbn [length]. cbv zeta in E. lia.
Qed.

(** The first index found lies after [idx] free lines. *)
Lemma findIndexFrom_first (ls : list jsstring) :
  forall idx, (0 <= idx)%Z ->
    let r := Legacy.findIndexFrom (fun _ l => Legacy.isDelimiter l) idx ls in
    (r = (-1)%Z /\ List.filter Legacy.isDelimiter ls = [])
    \/ (exists pre d post,
          ls = pre ++ d :: post /\ Legacy.isDelimiter d = true
          /\ List.filter Legacy.isDelimiter pre = []
          /\ r = (idx + Z.of_nat (length pre))%Z).
Proof.
  induction ls as [|l ls IH]; intros idx Hidx; cbn [Legacy.findIndexFrom].
  - now left.
  - cbv zeta. destruct (Legacy.isDelimiter l) eqn:Hl.
    + right. exists [], l, ls. cbn. repeat split; auto. lia.
    + destruct (IH (idx + 1)%Z ltac:(lia)) as [[E F]|(pre & d & post & E & Hd & F & R)].
      * left. split; [exact E|]. cbn. now rewrite Hl.
      * right. exists (l :: pre), d, post. cbn [app List.filter length].
        rewrite Hl. repeat split; auto; [now rewrite E | cbv zeta in R; lia].
Qed.

(** The second search, which only accepts indices after [s]. *)
Lemma findIndexFrom_after (s : Z) (ls : list jsstring) :
  forall idx, (0 <= idx)%Z ->
    let p := fun i l => Z.ltb s i && Legacy.isDelimiter l in
    ((idx + Z.of_nat (length ls) <= s + 1)%Z -> Legacy.findIndexFrom p idx ls = (-1)%Z)
    /\ ((s < idx)%Z ->
        Legacy.findIndexFrom p idx ls
        = Legacy.findIndexFrom (fun _ l => Legacy.isDelimiter l) idx ls).
Proof.
  induction ls as [|l ls IH]; intros idx Hidx; cbn [Legacy.findIndexFrom].
  - auto.
  - cbv zeta. destruct (IH (idx + 1)%Z ltac:(lia)) as [IH1 IH2]. cbv zeta in IH1, IH2.
    split.
    + intros Hlen. cbn [length] in Hlen.
      replace (Z.ltb s idx) with false by (symmetry; apply Z.ltb_ge; lia).
      cbn [andb]. apply IH1. lia.
    + intros Hs. replace (Z.ltb s idx) with true by (symmetry; apply Z.ltb_lt; lia).
      cbn [andb]. destruct (Legacy.isDelimiter l); [reflexivity|]. apply IH2. lia.
Qed.

Lemma findIndexFrom_app (p : Z -> jsstring -> bool) (a b : list jsstring) :
  forall idx,
    (0 <= idx)%Z ->
    Legacy.findIndexFrom p idx a = (-1)%Z ->
    Legacy.findIndexFrom p idx (a ++ b)
    = Legacy.findIndexFrom p (idx + Z.of_nat (length a)) b.
Proof.
  induction a as [|l a IH]; intros idx Hidx; cbn [Legacy.findIndexFrom app length].
  - intros _. f_equal. lia.
  - destruct (p idx l); [lia|]. intros E. rewrite IH by (auto; lia). f_equal. lia.
Qed.

End LegacyFacts.

(** X18: the older body scanner finds sections only in a text with exactly
    two delimiter lines: with fewer or more of them, a rule of three dashes
    in the body for one, it returns no section at all. *)
Theorem legacy_sections_need_two_delimiters (lines : list jsstring) :
  LegacyScan.countDelimiters lines <> 2%nat ->
  LegacyScan.parseSections lines = [].
Proof.
  intros Hn. unfold LegacyScan.parseSections. cbv zeta.
  assert (E : foldl (LegacyScan.scanLine (LegacyScan.countDelimiters lines))
                {| LegacyScan.sections := []; LegacyScan.currentSection := None;
                   LegacyScan.currentPhrase := LegacyScan.noPhrase;
                   LegacyScan.inMetadata := true |} lines
              = {| LegacyScan.sections := []; LegacyScan.currentSection := None;
                   LegacyScan.currentPhrase := LegacyScan.noPhrase;
                   LegacyScan.inMetadata := true |}).
  { now apply foldl_scanLine_idle. }
  rewrite E. reflexivity.
Qed.

Lemma legacy_sections_need_two_delimiters_witness :
  LegacyScan.countDelimiters ruled = 3%nat /\ LegacyScan.parseSections ruled = [].
Proof.
  split; [vm_compute; reflexivity|].
  refine (legacy_sections_need_two_delimiters ruled _). vm_compute. discriminate.
Defined.

(** X19: every section the older body scanner returns has a name that is
    not empty and holds no line terminator, and every phrase in it has a
    swara line and a lyric line that are not empty. *)
Theorem legacy_phrases_complete (lines : list jsstring) :
  Forall soundSection (LegacyScan.parseSections lines).
Proof.
  unfold LegacyScan.parseSections. cbv zeta.
  assert (H : soundScan
    (foldl (LegacyScan.scanLine (LegacyScan.countDelimiters lines))
       {| LegacyScan.sections := []; LegacyScan.currentSection := None;
          LegacyScan.currentPhrase := LegacyScan.noPhrase;
          LegacyScan.inMetadata := true |} lines)).
  { apply foldl_invariant.
    - split; [constructor | exact I].
    - intros a x. apply scanLine_sound. }
  destruct H as [Hs Hc].
  destruct (LegacyScan.currentSection _) as [s|]; [|exact Hs].
  apply Forall_app. split; [exact Hs | now constructor].
Qed.

(** X20: the older frontmatter reader reports a missing metadata section
    exactly when fewer than two lines of the text trim to the delimiter. *)
Theorem legacy_missing_section_iff (lines : list jsstring) :
  Legacy.parseMetadata lines = inl Legacy.MissingMetadataSection
  <-> (LegacyScan.countDelimiters lines < 2)%nat.
Proof.
  unfold Legacy.parseMetadata, Legacy.findIndex, LegacyScan.countDelimiters. cbv zeta.
  destruct (findIndexFrom_first lines 0%Z ltac:(lia))
    as [[E F]|(pre & d & post & E & Hd & F & R)]; cbv zeta in *.
  - rewrite E, F. cbn. split; [lia | reflexivity].
  - rewrite Z.add_0_l in R. rewrite R.
    replace (Z.eqb (Z.of_nat (length pre)) (-1)) with false
      by (symmetry; apply Z.eqb_neq; lia).
    cbn [orb]. rewrite E.
    assert (Hpre : Legacy.findIndexFrom
              (fun idx l => Z.ltb (Z.of_nat (length pre)) idx && Legacy.isDelimiter l)
              0 (pre ++ [d]) = (-1)%Z).
    { apply (findIndexFrom_after (Z.of_nat (length pre)) (pre ++ [d]) 0%Z ltac:(lia)).
      rewrite length_app. cbn [length]. lia. }
    replace (pre ++ d :: post) with ((pre ++ [d]) ++ post)
      by (now rewrite <- app_assoc).
    rewrite findIndexFrom_app by (auto; lia).
    rewrite (proj2 (findIndexFrom_after (Z.of_nat (length pre)) post
                      (0 + Z.of_nat (length (pre ++ [d])))%Z ltac:(lia)))
      by (rewrite length_app; cbn [length]; lia).
    rewrite !List.filter_app, F. cbn [List.filter app]. rewrite Hd. cbn [app length].
    destruct (findIndexFrom_first post (0 + Z.of_nat (length (pre ++ [d])))%Z ltac:(lia))
      as [[E2 F2]|(pre2 & d2 & post2 & E2 & Hd2 & F2 & R2)]; cbv zeta in *.
    + rewrite E2, F2. cbn. split; [lia | reflexivity].
    + rewrite R2.
      replace (Z.eqb _ (-1)) with false by (symmetry; apply Z.eqb_neq; lia).
      rewrite E2, List.filter_app, F2. cbn [List.filter app]. rewrite Hd2. cbn [length].
      split; [|lia].
      destruct (requiredMissing _); discriminate.
Qed.


(** * More on the swara tokenizer ([VNAParser.parseSwaraLine] of
      [lib/vna-parser-wasm.ts], lines 21 to 95) *)

Section SwaraUnits.

Import Swara.

Lemma parseSwaraLine_tokenizes (token : jsstring) :
  exists out, parseSwaraLine token = Some out /\ Tokenizes token out.
Proof.
  unfold parseSwaraLine.
  destruct (eqb token [dash]) eqn:Hd.
  { apply eqb_eq in Hd. subst. exists [restUnit]. split; [reflexivity|].
    apply T_rest, T_end. }
  destruct (eqb token [comma]) eqn:Hc.
  { apply eqb_eq in Hc. subst. exists [sustainUnit]. split; [reflexivity|].
    apply T_sustain, T_end. }
  destruct (scan_tokenizes (S (length token)) token 0 [] ltac:(lia)) as (out & E & T).
  exists out. split; [exact E | exact T].
Qed.

Lemma plain_cases (c : N) :
  isPlain c = true -> c = comma \/ c = dash \/ isSwaraLetter c = true.
Proof.
  unfold isPlain. rewrite !orb_true_iff, !N.eqb_eq. tauto.
Qed.

Lemma plain_not_mark (c : N) :
  isPlain c = true -> isVariantDigit c = false /\ c <> dot /\ c <> apostrophe.
Proof.
  intros H. destruct (plain_cases c H) as [->|[->|Hl]].
  - repeat split; discriminate.
  - repeat split; discriminate.
  - unfold isSwaraLetter in Hl. simpl in Hl.
    rewrite !orb_false_r, !orb_true_iff, !N.eqb_eq in Hl.
    repeat destruct Hl as [Hl|Hl]; subst c; repeat split; discriminate.
Qed.

Lemma unitStarter_plain : unitStarter isPlain.
Proof.
  repeat split. intros d Hd.
  destruct (isPlain d) eqn:Hp; [|reflexivity].
  destruct (plain_not_mark d Hp) as [Hv _]. congruence.
Qed.

Lemma Tokenizes_plain (s : jsstring) (out : list ParsedSwara) :
  Tokenizes s out -> forallb isPlain s = true -> out = map plainUnit s.
Proof.
  induction 1 as [|s out _ IH|s out _ IH
                 |c s v s1 d q s3 out Hletter Hv Hs1 Hhead Hq0 Hq3 _ IH
                 |c s out Hd Hc Hl _ IH]; intros Hall.
  - reflexivity.
  - simpl in Hall. cbn [map]. rewrite <- IH by exact Hall. reflexivity.
  - simpl in Hall. cbn [map]. rewrite <- IH by exact Hall. reflexivity.
  - cbn [forallb] in Hall. apply andb_true_iff in Hall as [_ Hall].
    assert (Ev : v = None /\ s1 = s).
    { unfold takeVariant in Hv. destruct s as [|x s']; [now injection Hv as <- <-|].
      cbn [forallb] in Hall. apply andb_true_iff in Hall as [Hx _].
      destruct (plain_not_mark x Hx) as [Hx' _]. rewrite Hx' in Hv.
      now injection Hv as <- <-. }
    destruct Ev as [-> ->].
    assert (Ed : d = O).
    { destruct d as [|d]; [reflexivity|]. rewrite Hs1 in Hall.
      cbn [repeat app forallb] in Hall. discriminate Hall. }
    subst d. cbn [repeat app] in Hs1.
    assert (Eq : q = O).
    { destruct q as [|q]; [reflexivity|]. rewrite Hs1 in Hall.
      cbn [repeat app forallb] in Hall. discriminate Hall. }
    subst q. cbn [repeat app] in Hs1. subst s3.
    cbn [map octaveOf Nat.add]. rewrite <- IH by exact Hall.
    destruct (letter_not_marker c Hletter) as [H1 H2].
    unfold plainUnit. unfold isDash in H1. unfold isComma in H2. now rewrite H1, H2.
  - cbn [forallb] in Hall. apply andb_true_iff in Hall as [Hp _].
    destruct (plain_cases c Hp) as [->|[->|H]]; congruence.
Qed.

Lemma takeVariant_digit (s s1 : jsstring) (v : option N) :
  takeVariant s = (v, s1) ->
  match v with Some d => isVariantDigit d = true | None => True end.
Proof.
  unfold takeVariant. destruct s as [|d s']; [now intros [= <- _]|].
  destruct (isVariantDigit d) eqn:Hd; intros [= <- _]; [exact Hd | exact I].
Qed.

Lemma Tokenizes_shape (s : jsstring) (out : list ParsedSwara) :
  Tokenizes s out -> Forall unitShape out /\ length out = countIf isPlain s.
Proof.
  induction 1 as [|s out _ [IH1 IH2]|s out _ [IH1 IH2]
                 |c s v s1 d q s3 out Hletter Hv Hs1 Hhead Hq0 Hq3 _ [IH1 IH2]
                 |c s out Hd Hc Hl _ [IH1 IH2]].
  - split; [constructor | reflexivity].
  - split; [constructor; [now left | exact IH1]|].
    cbn [length]. rewrite IH2. reflexivity.
  - split; [constructor; [right; now left | exact IH1]|].
    cbn [length]. rewrite IH2. reflexivity.
  - split.
    + constructor; [|exact IH1]. right. right. exists c, v, (octaveOf d q).
      split; [reflexivity|]. split; [exact Hletter|].
      exact (takeVariant_digit _ _ _ Hv).
    + rewrite (countIf_note isPlain c s v s1 d q s3 unitStarter_plain Hv Hs1).
      unfold isPlain at 1. rewrite Hletter, !orb_true_r. cbn [length]. now rewrite IH2.
  - split; [exact IH1|]. rewrite IH2. unfold countIf. cbn [List.filter].
    unfold isPlain at 2. rewrite Hl.
    apply N.eqb_neq in Hd, Hc. now rewrite Hd, Hc.
Qed.

Lemma countIf_le (p : N -> bool) (s : jsstring) : (countIf p s <= length s)%nat.
Proof.
  unfold countIf. induction s as [|c s IH]; simpl; [lia|].
  destruct (p c); simpl; lia.
Qed.

End SwaraUnits.

(** X22: a token made only of swara letters, dashes and commas gives one
    unit for each of its characters, in order: a sustain for a comma, a rest
    for a dash, a note without variant or octave for a letter. *)
Theorem plain_token_units (token : jsstring) :
  forallb isPlain token = true ->
  Swara.parseSwaraLine token = Some (map plainUnit token).
Proof.
  intros Hall. destruct (parseSwaraLine_tokenizes token) as (out & E & T).
  rewrite E. f_equal. now apply Tokenizes_plain.
Qed.

Lemma plain_token_units_witness :
  Swara.parseSwaraLine (str "G,G-")
  = Some [ Swara.noteUnit 71 None None; Swara.sustainUnit;
           Swara.noteUnit 71 None None; Swara.restUnit ].
Proof.
  refine (plain_token_units (str "G,G-") _). reflexivity.
Defined.

(** X23: the tokenizer gives as many units as the token has swara letters,
    dashes and commas, so never more than it has characters, and each unit
    is a rest, a sustain, or a note on one of the seven letters whose
    variant, if any, is 1, 2 or 3. *)
Theorem swara_units_shape (token : jsstring) :
  exists out,
    Swara.parseSwaraLine token = Some out
    /\ Forall unitShape out
    /\ length out = Swara.countIf isPlain token
    /\ (length out <= length token)%nat.
Proof.
  destruct (parseSwaraLine_tokenizes token) as (out & E & T).
  destruct (Tokenizes_shape token out T) as [Hs Hl].
  exists out. repeat split; auto. rewrite Hl. apply countIf_le.
Qed.

(** * The two swara tokenizers side by side
      ([parseSwaraLine] of [lib/vna-parser.ts], lines 124 to 218, and of
      [lib/vna-parser-wasm.ts], lines 21 to 95) *)

Section Starters.

Lemma starters_app (a b : jsstring) : starters (a ++ b) = starters a ++ starters b.
Proof.
  induction a as [|c a IH]; cbn [app starters]; [reflexivity|].
  destruct (starterOf c); now rewrite IH.
Qed.

Lemma starters_cons_none (c : N) (s : jsstring) :
  starterOf c = None -> starters (c :: s) = starters s.
Proof. intros H. cbn [starters]. now rewrite H. Qed.

Lemma starters_cons_some (c : N) (k : UnitKind) (s : jsstring) :
  starterOf c = Some k -> starters (c :: s) = k :: starters s.
Proof. intros H. cbn [starters]. now rewrite H. Qed.

Lemma starters_none (s : jsstring) :
  Forall (fun c => starterOf c = None) s -> starters s = [].
Proof.
  induction 1 as [|c s Hc _ IH]; [reflexivity|]. now rewrite starters_cons_none.
Qed.

Lemma starterOf_letter (c : N) :
  Swara.isSwaraLetter c = true -> starterOf c = Some (KNote c).
Proof.
  intros H. destruct (letter_not_marker c H) as [H1 H2].
  unfold starterOf. unfold Swara.isDash in H1. unfold Swara.isComma in H2.
  now rewrite H1, H2, H.
Qed.

Lemma starterOf_between (c : N) : (45 < c < 68) -> starterOf c = None.
Proof.
  intros Hc. unfold starterOf, Swara.dash, Swara.comma, Swara.isSwaraLetter.
  cbn [existsb].
  repeat match goal with
         | |- context [N.eqb c ?k] => destruct (N.eqb_spec c k); [lia|]
         end.
  reflexivity.
Qed.

Lemma starterOf_digit (d : N) : isDigit d = true -> starterOf d = None.
Proof.
  unfold isDigit. rewrite andb_true_iff, !N.leb_le. intros [H1 H2].
  apply starterOf_between. lia.
Qed.

Lemma starterOf_variant (d : N) : Swara.isVariantDigit d = true -> starterOf d = None.
Proof.
  unfold Swara.isVariantDigit. cbn [existsb]. rewrite !orb_true_iff, !N.eqb_eq.
  intros [->|[->|[->|H]]]; try reflexivity. discriminate H.
Qed.

Lemma starterOf_mark (c : N) : LegacySwara.isMark c = true -> starterOf c = None.
Proof.
  unfold LegacySwara.isMark. rewrite orb_true_iff, !N.eqb_eq. intros [->| ->]; reflexivity.
Qed.

Lemma starterOf_space (c : N) : isSpace c = true -> starterOf c = None.
Proof.
  unfold isSpace. intros H. apply existsb_exists in H as (x & Hin & Hx).
  apply N.eqb_eq in Hx. subst x. cbn [In] in Hin.
  repeat (destruct Hin as [<-|Hin]; [reflexivity|]). destruct Hin.
Qed.

Lemma starters_takeWhile (p : N -> bool) (s : jsstring) :
  (forall c, p c = true -> starterOf c = None) ->
  starters (takeWhile p s) = [] /\ starters (dropWhile p s) = starters s
  /\ (length (dropWhile p s) <= length s)%nat.
Proof.
  intros Hp. induction s as [|c s (IH1 & IH2 & IH3)]; cbn [takeWhile dropWhile].
  - auto.
  - destruct (p c) eqn:Hc.
    + rewrite !starters_cons_none by auto. cbn [length]. auto with arith.
    + auto.
Qed.

Lemma takeDigit_spec (r r1 : jsstring) (d : option N) :
  LegacySwara.takeDigit r = (d, r1) ->
  starters r1 = starters r /\ (length r1 <= length r)%nat
  /\ starters (match d with Some x => [x] | None => [] end) = []
  /\ r = match d with Some x => [x] | None => [] end ++ r1.
Proof.
  unfold LegacySwara.takeDigit. destruct r as [|x r]; [intros [= <- <-]; auto|].
  destruct (isDigit x) eqn:Hx; intros [= <- <-].
  - rewrite !starters_cons_none by now apply starterOf_digit. cbn [length]. auto with arith.
  - auto.
Qed.

Lemma takeOctave_spec (s r2 : jsstring) (o : LegacyScan.OctaveMarker) :
  LegacySwara.takeOctave s = (o, r2) ->
  starters r2 = starters s /\ (length r2 <= length s)%nat
  /\ exists pre, s = pre ++ r2.
Proof.
  unfold LegacySwara.takeOctave.
  destruct s as [|c r]; [intros [= _ <-]; repeat split; auto; now exists []|].
  destruct (N.eqb_spec c Swara.dot) as [->|_].
  { destruct r as [|c2 r'].
    - intros [= _ <-]. cbn [length]. repeat split; auto. now exists [Swara.dot].
    - destruct (N.eqb_spec c2 Swara.dot) as [->|_]; intros [= _ <-]; cbn [length].
      + repeat split; auto with arith. now exists [Swara.dot; Swara.dot].
      + repeat split; auto with arith. now exists [Swara.dot]. }
  destruct (N.eqb_spec c Swara.apostrophe) as [->|_].
  { destruct r as [|c2 r'].
    - intros [= _ <-]. cbn [length]. repeat split; auto. now exists [Swara.apostrophe].
    - destruct (N.eqb_spec c2 Swara.apostrophe) as [->|_]; intros [= _ <-]; cbn [length].
      + repeat split; auto with arith. now exists [Swara.apostrophe; Swara.apostrophe].
      + repeat split; auto with arith. now exists [Swara.apostrophe]. }
  intros [= _ <-]. repeat split; auto. now exists [].
Qed.

Lemma matchAt_spec (c : N) (r rest : jsstring) (u : LegacySwara.ParsedSwara) :
  LegacySwara.matchAt c r = (u, rest) ->
  legacyKindOf u = KNote c /\ starters rest = starters r
  /\ (length rest <= length r)%nat
  /\ exists pre, r = pre ++ rest.
Proof.
  unfold LegacySwara.matchAt.
  destruct (LegacySwara.takeDigit r) as [d r1] eqn:Hd.
  destruct (LegacySwara.takeOctave r1) as [o r2] eqn:Ho.
  intros [= <- <-].
  destruct (takeDigit_spec _ _ _ Hd) as (E1 & L1 & _ & P1).
  destruct (takeOctave_spec _ _ _ Ho) as (E2 & L2 & pre & P2).
  split; [reflexivity|]. split; [congruence|]. split; [lia|].
  eexists. rewrite P1, P2. apply app_assoc.
Qed.

Lemma includes_app_r (a b : jsstring) (c : N) :
  includes (a ++ b) c = false -> includes b c = false.
Proof.
  unfold includes. rewrite existsb_app. intros H.
  now apply orb_false_iff in H as [_ H].
Qed.

Lemma starterOf_other (c : N) :
  N.eqb Swara.dash c = false -> N.eqb Swara.comma c = false ->
  Swara.isSwaraLetter c = false -> starterOf c = None.
Proof.
  intros H1 H2 H3. unfold starterOf.
  rewrite N.eqb_sym in H1. rewrite N.eqb_sym in H2. now rewrite H1, H2, H3.
Qed.

(** The notes of a string without dash or comma. *)
Lemma matchAll_spec (fuel : nat) :
  forall s,
    (length s < fuel)%nat ->
    includes s Swara.dash = false -> includes s Swara.comma = false ->
    exists out, LegacySwara.matchAll fuel s = Some out
                /\ map legacyKindOf out = starters s.
Proof.
  induction fuel as [|fuel IH]; intros s Hlen Hd Hc; [lia|].
  destruct s as [|c r]; cbn [LegacySwara.matchAll]; [exists []; auto|].
  pose proof (includes_app_r [c] r _ Hd) as Hd'.
  pose proof (includes_app_r [c] r _ Hc) as Hc'.
  unfold includes in Hd, Hc. cbn [existsb] in Hd, Hc.
  apply orb_false_iff in Hd as [Hd1 _], Hc as [Hc1 _]. cbn [length] in Hlen.
  destruct (Swara.isSwaraLetter c) eqn:Hl.
  - destruct (LegacySwara.matchAt c r) as [u rest] eqn:Hm.
    destruct (matchAt_spec _ _ _ _ Hm) as (Hk & Hs & Hlen' & pre & Hpre).
    rewrite Hpre in Hd', Hc'.
    destruct (IH rest ltac:(lia) (includes_app_r _ _ _ Hd') (includes_app_r _ _ _ Hc'))
      as (out & E & Hk').
    exists (u :: out). rewrite E. split; [reflexivity|].
    cbn [map]. rewrite Hk, Hk', Hs.
    now rewrite (starters_cons_some c (KNote c)) by now apply starterOf_letter.
  - destruct (IH r ltac:(lia) Hd' Hc') as (out & E & Hk).
    exists out. split; [exact E|]. rewrite Hk.
    rewrite starters_cons_none; [reflexivity|]. now apply starterOf_other.
Qed.

(** The loop over the characters of a token. *)
Lemma scanChars_spec (fuel : nat) :
  forall s,
    (length s < fuel)%nat ->
    exists out, LegacySwara.scanChars fuel s = Some out
                /\ map legacyKindOf out = starters s.
Proof.
  induction fuel as [|fuel IH]; intros s Hlen; [lia|].
  destruct s as [|c r]; cbn [LegacySwara.scanChars]; [exists []; auto|].
  cbn [length] in Hlen.
  destruct (N.eqb_spec c Swara.dash) as [->|Hd].
  { destruct (IH r ltac:(lia)) as (out & E & Hk). exists (LegacySwara.restUnit :: out).
    rewrite E. split; [reflexivity|]. cbn [map]. now rewrite Hk. }
  destruct (N.eqb_spec c Swara.comma) as [->|Hc].
  { destruct (IH r ltac:(lia)) as (out & E & Hk). exists (LegacySwara.sustainUnit :: out).
    rewrite E. split; [reflexivity|]. cbn [map]. now rewrite Hk. }
  destruct (Swara.isSwaraLetter c) eqn:Hl.
  - destruct (LegacySwara.takeDigit r) as [d r1] eqn:Hdig.
    destruct (takeDigit_spec _ _ _ Hdig) as (E1 & L1 & Hnone & _).
    destruct (starters_takeWhile LegacySwara.isMark r1 starterOf_mark) as (M1 & M2 & M3).
    set (notation := c :: match d with Some x => [x] | None => [] end
                          ++ takeWhile LegacySwara.isMark r1).
    assert (Hst : starters notation = [KNote c]).
    { unfold notation.
      rewrite (starters_cons_some c (KNote c)) by now apply starterOf_letter.
      now rewrite starters_app, Hnone, M1. }
    assert (Hno : forall x, (x = Swara.dash \/ x = Swara.comma) ->
                            includes notation x = false).
    { intros x Hx. unfold includes.
      destruct (existsb (N.eqb x) notation) eqn:Hex; [|reflexivity].
      apply existsb_exists in Hex as (y & Hy & Exy). apply N.eqb_eq in Exy. subst y.
      assert (Hsx : starterOf x <> None) by (destruct Hx as [->| ->]; discriminate).
      exfalso. unfold notation in Hy. destruct Hy as [->|Hy].
      - destruct Hx; congruence.
      - apply in_app_or in Hy as [Hy|Hy].
        + destruct d as [d|]; [|destruct Hy]. destruct Hy as [->|[]].
          unfold LegacySwara.takeDigit in Hdig. destruct r as [|z r']; [discriminate|].
          destruct (isDigit z) eqn:Hz; [|discriminate]. injection Hdig as -> _.
          apply Hsx. now apply starterOf_digit.
        + apply Hsx. apply starterOf_mark.
          clear -Hy. induction r1 as [|z r1 IH]; [destruct Hy|].
          cbn [takeWhile] in Hy. destruct (LegacySwara.isMark z) eqn:Hz; [|destruct Hy].
          destruct Hy as [<-|Hy]; auto. }
    destruct (matchAll_spec (S (length notation)) notation ltac:(lia)
                (Hno _ (or_introl eq_refl)) (Hno _ (or_intror eq_refl)))
      as (ms & Ems & Hms).
    rewrite Ems. rewrite Hst in Hms.
    destruct ms as [|m [|m' ms]]; try discriminate Hms. injection Hms as Hm.
    destruct (IH (dropWhile LegacySwara.isMark r1) ltac:(lia)) as (out & E & Hk).
    exists (m :: out). rewrite E. split; [reflexivity|].
    cbn [map]. rewrite Hm, Hk, M2, E1.
    now rewrite (starters_cons_some c (KNote c)) by now apply starterOf_letter.
  - destruct (IH r ltac:(lia)) as (out & E & Hk).
    exists out. split; [exact E|]. rewrite Hk.
    rewrite starters_cons_none; [reflexivity|].
    unfold starterOf. apply N.eqb_neq in Hd, Hc. now rewrite Hd, Hc, Hl.
Qed.


Lemma tokenUnits_spec (token : jsstring) :
  exists out, LegacySwara.tokenUnits token = Some out
              /\ map legacyKindOf out = starters token.
Proof.
  unfold LegacySwara.tokenUnits.
  destruct (eqb token [Swara.dash]) eqn:E1.
  { apply eqb_eq in E1. subst. exists [LegacySwara.restUnit]. auto. }
  destruct (eqb token [Swara.comma]) eqn:E2.
  { apply eqb_eq in E2. subst. exists [LegacySwara.sustainUnit]. auto. }
  destruct (eqb token [bar]) eqn:E3.
  { apply eqb_eq in E3. subst. exists []. auto. }
  destruct (eqb token [bar; bar]) eqn:E4.
  { apply eqb_eq in E4. subst. exists []. auto. }
  cbn [orb].
  destruct (includes token Swara.dash) eqn:Hd; cbn [orb].
  { apply scanChars_spec. lia. }
  destruct (includes token Swara.comma) eqn:Hc.
  { apply scanChars_spec. lia. }
  apply matchAll_spec; [lia | exact Hd | exact Hc].
Qed.

(** The pieces of a string between white space hold, in order, the
    starters of the string. *)
Lemma starters_splitSpaces (f : bool) (s : jsstring) :
  flat_map starters (splitSpacesAux f s) = starters s.
Proof.
  revert f. induction s as [|c s IH]; intros f; cbn [splitSpacesAux]; [reflexivity|].
  destruct (isSpace c) eqn:Hc.
  - rewrite (starters_cons_none c s) by now apply starterOf_space.
    destruct f; cbn [flat_map starters app]; apply IH.
  - pose proof (IH false) as E. rewrite (splitSpacesAux_cons false s) in E |- *.
    cbn [flat_map] in E. cbn [consHead flat_map starters]. rewrite <- E.
    destruct (starterOf c); reflexivity.
Qed.

Lemma foldl_addUnits (tokens : list jsstring) :
  forall acc,
    exists out, foldl LegacySwara.addUnits (Some acc) tokens = Some (acc ++ out)
                /\ map legacyKindOf out = flat_map starters tokens.
Proof.
  induction tokens as [|t ts IH]; intros acc; cbn [foldl flat_map].
  - exists []. now rewrite app_nil_r.
  - destruct (tokenUnits_spec t) as (u & Eu & Hu).
    unfold LegacySwara.addUnits at 2. rewrite Eu.
    destruct (IH (acc ++ u)) as (out & E & Hk).
    exists (u ++ out). rewrite E, <- app_assoc. split; [reflexivity|].
    now rewrite map_app, Hu, Hk.
Qed.

Lemma starters_repeat (c : N) (n : nat) :
  starterOf c = None -> starters (repeat c n) = [].
Proof.
  intros Hc. induction n as [|n IH]; [reflexivity|].
  cbn [repeat]. now rewrite starters_cons_none.
Qed.

Lemma Tokenizes_kinds (s : jsstring) (out : list Swara.ParsedSwara) :
  Swara.Tokenizes s out -> map kindOf out = starters s.
Proof.
  induction 1 as [|s out _ IH|s out _ IH
                 |c s v s1 d q s3 out Hletter Hv Hs1 _ _ _ _ IH
                 |c s out Hd Hc Hl _ IH].
  - reflexivity.
  - cbn [map]. now rewrite IH.
  - cbn [map]. now rewrite IH.
  - cbn [map]. rewrite (starters_cons_some c (KNote c)) by now apply starterOf_letter.
    rewrite IH. f_equal.
    assert (E : starters s = starters s1).
    { revert Hv. unfold Swara.takeVariant. destruct s as [|x s']; [now intros [= _ <-]|].
      destruct (Swara.isVariantDigit x) eqn:Hx; intros [= _ <-]; [|reflexivity].
      apply starters_cons_none. now apply starterOf_variant. }
    rewrite E, Hs1, !starters_app, !starters_repeat by reflexivity. reflexivity.
  - rewrite IH. symmetry. apply starters_cons_none.
    unfold starterOf. apply N.eqb_neq in Hd, Hc. now rewrite Hd, Hc, Hl.
Qed.

End Starters.

(** X26: on every line the tokenizer of the older parser returns, and its
    units follow the characters of the line one by one: a rest for every
    dash, a sustain for every comma, a note on the letter for every one of
    the seven swara letters, in the order of the text; white space, bars,
    digits and octave markers add no unit of their own. *)
Theorem legacy_units_follow_text (line : jsstring) :
  exists out,
    LegacySwara.parseSwaraLine line = Some out
    /\ map legacyKindOf out = starters line.
Proof.
  unfold LegacySwara.parseSwaraLine.
  destruct (foldl_addUnits (splitSpaces line) []) as (out & E & Hk).
  exists out. split; [exact E|]. rewrite Hk. apply starters_splitSpaces.
Qed.

(** X27: the tokenizer of the WASM front end and the tokenizer of the older
    parser agree on every token in the sequence of rests, sustains and note
    letters they return; they can differ only in the variant and the octave
    they attach to a note. *)
Theorem tokenizers_agree_on_kinds (token : jsstring) :
  exists a b,
    Swara.parseSwaraLine token = Some a
    /\ LegacySwara.parseSwaraLine token = Some b
    /\ map kindOf a = map legacyKindOf b
    /\ map kindOf a = starters token.
Proof.
  destruct (parseSwaraLine_tokenizes token) as (a & Ea & Ta).
  destruct (foldl_addUnits (splitSpaces token) []) as (b & Eb & Hb).
  rewrite (starters_splitSpaces false token : flat_map starters (splitSpaces token) = _) in Hb.
  exists a, b. pose proof (Tokenizes_kinds _ _ Ta) as Ha.
  repeat split; auto. congruence.
Qed.
